(** * Shader binding table of [RtProgramVars]

    A shallow embedding of [Framework/Source/Raytracing/RtProgramVars.cpp]
    and the properties of its record layout, construction and [apply]. *)

From Stdlib Require Import ZArith String Bool Lia List.
From Stdlib Require Import Strings.Byte.
Import ListNotations.
Open Scope Z_scope.

(* ================================================================= *)
(** ** 32-bit unsigned arithmetic *)

(** Every count, index, size and offset of the source is a [uint32_t]:
    a [Z] in [0, 2^32), with the wrap-around of each operation written out. *)
Module U32.
Definition modulus : Z := 2 ^ 32.
Definition wrap (x : Z) : Z := x mod modulus.
Definition add (x y : Z) : Z := wrap (x + y).
Definition sub (x y : Z) : Z := wrap (x - y).
Definition mul (x y : Z) : Z := wrap (x * y).
Definition div (x y : Z) : Z := x / y.
Definition max (x y : Z) : Z := Z.max x y.
Definition of_size (n : nat) : Z := wrap (Z.of_nat n).
End U32.

(* ================================================================= *)
(** ** Constants and macros declared outside the translation unit *)

(** Modelled from the spec: [kRayGenSbtRecordIndex] is declared in
    RtProgramVars.h, which is not part of the sources at hand.  The spec
    fixes the ray-gen record at offset 0 (section 4.2, [rayGenOffset = 0]),
    and so does the layout comment above [getRayGenRecordPtr]. *)
Definition kRayGenSbtRecordIndex : Z := 0.

(** Modelled from the spec: [kFirstMissSbtRecordIndex] is declared in
    RtProgramVars.h as well.  Section 4.2: [firstMissIndex =
    rayGenSlotCount (=1)]. *)
Definition kFirstMissSbtRecordIndex : Z := 1.

(** Modelled from the spec: the macro [align_to] comes from Framework.h.
    Section 4.2 calls it [alignUp]: the size rounded up to the next multiple
    of the boundary ("32+64=96, aligned up to 64 -> 128").  Its operands are
    32-bit unsigned here, so each step wraps. *)
Definition align_to (alignment val : Z) : Z :=
  U32.mul (U32.div (U32.sub (U32.add val alignment) 1) alignment) alignment.

(** The rounding of the spec over the integers, for comparison. *)
Definition alignUp (val alignment : Z) : Z :=
  ((val + alignment - 1) / alignment) * alignment.

(** What the platform fixes: the value of
    [D3D12_RAYTRACING_SHADER_RECORD_BYTE_ALIGNMENT] and the answer of the
    device to [GetShaderIdentifierSize]. *)
Record Platform := mkPlatform {
  shaderRecordByteAlignment : Z;
  deviceShaderIdentifierSize : Z
}.

Definition GetShaderIdentifierSize (plat : Platform) : Z :=
  U32.wrap (deviceShaderIdentifierSize plat).

Definition alignment_ok (plat : Platform) : Prop :=
  0 < shaderRecordByteAlignment plat < U32.modulus.

(* ================================================================= *)
(** ** Collaborators: programs, scene, binding variables, buffers *)

Record RootSignature := mkRootSignature { sizeInBytes : Z }.

Definition getSizeInBytes (rs : RootSignature) : Z := U32.wrap (sizeInBytes rs).

Record RtProgramVersion := mkVersion {
  getRootSignature : RootSignature;
  getExportName : string
}.

(** A ray-gen, hit or miss program; only its active version is used. *)
Record Prog := mkProg { getActiveVersion : RtProgramVersion }.

(** The program set.  A null ray-gen pointer is [None]. *)
Record RtProgram := mkRtProgram {
  getRayGenProgram : option Prog;
  hitPrograms : list Prog;
  missPrograms : list Prog
}.

Definition getHitProgramCount (p : RtProgram) : Z := U32.of_size (length (hitPrograms p)).
Definition getMissProgramCount (p : RtProgram) : Z := U32.of_size (length (missPrograms p)).
Definition getHitProgram (p : RtProgram) (i : Z) : option Prog :=
  nth_error (hitPrograms p) (Z.to_nat i).
Definition getMissProgram (p : RtProgram) (i : Z) : option Prog :=
  nth_error (missPrograms p) (Z.to_nat i).

(** The scene answers [getGeometryCount(hitProgCount)]; the answer may be
    another one at a later time, so scenes live in the world and the object
    only holds an address. *)
Record RtScene := mkScene { geometryCount : Z -> Z }.

Definition ScenePtr := option nat.

(** A binding-variable instance is a heap object: the identity it got when
    created, and the root signature it was created for. *)
Record GraphicsVars := mkGraphicsVars {
  gvId : nat;
  gvRootSignature : RootSignature
}.

(** What a binding-variable instance holds at some moment: whether its
    bindings resolve, and the parameter bytes they serialize to. *)
Record VarsState := mkVarsState {
  resolved : bool;
  paramBlock : nat -> byte
}.

Record Buffer := mkBuffer { bufId : nat; getSize : Z }.

(** The pipeline state object: the identifier blob of each export. *)
Record RtStateObject := mkRtso { GetShaderIdentifier : string -> nat -> byte }.

(** Calls that leave the translation unit for a record, in program order. *)
Inductive Call :=
| CallApplyRecord (pRecord : Z) (exportName : string) (vars : nat) (ok : bool)
| CallUpdateBuffer (buffer : nat).

(* ================================================================= *)
(** ** The world and the object *)

Record World := mkWorld {
  wLog : list string;                 (* messages of logError *)
  wScene : nat -> RtScene;            (* the scenes, by address *)
  wNextVars : nat;                    (* allocator of GraphicsVars *)
  wBindings : nat -> VarsState;       (* state of each GraphicsVars *)
  wNextBuffer : nat;                  (* allocator of GPU buffers *)
  wGpu : nat -> list byte;            (* contents of each GPU buffer *)
  wRootParams : Z;                    (* base set by setRootParams *)
  wRootParamsSize : Z;                (* size of the signature set with it *)
  wCalls : list Call                  (* history, oldest first *)
}.

(** The program set is held through a shared pointer, which may be
    null. *)
Definition RtProgramPtr := option RtProgram.

(** The helper context the binding calls of [apply] go through.  Its
    command list, where [setRootParams] puts the base of the parameter
    block, is part of the world ([wRootParams]); the object holds the
    handle [RtVarsContext::create] returns. *)
Inductive RtVarsContext := RtVarsContext_create.

Record RtProgramVars := mkRtProgramVars {
  mpProgram : RtProgramPtr;
  mpScene : ScenePtr;
  mRayGenVars : option GraphicsVars;
  mHitVars : list (list (option GraphicsVars));
  mMissVars : list (option GraphicsVars);
  mHitProgCount : Z;
  mMissProgCount : Z;
  mFirstHitVarEntry : Z;
  mProgramIdentifierSize : Z;
  mRecordSize : Z;
  mpSBT : option Buffer;
  mSbtData : list byte;
  mpRtVarsHelper : option RtVarsContext
}.

(** A method runs on the object and the world. *)
Record State := mkState { this : RtProgramVars; world : World }.

(** Outcome of a run: a result, a failed [assert], or behaviour the
    language leaves undefined (null dereference, access out of range). *)
Inductive Outcome (A : Type) : Type :=
| Ok (a : A)
| AssertFailed (condition : string)
| Undefined (what : string).
Arguments Ok {A} a.
Arguments AssertFailed {A} condition.
Arguments Undefined {A} what.

Definition M (S A : Type) : Type := S -> Outcome (A * S).

Definition ret {S A} (a : A) : M S A := fun s => Ok (a, s).

Definition bind {S A B} (m : M S A) (f : A -> M S B) : M S B :=
  fun s => match m s with
           | Ok (a, s') => f a s'
           | AssertFailed c => AssertFailed c
           | Undefined u => Undefined u
           end.

Declare Scope m_scope.
Delimit Scope m_scope with M.
Notation "x <- c ;; k" := (bind c (fun x => k))
  (at level 61, c at next level, right associativity) : m_scope.
Notation "c ;;; k" := (bind c (fun _ => k))
  (at level 61, right associativity) : m_scope.
Open Scope m_scope.

Definition gets {S A} (f : S -> A) : M S A := fun s => Ok (f s, s).
Definition modify {S} (f : S -> S) : M S unit := fun s => Ok (tt, f s).
Definition undefined {S A} (what : string) : M S A := fun _ => Undefined what.

(** Modelled from the spec: [assert] is a macro of Framework.h.  Section 7
    treats a violated bound as "a fatal assertion, not a recoverable
    error": the run stops there. *)
Definition assert {S} (b : bool) (condition : string) : M S unit :=
  fun s => if b then Ok (tt, s) else AssertFailed condition.

(** Dereference of a pointer that may be null or wild. *)
Definition deref {S A} (p : option A) (what : string) : M S A :=
  match p with Some a => ret a | None => undefined what end.

(** A free function sees the world only. *)
Definition liftW {A} (m : M World A) : M State A :=
  fun st => match m (world st) with
            | Ok (a, w) => Ok (a, mkState (this st) w)
            | AssertFailed c => AssertFailed c
            | Undefined u => Undefined u
            end.

(** [for (uint32_t i = start; i < start + n; i++) acc = body(i, acc)] *)
Fixpoint for_loop {S A} (n : nat) (i : Z) (body : Z -> A -> M S A) (acc : A) : M S A :=
  match n with
  | O => ret acc
  | S n' => acc' <- body i acc ;; for_loop n' (i + 1) body acc'
  end.

(** The same loop when the body may [return r] from the enclosing function
    ([Some r]) or fall through to the next iteration ([None]). *)
Fixpoint for_return {S R} (n : nat) (i : Z) (body : Z -> M S (option R)) : M S (option R) :=
  match n with
  | O => ret None
  | S n' => r <- body i ;;
            match r with
            | Some x => ret (Some x)
            | None => for_return n' (i + 1) body
            end
  end.

(* ================================================================= *)
(** ** Vectors and raw memory *)

(** [v.resize(n)] with value-initialised new elements. *)
Definition resize {A} (v : list A) (n : Z) (d : A) : list A :=
  firstn (Z.to_nat n) v ++ repeat d (Z.to_nat n - List.length v).

(** [a[i] = x] through a pointer to the first element: outside the array
    the write is undefined. *)
Fixpoint array_set {A} (a : list A) (i : nat) (x : A) : option (list A) :=
  match a, i with
  | [], _ => None
  | _ :: t, O => Some (x :: t)
  | h :: t, S i' => option_map (cons h) (array_set t i' x)
  end.

Definition store {S A} (a : list A) (i : Z) (x : A) : M S (list A) :=
  deref (array_set a (Z.to_nat i) x) "write outside an array".

Definition load {S A} (a : list A) (i : Z) : M S A :=
  deref (nth_error a (Z.to_nat i)) "read outside an array".

(** [n] bytes of [src] put at byte offset [off] of a byte vector. *)
Definition blit (data : list byte) (off n : Z) (src : nat -> byte) : list byte :=
  firstn (Z.to_nat off) data ++ map src (seq 0 (Z.to_nat n))
    ++ skipn (Z.to_nat (off + n)) data.

Definition in_bounds (data : list byte) (off n : Z) : bool :=
  (0 <=? off) && (off + n <=? Z.of_nat (List.length data)).

(* ================================================================= *)
(** ** Field updates *)

Definition set_mRayGenVars x v :=
  mkRtProgramVars (mpProgram v) (mpScene v) x (mHitVars v) (mMissVars v)
    (mHitProgCount v) (mMissProgCount v) (mFirstHitVarEntry v)
    (mProgramIdentifierSize v) (mRecordSize v) (mpSBT v) (mSbtData v) (mpRtVarsHelper v).
Definition set_mHitVars x v :=
  mkRtProgramVars (mpProgram v) (mpScene v) (mRayGenVars v) x (mMissVars v)
    (mHitProgCount v) (mMissProgCount v) (mFirstHitVarEntry v)
    (mProgramIdentifierSize v) (mRecordSize v) (mpSBT v) (mSbtData v) (mpRtVarsHelper v).
Definition set_mMissVars x v :=
  mkRtProgramVars (mpProgram v) (mpScene v) (mRayGenVars v) (mHitVars v) x
    (mHitProgCount v) (mMissProgCount v) (mFirstHitVarEntry v)
    (mProgramIdentifierSize v) (mRecordSize v) (mpSBT v) (mSbtData v) (mpRtVarsHelper v).
Definition set_mHitProgCount x v :=
  mkRtProgramVars (mpProgram v) (mpScene v) (mRayGenVars v) (mHitVars v) (mMissVars v)
    x (mMissProgCount v) (mFirstHitVarEntry v)
    (mProgramIdentifierSize v) (mRecordSize v) (mpSBT v) (mSbtData v) (mpRtVarsHelper v).
Definition set_mMissProgCount x v :=
  mkRtProgramVars (mpProgram v) (mpScene v) (mRayGenVars v) (mHitVars v) (mMissVars v)
    (mHitProgCount v) x (mFirstHitVarEntry v)
    (mProgramIdentifierSize v) (mRecordSize v) (mpSBT v) (mSbtData v) (mpRtVarsHelper v).
Definition set_mFirstHitVarEntry x v :=
  mkRtProgramVars (mpProgram v) (mpScene v) (mRayGenVars v) (mHitVars v) (mMissVars v)
    (mHitProgCount v) (mMissProgCount v) x
    (mProgramIdentifierSize v) (mRecordSize v) (mpSBT v) (mSbtData v) (mpRtVarsHelper v).
Definition set_mProgramIdentifierSize x v :=
  mkRtProgramVars (mpProgram v) (mpScene v) (mRayGenVars v) (mHitVars v) (mMissVars v)
    (mHitProgCount v) (mMissProgCount v) (mFirstHitVarEntry v)
    x (mRecordSize v) (mpSBT v) (mSbtData v) (mpRtVarsHelper v).
Definition set_mRecordSize x v :=
  mkRtProgramVars (mpProgram v) (mpScene v) (mRayGenVars v) (mHitVars v) (mMissVars v)
    (mHitProgCount v) (mMissProgCount v) (mFirstHitVarEntry v)
    (mProgramIdentifierSize v) x (mpSBT v) (mSbtData v) (mpRtVarsHelper v).
Definition set_mpSBT x v :=
  mkRtProgramVars (mpProgram v) (mpScene v) (mRayGenVars v) (mHitVars v) (mMissVars v)
    (mHitProgCount v) (mMissProgCount v) (mFirstHitVarEntry v)
    (mProgramIdentifierSize v) (mRecordSize v) x (mSbtData v) (mpRtVarsHelper v).
Definition set_mSbtData x v :=
  mkRtProgramVars (mpProgram v) (mpScene v) (mRayGenVars v) (mHitVars v) (mMissVars v)
    (mHitProgCount v) (mMissProgCount v) (mFirstHitVarEntry v)
    (mProgramIdentifierSize v) (mRecordSize v) (mpSBT v) x (mpRtVarsHelper v).

Definition set_wLog x w :=
  mkWorld x (wScene w) (wNextVars w) (wBindings w) (wNextBuffer w) (wGpu w)
    (wRootParams w) (wRootParamsSize w) (wCalls w).
Definition set_wNextVars x w :=
  mkWorld (wLog w) (wScene w) x (wBindings w) (wNextBuffer w) (wGpu w)
    (wRootParams w) (wRootParamsSize w) (wCalls w).
Definition set_wNextBuffer x w :=
  mkWorld (wLog w) (wScene w) (wNextVars w) (wBindings w) x (wGpu w)
    (wRootParams w) (wRootParamsSize w) (wCalls w).
Definition set_wGpu x w :=
  mkWorld (wLog w) (wScene w) (wNextVars w) (wBindings w) (wNextBuffer w) x
    (wRootParams w) (wRootParamsSize w) (wCalls w).
Definition set_wRootParams base size w :=
  mkWorld (wLog w) (wScene w) (wNextVars w) (wBindings w) (wNextBuffer w) (wGpu w)
    base size (wCalls w).
Definition set_wCalls x w :=
  mkWorld (wLog w) (wScene w) (wNextVars w) (wBindings w) (wNextBuffer w) (wGpu w)
    (wRootParams w) (wRootParamsSize w) x.

(** Read and write a member of [this]. *)
Definition member {A} (f : RtProgramVars -> A) : M State A :=
  gets (fun st => f (this st)).
Definition assign (f : RtProgramVars -> RtProgramVars) : M State unit :=
  modify (fun st => mkState (f (this st)) (world st)).

(* ================================================================= *)
(** ** Calls into the collaborators *)

Definition logError (msg : string) : M World unit :=
  modify (fun w => set_wLog (wLog w ++ [msg]) w).

(** [GraphicsVars::create(reflector, true, rootSignature)]: a new object. *)
Definition GraphicsVars_create (pVersion : RtProgramVersion) : M World GraphicsVars :=
  fun w => Ok (mkGraphicsVars (wNextVars w) (getRootSignature pVersion),
               set_wNextVars (S (wNextVars w)) w).

(** [Buffer::create(size, ShaderResource, CpuAccess::None)]: a new GPU
    buffer of [size] bytes; the allocation is taken to succeed, and what
    the buffer holds before the first upload is whatever the world has
    there. *)
Definition Buffer_create (size : Z) : M World (option Buffer) :=
  fun w => Ok (Some (mkBuffer (wNextBuffer w) size),
               set_wNextBuffer (S (wNextBuffer w)) w).

(** [mpScene->getGeometryCount(hitProgCount)] *)
Definition scene_getGeometryCount (hitProgCount : Z) : M State Z :=
  fun st => match mpScene (this st) with
            | None => Undefined "null scene"
            | Some a => Ok (U32.wrap (geometryCount (wScene (world st) a) hitProgCount), st)
            end.

(** [pContext->getRtVarsCmdList()->setRootParams(rootSignature, pBase)] *)
Definition setRootParams (rs : RootSignature) (pBase : Z) : M World unit :=
  modify (set_wRootParams pBase (getSizeInBytes rs)).

(** Bytes written through a pointer into [mSbtData]; a pointer is the byte
    offset from [mSbtData.data()]. *)
Definition write_sbt (off n : Z) (src : nat -> byte) : M State unit :=
  fun st => if in_bounds (mSbtData (this st)) off n
            then Ok (tt, mkState (set_mSbtData (blit (mSbtData (this st)) off n src) (this st))
                                 (world st))
            else Undefined "write outside mSbtData".

Definition memcpy (dst : Z) (src : nat -> byte) (n : Z) : M State unit :=
  write_sbt dst n src.

(** [pVars->applyProgramVarsCommon<true>(pContext, true)]: the bindings are
    serialized into the parameter block set with [setRootParams], or the
    call reports that they do not resolve. *)
Definition applyProgramVarsCommon (pVars : GraphicsVars) : M State bool :=
  s <- gets (fun st => wBindings (world st) (gvId pVars)) ;;
  if resolved s then
    base <- gets (fun st => wRootParams (world st)) ;;
    size <- gets (fun st => wRootParamsSize (world st)) ;;
    write_sbt base size (paramBlock s) ;;;
    ret true
  else ret false.

(** [pCtx->updateBuffer(pBuffer, pData)]: the whole buffer is overwritten
    with the first [getSize] bytes at [pData]. *)
Definition updateBuffer (pBuffer : option Buffer) : M State unit :=
  b <- deref pBuffer "null buffer" ;;
  data <- member mSbtData ;;
  if Z.of_nat (List.length data) <? getSize b
  then undefined "read outside mSbtData"
  else
    modify (fun st =>
      mkState (this st)
        (set_wCalls (wCalls (world st) ++ [CallUpdateBuffer (bufId b)])
          (set_wGpu (fun id => if Nat.eqb id (bufId b)
                               then firstn (Z.to_nat (getSize b)) data
                               else wGpu (world st) id)
                    (world st)))).

Definition record_call (c : Call) : M State unit :=
  modify (fun st => mkState (this st) (set_wCalls (wCalls (world st) ++ [c]) (world st))).

(* ================================================================= *)
(** ** The translation unit *)

Definition checkParams (pProgram : RtProgramPtr) (pScene : ScenePtr) : M World bool :=
  match pScene with
  | None =>
      logError "RtProgramVars must have a scene attached to it" ;;;
      ret false
  | Some _ =>
      (* pProgram is not tested before it is used *)
      prog <- deref pProgram "null program set" ;;
      match getRayGenProgram prog with
      | None =>
          logError "RtProgramVars must have a ray-gen program attached to it" ;;;
          ret false
      | Some _ => ret true
      end
  end.

(** The constructor stores the two pointers, null or not, and creates the
    helper context, [mpRtVarsHelper = RtVarsContext::create(
    gpDevice->getRenderContext())]; every other member starts empty.
    [gpDevice] is the device [Platform] describes, the one [init] asks for
    the identifier size: the object is made on a device that exists. *)
Definition RtProgramVars_new (pProgram : RtProgramPtr) (pScene : ScenePtr) : RtProgramVars :=
  mkRtProgramVars pProgram pScene None [] [] 0 0 0 0 0 None []
    (Some RtVarsContext_create).

(** [pVars] is the array the caller passes by pointer; the array after the
    call is returned with the new maximum. *)
Definition getSigSizeAndCreateVars (pProg : option Prog) (maxRootSigSize : Z)
    (pVars : list (option GraphicsVars)) (varCount : Z)
  : M World (Z * list (option GraphicsVars)) :=
  prog <- deref pProg "null program" ;;
  let pVersion := getActiveVersion prog in
  let maxRootSigSize :=
    U32.max (getSizeInBytes (getRootSignature pVersion)) maxRootSigSize in
  pVars <- for_loop (Z.to_nat varCount) 0
             (fun i pVars =>
                v <- GraphicsVars_create pVersion ;;
                store pVars i (Some v))
             pVars ;;
  ret (maxRootSigSize, pVars).

(** The body of the loop over the hit programs in [init]. *)
Definition init_hit_iteration (pProgram : RtProgram) (recordCountPerHit : Z)
    (i : Z) (maxRootSigSize : Z) : M State Z :=
  hitVars <- member mHitVars ;;
  row <- load hitVars i ;;
  let row := resize row recordCountPerHit None in
  r <- liftW (getSigSizeAndCreateVars (getHitProgram pProgram i) maxRootSigSize
                row recordCountPerHit) ;;
  hitVars <- store hitVars i (snd r) ;;
  assign (set_mHitVars hitVars) ;;;
  ret (fst r).

(** The body of the loop over the miss programs in [init]. *)
Definition init_miss_iteration (pProgram : RtProgram) (i : Z) (maxRootSigSize : Z)
  : M State Z :=
  missVars <- member mMissVars ;;
  cell <- load missVars i ;;
  r <- liftW (getSigSizeAndCreateVars (getMissProgram pProgram i) maxRootSigSize
                [cell] 1) ;;
  cell <- load (snd r) 0 ;;
  missVars <- store missVars i cell ;;
  assign (set_mMissVars missVars) ;;;
  ret (fst r).

Definition init (plat : Platform) : M State bool :=
  (* Find the max root-signature size and create the programVars *)
  let maxRootSigSize := 0 in
  pProgramPtr <- member mpProgram ;;
  pProgram <- deref pProgramPtr "null program set" ;;
  rayGenVars <- member mRayGenVars ;;
  r <- liftW (getSigSizeAndCreateVars (getRayGenProgram pProgram) maxRootSigSize
                [rayGenVars] 1) ;;
  let maxRootSigSize := fst r in
  cell <- load (snd r) 0 ;;
  assign (set_mRayGenVars cell) ;;;

  assign (set_mHitProgCount (getHitProgramCount pProgram)) ;;;
  assign (set_mMissProgCount (getMissProgramCount pProgram)) ;;;
  assign (fun v => set_mFirstHitVarEntry
                     (U32.add kFirstMissSbtRecordIndex (mMissProgCount v)) v) ;;;
  assign (fun v => set_mMissVars (resize (mMissVars v) (mMissProgCount v) None) v) ;;;
  assign (fun v => set_mHitVars (resize (mHitVars v) (mHitProgCount v) []) v) ;;;
  hitProgCount <- member mHitProgCount ;;
  missProgCount <- member mMissProgCount ;;
  recordCountPerHit <- scene_getGeometryCount hitProgCount ;;

  maxRootSigSize <-
    for_loop (Z.to_nat hitProgCount) 0
      (init_hit_iteration pProgram recordCountPerHit) maxRootSigSize ;;

  maxRootSigSize <-
    for_loop (Z.to_nat missProgCount) 0
      (init_miss_iteration pProgram) maxRootSigSize ;;

  (* Get the program identifier size *)
  assign (set_mProgramIdentifierSize (GetShaderIdentifierSize plat)) ;;;

  (* Create the SBT buffer *)
  let hitEntries := U32.mul recordCountPerHit hitProgCount in
  let numEntries := U32.add (U32.add missProgCount hitEntries) 1 in

  (* Calculate the record size *)
  assign (fun v => set_mRecordSize (U32.add (mProgramIdentifierSize v) maxRootSigSize) v) ;;;
  assign (fun v => set_mRecordSize
                     (align_to (shaderRecordByteAlignment plat) (mRecordSize v)) v) ;;;
  recordSize <- member mRecordSize ;;
  assert (negb (recordSize =? 0)) "mRecordSize != 0" ;;;

  (* Create the buffer and allocate the temporary storage *)
  pSBT <- liftW (Buffer_create (U32.mul numEntries recordSize)) ;;
  assign (set_mpSBT pSBT) ;;;
  assert (match pSBT with Some _ => true | None => false end) "mpSBT" ;;;
  sbt <- deref pSBT "null buffer" ;;
  assign (fun v => set_mSbtData (resize (mSbtData v) (getSize sbt) x00) v) ;;;

  ret true.

Definition create (plat : Platform) (pProgram : RtProgramPtr) (pScene : ScenePtr)
  : M World (option RtProgramVars) :=
  let pVars := RtProgramVars_new pProgram pScene in
  ok <- checkParams pProgram pScene ;;
  if negb ok then ret None
  else
    fun w => match init plat (mkState pVars w) with
             | Ok (ok, st) =>
                 if negb ok then Ok (None, world st)
                 else Ok (Some (this st), world st)
             | AssertFailed c => AssertFailed c
             | Undefined u => Undefined u
             end.

(** *** Record accessors.  A [uint8_t*] into [mSbtData] is its byte offset. *)

Definition getRayGenRecordPtr : M State Z :=
  recordSize <- member mRecordSize ;;
  ret (U32.mul kRayGenSbtRecordIndex recordSize).

Definition getMissRecordPtr (missId : Z) : M State Z :=
  missProgCount <- member mMissProgCount ;;
  assert (missId <? missProgCount) "missId < mMissProgCount" ;;;
  recordSize <- member mRecordSize ;;
  let offset := U32.mul recordSize (U32.add kFirstMissSbtRecordIndex missId) in
  ret offset.

Definition getHitRecordPtr (hitId meshId : Z) : M State Z :=
  hitProgCount <- member mHitProgCount ;;
  assert (hitId <? hitProgCount) "hitId < mHitProgCount" ;;;
  firstHitVarEntry <- member mFirstHitVarEntry ;;
  (* base record of the requested mesh *)
  let meshIndex := U32.add firstHitVarEntry (U32.mul hitProgCount meshId) in
  let recordIndex := U32.add meshIndex hitId in
  recordSize <- member mRecordSize ;;
  ret (U32.mul recordIndex recordSize).

(** [getHitVars(h)[i].get()] and [getMissVars(m).get()]: an index past the
    end of a vector, or a null shared pointer, gives a pointer that must
    not be used. *)
Definition getHitVarsAt (v : RtProgramVars) (h i : Z) : option GraphicsVars :=
  match nth_error (mHitVars v) (Z.to_nat h) with
  | Some row => match nth_error row (Z.to_nat i) with
                | Some p => p
                | None => None
                end
  | None => None
  end.

Definition getMissVarsAt (v : RtProgramVars) (m : Z) : option GraphicsVars :=
  match nth_error (mMissVars v) (Z.to_nat m) with
  | Some p => p
  | None => None
  end.

Definition applyRtProgramVars (pRecord : Z) (pProgVersion : RtProgramVersion)
    (pRtso : RtStateObject) (progIdSize : Z) (pVars : option GraphicsVars)
    (pContext : option RtVarsContext)
  : M State bool :=
  memcpy pRecord (GetShaderIdentifier pRtso (getExportName pProgVersion)) progIdSize ;;;
  let pRecord' := pRecord + progIdSize in
  deref pContext "null RtVarsContext" ;;;
  liftW (setRootParams (getRootSignature pProgVersion) pRecord') ;;;
  vars <- deref pVars "null or wild binding variables" ;;
  ok <- applyProgramVarsCommon vars ;;
  record_call (CallApplyRecord pRecord (getExportName pProgVersion) (gvId vars) ok) ;;;
  ret ok.

(** The body of the inner loop of [apply]: one hit record. *)
Definition apply_hit_record (pRtso : RtStateObject) (pProgram : RtProgram)
    (progIdSize : Z) (h i : Z) : M State (option bool) :=
  pHitRecord <- getHitRecordPtr h i ;;
  hitProg <- deref (getHitProgram pProgram h) "null hit program" ;;
  hitVars <- member (fun v => getHitVarsAt v h i) ;;
  pContext <- member mpRtVarsHelper ;;
  ok <- applyRtProgramVars pHitRecord (getActiveVersion hitProg) pRtso progIdSize hitVars
          pContext ;;
  if negb ok then ret (Some false) else ret None.

(** The body of the loop over the miss programs of [apply]. *)
Definition apply_miss_record (pRtso : RtStateObject) (pProgram : RtProgram)
    (progIdSize : Z) (m : Z) : M State (option bool) :=
  pMissRecord <- getMissRecordPtr m ;;
  missProg <- deref (getMissProgram pProgram m) "null miss program" ;;
  missVars <- member (fun v => getMissVarsAt v m) ;;
  pContext <- member mpRtVarsHelper ;;
  ok <- applyRtProgramVars pMissRecord (getActiveVersion missProg) pRtso progIdSize missVars
          pContext ;;
  if negb ok then ret (Some false) else ret None.

(** The bound of the inner loop is asked of the scene again on each turn;
    nothing in the loop changes the scene, so every turn gets the answer of
    the first one. *)
Definition apply_hit_program (pRtso : RtStateObject) (pProgram : RtProgram)
    (progIdSize hitCount : Z) (h : Z) : M State (option bool) :=
  geometryCount <- scene_getGeometryCount hitCount ;;
  for_return (Z.to_nat geometryCount) 0 (apply_hit_record pRtso pProgram progIdSize h).

Definition apply (pRtso : RtStateObject) : M State bool :=
  (* We always have a ray-gen program, apply it first *)
  pRayGenRecord <- getRayGenRecordPtr ;;
  pProgramPtr <- member mpProgram ;;
  pProgram <- deref pProgramPtr "null program set" ;;
  progIdSize <- member mProgramIdentifierSize ;;
  rayGen <- deref (getRayGenProgram pProgram) "null ray-gen program" ;;
  rayGenVars <- member mRayGenVars ;;
  pContext <- member mpRtVarsHelper ;;
  _ <- applyRtProgramVars pRayGenRecord (getActiveVersion rayGen) pRtso progIdSize
         rayGenVars pContext ;;

  (* Loop over the rays *)
  let hitCount := getHitProgramCount pProgram in
  r <- for_return (Z.to_nat hitCount) 0
         (apply_hit_program pRtso pProgram progIdSize hitCount) ;;
  match r with
  | Some b => ret b
  | None =>
      r <- for_return (Z.to_nat (getMissProgramCount pProgram)) 0
             (apply_miss_record pRtso pProgram progIdSize) ;;
      match r with
      | Some b => ret b
      | None =>
          pSBT <- member mpSBT ;;
          updateBuffer pSBT ;;;
          ret true
      end
  end.

(* ================================================================= *)
(** ** A small configuration: the concrete scenario of the spec *)

Module Scenario.
Definition plat : Platform := mkPlatform 64 32.
Definition rs (n : Z) : RootSignature := mkRootSignature n.
Definition prog (n : Z) (name : string) : Prog := mkProg (mkVersion (rs n) name).
Definition program : RtProgram :=
    mkRtProgram (Some (prog 16 "rayGen")) [prog 64 "hit0"] [prog 8 "miss0"].
Definition scene (g : Z) : RtScene := mkScene (fun _ => g).
Definition zeros : nat -> byte := fun _ => x00.
Definition world0 (g : Z) (bindings : nat -> VarsState) : World :=
    mkWorld [] (fun _ => scene g) 0 bindings 0 (fun _ => []) 0 0 [].
Definition all_resolved : nat -> VarsState := fun _ => mkVarsState true zeros.
Definition rtso : RtStateObject := mkRtso (fun _ _ => x01).
End Scenario.

(* ================================================================= *)
(** ** The layout of the spec, over the integers *)

Module Spec.
Definition firstMissIndex : Z := 1.
Definition firstHitIndex (missProgramCount : Z) : Z := firstMissIndex + missProgramCount.
Definition totalRecords (missProgramCount hitProgramCount G : Z) : Z :=
    1 + missProgramCount + hitProgramCount * G.
Definition recordSize (identifierSize maxParamBlockSize hardwareAlignment : Z) : Z :=
    alignUp (identifierSize + maxParamBlockSize) hardwareAlignment.
Definition rayGenOffset : Z := 0.
Definition missOffset (recordSize missId : Z) : Z :=
    (firstMissIndex + missId) * recordSize.
Definition hitOffset (recordSize missProgramCount hitProgramCount hitId geomId : Z) : Z :=
    (firstHitIndex missProgramCount + hitProgramCount * geomId + hitId) * recordSize.
End Spec.

(* ================================================================= *)
(** ** What [init] computes, in closed form *)

Definition sigSize (pr : Prog) : Z :=
  getSizeInBytes (getRootSignature (getActiveVersion pr)).

(** The running maximum of [getSigSizeAndCreateVars] over a sequence of
    programs, in call order. *)
Definition running_max (m : Z) (progs : list Prog) : Z :=
  fold_left (fun m pr => U32.max (sigSize pr) m) progs m.

(** The programs [init] visits: the hit programs and the miss programs
    below the 32-bit counts. *)
Definition visitedHit (p : RtProgram) : list Prog :=
  firstn (Z.to_nat (getHitProgramCount p)) (hitPrograms p).
Definition visitedMiss (p : RtProgram) : list Prog :=
  firstn (Z.to_nat (getMissProgramCount p)) (missPrograms p).

Definition maxRootSigSizeOf (rayGen : Prog) (p : RtProgram) : Z :=
  running_max 0 (rayGen :: visitedHit p ++ visitedMiss p).

(** The local variables [hitEntries] and [numEntries] of [init]. *)
Definition hitEntriesOf (recordCountPerHit hitProgCount : Z) : Z :=
  U32.mul recordCountPerHit hitProgCount.
Definition numEntriesOf (missProgCount hitProgCount recordCountPerHit : Z) : Z :=
  U32.add (U32.add missProgCount (hitEntriesOf recordCountPerHit hitProgCount)) 1.

Definition recordSizeOf (plat : Platform) (rayGen : Prog) (p : RtProgram) : Z :=
  align_to (shaderRecordByteAlignment plat)
    (U32.add (GetShaderIdentifierSize plat) (maxRootSigSizeOf rayGen p)).

(** The geometry count the scene at address [a] reports in world [w]. *)
Definition geometryCountIn (w : World) (a : nat) (hitProgCount : Z) : Z :=
  U32.wrap (geometryCount (wScene w a) hitProgCount).

(** The binding variables of one program, created one after the other. *)
Fixpoint make_vars (n : nat) (id : nat) (rs : RootSignature) : list (option GraphicsVars) :=
  match n with
  | O => []
  | S n' => Some (mkGraphicsVars id rs) :: make_vars n' (S id) rs
  end.

Fixpoint make_hit_rows (progs : list Prog) (g : nat) (id : nat)
  : list (list (option GraphicsVars)) :=
  match progs with
  | [] => []
  | pr :: rest =>
      make_vars g id (getRootSignature (getActiveVersion pr))
        :: make_hit_rows rest g (id + g)
  end.

Fixpoint make_miss_vars (progs : list Prog) (id : nat) : list (option GraphicsVars) :=
  match progs with
  | [] => []
  | pr :: rest =>
      Some (mkGraphicsVars id (getRootSignature (getActiveVersion pr)))
        :: make_miss_vars rest (S id)
  end.

(** The object and the world [init] leaves behind when it returns. *)
Definition built (plat : Platform) (p : RtProgram) (a : nat) (rayGen : Prog) (w : World)
  : State :=
  let H := getHitProgramCount p in
  let Mi := getMissProgramCount p in
  let G := geometryCountIn w a H in
  let id := wNextVars w in
  let nHit := (List.length (visitedHit p) * Z.to_nat G)%nat in
  let recordSize := recordSizeOf plat rayGen p in
  let size := U32.mul (numEntriesOf Mi H G) recordSize in
  mkState
    (mkRtProgramVars (Some p) (Some a)
       (Some (mkGraphicsVars id (getRootSignature (getActiveVersion rayGen))))
       (make_hit_rows (visitedHit p) (Z.to_nat G) (S id))
       (make_miss_vars (visitedMiss p) (S id + nHit))
       H Mi (U32.add kFirstMissSbtRecordIndex Mi)
       (GetShaderIdentifierSize plat) recordSize
       (Some (mkBuffer (wNextBuffer w) size))
       (repeat x00 (Z.to_nat size))
       (Some RtVarsContext_create))
    (set_wNextBuffer (S (wNextBuffer w))
       (set_wNextVars (S id + nHit + List.length (visitedMiss p)) w)).

(* ================================================================= *)
(** ** The object under construction *)

(** The object [create] returns starts from the constructor's. *)
Definition constructed (p : RtProgram) (a : nat) (w : World) : State :=
  mkState (RtProgramVars_new (Some p) (Some a)) w.

Definition msg_no_scene : string := "RtProgramVars must have a scene attached to it".
Definition msg_no_raygen : string := "RtProgramVars must have a ray-gen program attached to it".

(* ================================================================= *)
(** ** Sizes that fit 32 bits *)

(** The table of an object fits 32-bit offsets: the byte size of all its
    records is below 2^32. *)
Definition table_fits (missProgramCount hitProgramCount G recordSize : Z) : Prop :=
  Spec.totalRecords missProgramCount hitProgramCount G * recordSize < U32.modulus.

(** The program set has fewer than 2^32 hit programs and miss programs, so
    the 32-bit counts are the lengths. *)
Definition programs_fit (p : RtProgram) : Prop :=
  Z.of_nat (List.length (hitPrograms p)) < U32.modulus /\
  Z.of_nat (List.length (missPrograms p)) < U32.modulus.

(** Everything [init] sizes fits 32 bits: the record size is computed
    without wrap-around, and so is the byte size of the table for [G]
    geometry instances. *)
Definition layout_fits (plat : Platform) (rayGen : Prog) (p : RtProgram) (G : Z) : Prop :=
  alignment_ok plat /\
  GetShaderIdentifierSize plat + maxRootSigSizeOf rayGen p
    + shaderRecordByteAlignment plat - 1 < U32.modulus /\
  table_fits (getMissProgramCount p) (getHitProgramCount p) G (recordSizeOf plat rayGen p).

(* ================================================================= *)
(** ** The claims of the spec that the code does not meet as worded *)

(** Section 4.2 of the spec: the largest parameter-block size of any
    program of the set, ray-gen, hit or miss. *)
Definition maxParamBlockSize (rayGen : Prog) (p : RtProgram) : Z :=
  fold_right Z.max 0 (map sigSize (rayGen :: hitPrograms p ++ missPrograms p)).

(** C1 as the spec words it, for one configuration. *)
Definition accessors_at_spec_offsets (plat : Platform) (p : RtProgram) (a : nat)
    (w : World) : Prop :=
  forall st, init plat (constructed p a w) = Ok (true, st) ->
    let Mi := getMissProgramCount p in
    let H := getHitProgramCount p in
    let G := geometryCountIn w a H in
    let rs := mRecordSize (this st) in
    getRayGenRecordPtr st = Ok (Spec.rayGenOffset, st) /\
    (forall missId, 0 <= missId < Mi ->
       getMissRecordPtr missId st = Ok (Spec.missOffset rs missId, st)) /\
    (forall hitId geomId, 0 <= hitId < H -> 0 <= geomId < G ->
       getHitRecordPtr hitId geomId st = Ok (Spec.hitOffset rs Mi H hitId geomId, st)).

(** C2 as the spec words it, for one configuration. *)
Definition record_size_as_specified (plat : Platform) (p : RtProgram) (a : nat)
    (w : World) : Prop :=
  forall rayGen st, getRayGenProgram p = Some rayGen ->
    init plat (constructed p a w) = Ok (true, st) ->
    mRecordSize (this st)
    = Spec.recordSize (GetShaderIdentifierSize plat) (maxParamBlockSize rayGen p)
        (shaderRecordByteAlignment plat).

(** C3 as the spec words it, for one configuration. *)
Definition table_size_as_specified (plat : Platform) (p : RtProgram) (a : nat)
    (w : World) : Prop :=
  forall st, init plat (constructed p a w) = Ok (true, st) ->
    let Mi := getMissProgramCount p in
    let H := getHitProgramCount p in
    let G := geometryCountIn w a H in
    let rs := mRecordSize (this st) in
    numEntriesOf Mi H G = Spec.totalRecords Mi H G /\
    (exists sbt, mpSBT (this st) = Some sbt /\
                 getSize sbt = Spec.totalRecords Mi H G * rs) /\
    Z.of_nat (List.length (mSbtData (this st))) = Spec.totalRecords Mi H G * rs.

(** C8 as the spec words it: a record size of zero makes [create] return
    null, as a missing scene does. *)
Definition zero_record_size_returns_null (plat : Platform) (p : RtProgram) (a : nat)
    (w : World) : Prop :=
  forall rayGen, getRayGenProgram p = Some rayGen ->
    recordSizeOf plat rayGen p = 0 ->
    exists w', create plat (Some p) (Some a) w = Ok (None, w').

(* ================================================================= *)
(** ** The calls of [apply], as the spec orders them *)

Definition exportNameOf (o : option Prog) : string :=
  match o with
  | Some pr => getExportName (getActiveVersion pr)
  | None => ""
  end.

Definition varsId (o : option GraphicsVars) : nat :=
  match o with Some gv => gvId gv | None => O end.

(** Whether the bindings of a binding-variable instance resolve in [w]. *)
Definition varsResolved (w : World) (o : option GraphicsVars) : bool :=
  match o with Some gv => resolved (wBindings w (gvId gv)) | None => false end.

(** A program of the set the object points to. *)
Definition programOf (v : RtProgramVars) (f : RtProgram -> option Prog) : option Prog :=
  match mpProgram v with Some p => f p | None => None end.

Definition rayGenCall (v : RtProgramVars) (w : World) : Call :=
  CallApplyRecord Spec.rayGenOffset
    (exportNameOf (programOf v getRayGenProgram))
    (varsId (mRayGenVars v)) (varsResolved w (mRayGenVars v)).

Definition hitCall (v : RtProgramVars) (w : World) (h i : Z) : Call :=
  CallApplyRecord
    (Spec.hitOffset (mRecordSize v) (mMissProgCount v) (mHitProgCount v) h i)
    (exportNameOf (programOf v (fun p => getHitProgram p h)))
    (varsId (getHitVarsAt v h i)) (varsResolved w (getHitVarsAt v h i)).

Definition missCall (v : RtProgramVars) (w : World) (m : Z) : Call :=
  CallApplyRecord (Spec.missOffset (mRecordSize v) m)
    (exportNameOf (programOf v (fun p => getMissProgram p m)))
    (varsId (getMissVarsAt v m)) (varsResolved w (getMissVarsAt v m)).

(** The indices [i, i+1, ..., i+n-1]. *)
Fixpoint zseq (i : Z) (n : nat) : list Z :=
  match n with
  | O => []
  | S n' => i :: zseq (i + 1) n'
  end.

Definition zrange (n : Z) : list Z := zseq 0 (Z.to_nat n).

(** Hit records: hit-group index outer, geometry index inner ([g] is the
    geometry count the scene reports when [apply] runs). *)
Definition hitCalls (v : RtProgramVars) (w : World) (g : Z) : list Call :=
  flat_map (fun h => map (hitCall v w h) (zrange g)) (zrange (mHitProgCount v)).

Definition missCalls (v : RtProgramVars) (w : World) : list Call :=
  map (missCall v w) (zrange (mMissProgCount v)).

Definition call_ok (c : Call) : bool :=
  match c with
  | CallApplyRecord _ _ _ ok => ok
  | CallUpdateBuffer _ => true
  end.

(** A sequence of record applications cut after its first failure. *)
Fixpoint until_failure (l : list Call) : list Call :=
  match l with
  | [] => []
  | c :: rest => if call_ok c then c :: until_failure rest else [c]
  end.

Definition bufferId (o : option Buffer) : nat :=
  match o with Some b => bufId b | None => O end.

(** The calls of one [apply], and its result: the ray-gen record, then the
    hit and miss records up to the first that fails, then the upload if
    none failed. *)
Definition expected_result (v : RtProgramVars) (w : World) (g : Z) : bool :=
  forallb call_ok (hitCalls v w g ++ missCalls v w).

Definition expected_calls (v : RtProgramVars) (w : World) (g : Z) : list Call :=
  rayGenCall v w
    :: until_failure (hitCalls v w g ++ missCalls v w)
    ++ (if expected_result v w g then [CallUpdateBuffer (bufferId (mpSBT v))] else []).

(* ================================================================= *)
(** ** States and loops in the middle of [apply] *)

(** A state in the middle of [apply]: of the object only the staging bytes
    have changed, of the world only the root-parameter base and the call
    history. *)
Definition mid (v : RtProgramVars) (w : World) (data : list byte) (base size : Z)
    (calls : list Call) : State :=
  mkState (set_mSbtData data v) (set_wCalls calls (set_wRootParams base size w)).

(** What a loop with early return does, turn by turn: [okf i] tells
    whether turn [i] falls through, [callf i] the calls it makes. *)
Fixpoint scan (n : nat) (i : Z) (okf : Z -> bool) (callf : Z -> list Call)
  : bool * list Call :=
  match n with
  | O => (true, [])
  | S n' =>
      if okf i
      then let r := scan n' (i + 1) okf callf in (fst r, callf i ++ snd r)
      else (false, callf i)
  end.

Definition flag (ok : bool) : option bool := if ok then None else Some false.

(* ================================================================= *)
(** ** Concrete configurations *)

(** A table of more than 4 GiB: one hit program, 2^24 geometry instances,
    records of 288 bytes. *)
Module Large.
Definition plat : Platform := mkPlatform 32 32.
Definition program : RtProgram :=
  mkRtProgram (Some (Scenario.prog 256 "rayGen")) [Scenario.prog 256 "hit0"] [].
Definition G : Z := 16777216.
Definition world : World := Scenario.world0 G Scenario.all_resolved.
End Large.

(** A root signature so large that identifier and parameter block do not
    fit 32 bits together. *)
Module Wide.
Definition plat : Platform := mkPlatform 32 32.
Definition rayGen : Prog := Scenario.prog 4294967280 "rayGen".
Definition program : RtProgram := mkRtProgram (Some rayGen) [] [].
Definition world : World := Scenario.world0 0 Scenario.all_resolved.
End Wide.

Module ZeroSize.
Definition plat : Platform := mkPlatform 32 0.
Definition program : RtProgram :=
  mkRtProgram (Some (Scenario.prog 0 "rayGen")) [] [Scenario.prog 0 "miss0"].
Definition world : World := Scenario.world0 1 Scenario.all_resolved.
End ZeroSize.

(** The scenario of the spec with the bindings of one record left
    unresolved: [unresolved_at k] fails for the binding variables created
    [k]-th (0 is the ray-gen's, 1 to 3 the hit records', 4 the miss
    record's). *)
Module Unresolved.
Definition unresolved_at (k : nat) : nat -> VarsState :=
  fun id => mkVarsState (negb (Nat.eqb id k)) Scenario.zeros.
Definition built3 : State :=
  built Scenario.plat Scenario.program 0 (Scenario.prog 16 "rayGen")
    (Scenario.world0 3 Scenario.all_resolved).
End Unresolved.

(* ================================================================= *)
(** ** Runs that leave the GPU alone *)

(** From [st] to [st'] no GPU buffer has changed and no upload was
    called. *)
Definition quiet (st st' : State) : Prop :=
  wGpu (world st') = wGpu (world st) /\
  exists calls, wCalls (world st') = wCalls (world st) ++ calls /\
                forall buf, ~ In (CallUpdateBuffer buf) calls.

(* ================================================================= *)
(** ** The records of the table *)

(** A record of the table: the ray-gen record, the record of hit program
    [h] for geometry instance [i], the record of miss program [m]. *)
Inductive Slot :=
| RayGenSlot
| HitSlot (h i : Z)
| MissSlot (m : Z).

(** The slots of a table of [H] hit programs, [Mi] miss programs and [G]
    geometry instances. *)
Definition slot_valid (H Mi G : Z) (s : Slot) : Prop :=
  match s with
  | RayGenSlot => True
  | HitSlot h i => 0 <= h < H /\ 0 <= i < G
  | MissSlot m => 0 <= m < Mi
  end.

(** The pointer the accessor of the slot returns. *)
Definition slotRecordPtr (s : Slot) : M State Z :=
  match s with
  | RayGenSlot => getRayGenRecordPtr
  | HitSlot h i => getHitRecordPtr h i
  | MissSlot m => getMissRecordPtr m
  end.

(** The binding variables the object holds for the slot. *)
Definition slotVars (v : RtProgramVars) (s : Slot) : option GraphicsVars :=
  match s with
  | RayGenSlot => mRayGenVars v
  | HitSlot h i => getHitVarsAt v h i
  | MissSlot m => getMissVarsAt v m
  end.

(** The program of the slot. *)
Definition slotProgram (p : RtProgram) (s : Slot) : option Prog :=
  match s with
  | RayGenSlot => getRayGenProgram p
  | HitSlot h _ => getHitProgram p h
  | MissSlot m => getMissProgram p m
  end.

(** The record index the accessor of the slot computes ([recordIndex] in
    the accessors), over the integers. *)
Definition slotIndex (H Mi : Z) (s : Slot) : Z :=
  match s with
  | RayGenSlot => kRayGenSbtRecordIndex
  | HitSlot h i => kFirstMissSbtRecordIndex + Mi + H * i + h
  | MissSlot m => kFirstMissSbtRecordIndex + m
  end.

(** The rank of the slot in the order [init] creates binding variables:
    the ray-gen program's first, then those of each hit program, one per
    geometry instance, then one per miss program. *)
Definition slotRank (H G : Z) (s : Slot) : Z :=
  match s with
  | RayGenSlot => 0
  | HitSlot h i => 1 + h * G + i
  | MissSlot m => 1 + H * G + m
  end.

(* ================================================================= *)
(** ** The bytes [apply] writes *)

(** The staging bytes after [applyRtProgramVars] on the record at [o]: the
    identifier of the program, and behind it the parameter block when the
    bindings resolve. *)
Definition record_image (pRtso : RtStateObject) (w : World) (d : list byte)
    (o progIdSize : Z) (pv : RtProgramVersion) (gv : GraphicsVars) : list byte :=
  let d1 := blit d o progIdSize (GetShaderIdentifier pRtso (getExportName pv)) in
  if resolved (wBindings w (gvId gv))
  then blit d1 (o + progIdSize) (getSizeInBytes (getRootSignature pv))
         (paramBlock (wBindings w (gvId gv)))
  else d1.

(** The record at [o] in [d] holds the identifier of the program and, if
    the bindings resolve, their parameter block behind it. *)
Definition record_ok (pRtso : RtStateObject) (w : World) (d : list byte)
    (o progIdSize : Z) (pv : RtProgramVersion) (gv : GraphicsVars) : Prop :=
  (forall k, 0 <= k < progIdSize ->
     nth_error d (Z.to_nat (o + k))
     = Some (GetShaderIdentifier pRtso (getExportName pv) (Z.to_nat k))) /\
  (resolved (wBindings w (gvId gv)) = true ->
   forall k, 0 <= k < getSizeInBytes (getRootSignature pv) ->
     nth_error d (Z.to_nat (o + progIdSize + k))
     = Some (paramBlock (wBindings w (gvId gv)) (Z.to_nat k))).

(** Byte [x] is one [applyRtProgramVars] writes for the record at [o]. *)
Definition written (w : World) (o progIdSize : Z) (pv : RtProgramVersion)
    (gv : GraphicsVars) (x : Z) : Prop :=
  o <= x < o + progIdSize \/
  (resolved (wBindings w (gvId gv)) = true /\
   o + progIdSize <= x < o + progIdSize + getSizeInBytes (getRootSignature pv)).

(** The staging bytes [d] when [apply], started on the bytes [d0], has
    done the first [k] records of its order: each of them holds its
    program's identifier and parameter block, and no other byte has
    changed.  [g] is the geometry count the scene reports. *)
Definition serialised_upto (pRtso : RtStateObject) (w : World) (p : RtProgram)
    (v : RtProgramVars) (H Mi g rs progIdSize : Z) (k : Z) (d0 d : list byte) : Prop :=
  List.length d = List.length d0 /\
  (forall s pr gv,
     slot_valid H Mi g s -> slotRank H g s < k ->
     slotProgram p s = Some pr -> slotVars v s = Some gv ->
     record_ok pRtso w d (slotIndex H Mi s * rs) progIdSize (getActiveVersion pr) gv) /\
  (forall x, 0 <= x ->
     (forall s pr gv,
        slot_valid H Mi g s -> slotRank H g s < k ->
        slotProgram p s = Some pr -> slotVars v s = Some gv ->
        ~ written w (slotIndex H Mi s * rs) progIdSize (getActiveVersion pr) gv x) ->
     nth_error d (Z.to_nat x) = nth_error d0 (Z.to_nat x)).

(* ================================================================= *)
(** ** What [apply] leaves alone *)

(** From [st] to [st'] the object differs in its staging bytes at most
    (every other member is the same), the world has the same log, scenes,
    binding variables and allocators, and no GPU buffer other than the
    object's table has changed. *)
Definition untouched (st st' : State) : Prop :=
  set_mSbtData [] (this st') = set_mSbtData [] (this st) /\
  wLog (world st') = wLog (world st) /\
  wScene (world st') = wScene (world st) /\
  wNextVars (world st') = wNextVars (world st) /\
  wBindings (world st') = wBindings (world st) /\
  wNextBuffer (world st') = wNextBuffer (world st) /\
  (forall id, id <> bufferId (mpSBT (this st)) ->
     wGpu (world st') id = wGpu (world st) id).

(* ================================================================= *)
(** ** The records [apply] handles, and what it writes for each *)

(** A list up to its first element that fails, that one included. *)
Fixpoint upto_failure {X} (ok : X -> bool) (l : list X) : list X :=
  match l with
  | [] => []
  | x :: rest => if ok x then x :: upto_failure ok rest else [x]
  end.

(** The hit slots, hit-group index outer and geometry index inner, and
    the miss slots, in the order of the loops of [apply]. *)
Definition hitSlots (H g : Z) : list Slot :=
  flat_map (fun h => map (HitSlot h) (zrange g)) (zrange H).
Definition missSlots (Mi : Z) : list Slot := map MissSlot (zrange Mi).

(** Whether the bindings of the slot resolve. *)
Definition slotOk (w : World) (v : RtProgramVars) (s : Slot) : bool :=
  varsResolved w (slotVars v s).

(** The call [apply] makes for the slot. *)
Definition slotCall (v : RtProgramVars) (w : World) (s : Slot) : Call :=
  match s with
  | RayGenSlot => rayGenCall v w
  | HitSlot h i => hitCall v w h i
  | MissSlot m => missCall v w m
  end.

(** The slots [apply] handles when the scene reports [g] geometry
    instances: the ray-gen slot, then the hit and miss slots up to the
    first whose bindings do not resolve. *)
Definition handledSlots (w : World) (v : RtProgramVars) (g : Z) : list Slot :=
  RayGenSlot
    :: upto_failure (slotOk w v) (hitSlots (mHitProgCount v) g ++ missSlots (mMissProgCount v)).

(** The staging bytes after [applyRtProgramVars] for the slot. *)
Definition slotWrite (pRtso : RtStateObject) (w : World) (p : RtProgram)
    (v : RtProgramVars) (d : list byte) (s : Slot) : list byte :=
  match slotProgram p s, slotVars v s with
  | Some pr, Some gv =>
      record_image pRtso w d
        (slotIndex (mHitProgCount v) (mMissProgCount v) s * mRecordSize v)
        (mProgramIdentifierSize v) (getActiveVersion pr) gv
  | _, _ => d
  end.

(* ================================================================= *)
(** ** Arithmetic of the 32-bit operations *)

Lemma modulus_val : U32.modulus = 4294967296.
Proof. reflexivity. Qed.

Lemma wrap_range x : 0 <= U32.wrap x < U32.modulus.
Proof. unfold U32.wrap. apply Z.mod_pos_bound. rewrite modulus_val. lia. Qed.

Lemma wrap_small x : 0 <= x < U32.modulus -> U32.wrap x = x.
Proof. intros. unfold U32.wrap. apply Z.mod_small. assumption. Qed.

Lemma of_size_range n : 0 <= U32.of_size n < U32.modulus.
Proof. apply wrap_range. Qed.

Lemma of_size_le n : (Z.to_nat (U32.of_size n) <= n)%nat.
Proof.
  unfold U32.of_size, U32.wrap.
  assert (0 <= Z.of_nat n mod U32.modulus <= Z.of_nat n).
  { split.
    - apply Z.mod_pos_bound. rewrite modulus_val. lia.
    - apply Z.mod_le; [lia | rewrite modulus_val; lia]. }
  lia.
Qed.

Lemma alignUp_multiple v a : (a | alignUp v a).
Proof. unfold alignUp. apply Z.divide_factor_r. Qed.

Lemma alignUp_bounds v a : 0 < a -> v <= alignUp v a < v + a.
Proof.
  intros Ha. unfold alignUp.
  pose proof (Z.div_mod (v + a - 1) a ltac:(lia)) as E.
  pose proof (Z.mod_pos_bound (v + a - 1) a Ha) as B.
  nia.
Qed.

Lemma align_to_exact a v :
  0 < a -> 0 <= v -> v + a - 1 < U32.modulus -> align_to a v = alignUp v a.
Proof.
  intros Ha Hv Hfit. unfold align_to, U32.mul, U32.div, U32.sub, U32.add.
  unfold U32.wrap at 2 3. rewrite Zminus_mod_idemp_l.
  rewrite (Z.mod_small (v + a - 1)) by lia.
  pose proof (alignUp_bounds v a Ha) as B. unfold alignUp in *.
  apply wrap_small.
  assert (0 <= (v + a - 1) / a) by (apply Z.div_pos; lia).
  nia.
Qed.

Lemma align_to_multiple a v : 0 < a -> (a | align_to a v).
Proof.
  intros Ha. unfold align_to, U32.mul, U32.div.
  set (y := U32.sub (U32.add v a) 1).
  assert (Hy : 0 <= y < U32.modulus) by apply wrap_range.
  assert (Hq : 0 <= y / a) by (apply Z.div_pos; lia).
  pose proof (Z.mul_div_le y a Ha) as Hle.
  rewrite wrap_small by nia.
  apply Z.divide_factor_r.
Qed.

Lemma align_to_range a v : 0 <= align_to a v < U32.modulus.
Proof. apply wrap_range. Qed.

(** The running maximum dominates its start and every program seen. *)
Lemma running_max_ge_start progs : forall m, m <= running_max m progs.
Proof.
  unfold running_max. induction progs as [|pr rest IH]; intros m; simpl.
  - lia.
  - specialize (IH (U32.max (sigSize pr) m)). unfold U32.max in *. lia.
Qed.

Lemma running_max_ge progs : forall m pr, In pr progs -> sigSize pr <= running_max m progs.
Proof.
  unfold running_max. induction progs as [|q rest IH]; intros m pr Hin; simpl in *.
  - contradiction.
  - destruct Hin as [->|Hin].
    + pose proof (running_max_ge_start rest (U32.max (sigSize pr) m)) as G.
      unfold running_max in G. unfold U32.max in *. lia.
    + apply (IH _ _ Hin).
Qed.

Lemma running_max_range progs : forall m,
  0 <= m < U32.modulus -> 0 <= running_max m progs < U32.modulus.
Proof.
  unfold running_max. induction progs as [|q rest IH]; intros m Hm; simpl.
  - assumption.
  - apply IH. unfold U32.max, sigSize, getSizeInBytes.
    pose proof (wrap_range (sizeInBytes (getRootSignature (getActiveVersion q)))). lia.
Qed.

Lemma running_max_app m l1 l2 :
  running_max m (l1 ++ l2) = running_max (running_max m l1) l2.
Proof. unfold running_max. apply fold_left_app. Qed.

(* ================================================================= *)
(** ** Arrays *)

Lemma array_set_middle {A} (done : list A) x y rest :
  array_set (done ++ x :: rest) (List.length done) y = Some (done ++ y :: rest).
Proof.
  induction done as [|d done IH]; simpl.
  - reflexivity.
  - rewrite IH. reflexivity.
Qed.

Lemma nth_error_middle {A} (done : list A) x rest :
  nth_error (done ++ x :: rest) (List.length done) = Some x.
Proof.
  induction done as [|d done IH]; simpl; [reflexivity | exact IH].
Qed.

Lemma array_set_at {A} (done : list A) x y rest i :
  i = List.length done -> array_set (done ++ x :: rest) i y = Some (done ++ y :: rest).
Proof. intros ->. apply array_set_middle. Qed.

Lemma nth_error_at {A} (done : list A) x rest i :
  i = List.length done -> nth_error (done ++ x :: rest) i = Some x.
Proof. intros ->. apply nth_error_middle. Qed.

Lemma resize_nil {A} n (d : A) : resize [] n d = repeat d (Z.to_nat n).
Proof.
  unfold resize. rewrite firstn_nil. simpl. rewrite Nat.sub_0_r. reflexivity.
Qed.

Lemma make_vars_length n : forall id rs, List.length (make_vars n id rs) = n.
Proof. induction n; intros; simpl; [reflexivity | rewrite IHn; reflexivity]. Qed.

(* ================================================================= *)
(** ** The loops of [init] *)

(** Filling an array of [n] cells from its cell [length done] on. *)
Lemma fill_loop pv : forall rest done id lg sc bd nb gpu rp rps calls,
  for_loop (List.length rest) (Z.of_nat (List.length done))
    (fun i pVars => v <- GraphicsVars_create pv ;; store pVars i (Some v))
    (done ++ rest) (mkWorld lg sc id bd nb gpu rp rps calls)
  = Ok (done ++ make_vars (List.length rest) id (getRootSignature pv),
        mkWorld lg sc (id + List.length rest) bd nb gpu rp rps calls).
Proof.
  induction rest as [|x rest IH]; intros; simpl.
  - unfold ret. rewrite Nat.add_0_r. reflexivity.
  - unfold bind at 1. unfold bind at 1. unfold GraphicsVars_create at 1. simpl.
    unfold store, deref. rewrite Nat2Z.id, array_set_middle. unfold ret at 1.
    replace (done ++ Some (mkGraphicsVars id (getRootSignature pv)) :: rest)
      with ((done ++ [Some (mkGraphicsVars id (getRootSignature pv))]) ++ rest)
      by (rewrite <- app_assoc; reflexivity).
    replace (Z.of_nat (List.length done) + 1)
      with (Z.of_nat (List.length (done ++ [Some (mkGraphicsVars id (getRootSignature pv))])))
      by (rewrite length_app; simpl; lia).
    unfold set_wNextVars. simpl.
    rewrite IH. rewrite <- app_assoc. simpl.
    rewrite <- plus_n_Sm. reflexivity.
Qed.

Lemma getSigSizeAndCreateVars_spec pr m (arr : list (option GraphicsVars)) n
    lg sc id bd nb gpu rp rps calls :
  Z.to_nat n = List.length arr ->
  getSigSizeAndCreateVars (Some pr) m arr n (mkWorld lg sc id bd nb gpu rp rps calls)
  = Ok ((U32.max (sigSize pr) m,
         make_vars (List.length arr) id (getRootSignature (getActiveVersion pr))),
        mkWorld lg sc (id + List.length arr) bd nb gpu rp rps calls).
Proof.
  intros Hn. unfold getSigSizeAndCreateVars. unfold deref. unfold bind at 1. unfold ret at 1.
  unfold bind at 1. rewrite Hn.
  pose proof (fill_loop (getActiveVersion pr) arr [] id lg sc bd nb gpu rp rps calls) as F.
  simpl in F. rewrite F. reflexivity.
Qed.

Lemma make_hit_rows_length progs g : forall id, List.length (make_hit_rows progs g id) = List.length progs.
Proof. induction progs; intros; simpl; [reflexivity | rewrite IHprogs; reflexivity]. Qed.

Lemma make_miss_vars_length progs : forall id, List.length (make_miss_vars progs id) = List.length progs.
Proof. induction progs; intros; simpl; [reflexivity | rewrite IHprogs; reflexivity]. Qed.

(** The loop over the hit programs, from any turn on: [pre] are the
    programs done, [rest] the ones to do. *)
Lemma init_hit_loop p g : forall rest pre tl done m v lg sc id bd nb gpu rp rps calls,
  hitPrograms p = pre ++ rest ++ tl ->
  List.length done = List.length pre ->
  0 <= g ->
  for_loop (List.length rest) (Z.of_nat (List.length pre))
    (init_hit_iteration p g) m
    (mkState (set_mHitVars (done ++ repeat [] (List.length rest)) v)
             (mkWorld lg sc id bd nb gpu rp rps calls))
  = Ok (running_max m rest,
        mkState (set_mHitVars (done ++ make_hit_rows rest (Z.to_nat g) id) v)
                (mkWorld lg sc (id + List.length rest * Z.to_nat g) bd nb gpu rp rps calls)).
Proof.
  induction rest as [|pr rest IH]; intros pre tl done m v lg sc id bd nb gpu rp rps calls Hp Hd Hg.
  - simpl. unfold ret. rewrite Nat.add_0_r. reflexivity.
  - cbn [for_loop List.length repeat]. cbn [app] in Hp.
    unfold bind at 1. unfold init_hit_iteration at 1.
    unfold bind at 1. unfold member at 1, gets at 1.
    cbn [this mHitVars set_mHitVars].
    unfold bind at 1. unfold load at 1.
    rewrite Nat2Z.id, nth_error_at by (symmetry; exact Hd). unfold deref at 1, ret at 1.
    rewrite resize_nil.
    unfold bind at 1. unfold liftW at 1. cbn [world].
    unfold getHitProgram. rewrite Nat2Z.id, Hp, nth_error_middle.
    rewrite getSigSizeAndCreateVars_spec by (rewrite repeat_length; reflexivity).
    rewrite repeat_length. cbn [fst snd].
    unfold bind at 1. unfold store at 1.
    rewrite Nat2Z.id, array_set_at by (symmetry; exact Hd).
    unfold deref at 1, ret at 1.
    unfold bind at 1. unfold assign at 1, modify at 1. cbn [this world].
    unfold ret at 1.
    replace (set_mHitVars _ (set_mHitVars _ v))
      with (set_mHitVars ((done ++ [make_vars (Z.to_nat g) id (getRootSignature (getActiveVersion pr))])
                            ++ repeat [] (List.length rest)) v)
      by (rewrite <- app_assoc; reflexivity).
    replace (Z.of_nat (List.length pre) + 1) with (Z.of_nat (List.length (pre ++ [pr])))
      by (rewrite length_app; simpl; lia).
    rewrite (IH (pre ++ [pr]) tl).
    + rewrite <- app_assoc. simpl.
      replace (id + Z.to_nat g + List.length rest * Z.to_nat g)%nat
        with (id + (Z.to_nat g + List.length rest * Z.to_nat g))%nat by lia.
      reflexivity.
    + rewrite Hp, <- app_assoc. reflexivity.
    + rewrite !length_app, Hd. reflexivity.
    + assumption.
Qed.

Lemma init_miss_loop p : forall rest pre tl done m v lg sc id bd nb gpu rp rps calls,
  missPrograms p = pre ++ rest ++ tl ->
  List.length done = List.length pre ->
  for_loop (List.length rest) (Z.of_nat (List.length pre))
    (init_miss_iteration p) m
    (mkState (set_mMissVars (done ++ repeat None (List.length rest)) v)
             (mkWorld lg sc id bd nb gpu rp rps calls))
  = Ok (running_max m rest,
        mkState (set_mMissVars (done ++ make_miss_vars rest id) v)
                (mkWorld lg sc (id + List.length rest) bd nb gpu rp rps calls)).
Proof.
  induction rest as [|pr rest IH]; intros pre tl done m v lg sc id bd nb gpu rp rps calls Hp Hd.
  - simpl. unfold ret. rewrite Nat.add_0_r. reflexivity.
  - cbn [for_loop List.length repeat]. cbn [app] in Hp.
    unfold bind at 1. unfold init_miss_iteration at 1.
    unfold bind at 1. unfold member at 1, gets at 1.
    cbn [this mMissVars set_mMissVars].
    unfold bind at 1. unfold load at 1.
    rewrite Nat2Z.id, nth_error_at by (symmetry; exact Hd). unfold deref at 1, ret at 1.
    unfold bind at 1. unfold liftW at 1. cbn [world].
    unfold getMissProgram. rewrite Nat2Z.id, Hp, nth_error_middle.
    rewrite getSigSizeAndCreateVars_spec by reflexivity.
    cbn [fst snd List.length make_vars].
    unfold bind at 1. unfold load at 1. cbn [Z.to_nat nth_error]. unfold deref at 1, ret at 1.
    unfold bind at 1. unfold store at 1.
    rewrite Nat2Z.id, array_set_at by (symmetry; exact Hd).
    unfold deref at 1, ret at 1.
    unfold bind at 1. unfold assign at 1, modify at 1. cbn [this world].
    unfold ret at 1.
    replace (set_mMissVars _ (set_mMissVars _ v))
      with (set_mMissVars ((done ++ [Some (mkGraphicsVars id (getRootSignature (getActiveVersion pr)))])
                            ++ repeat None (List.length rest)) v)
      by (rewrite <- app_assoc; reflexivity).
    replace (Z.of_nat (List.length pre) + 1) with (Z.of_nat (List.length (pre ++ [pr])))
      by (rewrite length_app; simpl; lia).
    rewrite (IH (pre ++ [pr]) tl).
    + rewrite <- app_assoc. simpl.
      replace (id + 1 + List.length rest)%nat with (id + S (List.length rest))%nat by lia.
      replace (id + 1)%nat with (S id) by lia.
      reflexivity.
    + rewrite Hp, <- app_assoc. reflexivity.
    + rewrite !length_app, Hd. reflexivity.
Qed.

Lemma visitedHit_length p : List.length (visitedHit p) = Z.to_nat (getHitProgramCount p).
Proof. unfold visitedHit. apply firstn_length_le. apply of_size_le. Qed.

Lemma visitedMiss_length p : List.length (visitedMiss p) = Z.to_nat (getMissProgramCount p).
Proof. unfold visitedMiss. apply firstn_length_le. apply of_size_le. Qed.

Lemma geometryCountIn_range w a h : 0 <= geometryCountIn w a h < U32.modulus.
Proof. apply wrap_range. Qed.

Lemma bind_Ok {S A B} (m : M S A) (k : A -> M S B) s a s' r :
  m s = Ok (a, s') -> k a s' = r -> bind m k s = r.
Proof. intros E <-. unfold bind. rewrite E. reflexivity. Qed.

Ltac unfold_setters :=
  unfold set_mRayGenVars, set_mHitVars, set_mMissVars, set_mHitProgCount, set_mMissProgCount,
    set_mFirstHitVarEntry, set_mProgramIdentifierSize, set_mRecordSize, set_mpSBT,
    set_mSbtData, set_wLog, set_wNextVars, set_wNextBuffer, set_wGpu, set_wRootParams,
    set_wCalls.

Ltac norm :=
  unfold_setters;
  cbn [this world mpProgram mpScene mRayGenVars mHitVars mMissVars mHitProgCount
       mMissProgCount mFirstHitVarEntry mProgramIdentifierSize mRecordSize mpSBT mSbtData
       mpRtVarsHelper
       wLog wScene wNextVars wBindings wNextBuffer wGpu wRootParams wRootParamsSize wCalls
       fst snd app].

(** One statement of a method body that reads or writes a member. *)
Ltac step :=
  lazymatch goal with
  | |- bind (member ?f) ?k ?st = _ =>
      change (bind (member f) k st) with (k (f (this st)) st)
  | |- bind (assign ?f) ?k ?st = _ =>
      change (bind (assign f) k st) with (k tt (mkState (f (this st)) (world st)))
  | |- bind (ret ?a) ?k ?st = _ =>
      change (bind (ret a) k st) with (k a st)
  | |- bind (deref (Some ?x) ?what) ?k ?st = _ =>
      change (bind (deref (Some x) what) k st) with (k x st)
  end; cbv beta; norm.

Lemma maxRootSigSizeOf_unfold rayGen p :
  running_max (running_max (U32.max (sigSize rayGen) 0) (visitedHit p)) (visitedMiss p)
  = maxRootSigSizeOf rayGen p.
Proof. unfold maxRootSigSizeOf. rewrite <- running_max_app. reflexivity. Qed.

(** [init] on the object the constructor made. *)
Theorem init_spec plat p a rayGen w :
  getRayGenProgram p = Some rayGen ->
  init plat (mkState (RtProgramVars_new (Some p) (Some a)) w)
  = if recordSizeOf plat rayGen p =? 0
    then AssertFailed "mRecordSize != 0"
    else Ok (true, built plat p a rayGen w).
Proof.
  intros Hrg. destruct w as [lg sc id bd nb gpu rp rps calls].
  unfold init, RtProgramVars_new. do 3 step.
  eapply bind_Ok.
  { unfold liftW; norm. rewrite Hrg, getSigSizeAndCreateVars_spec by reflexivity.
    reflexivity. }
  cbn [List.length make_vars]. norm.
  eapply bind_Ok; [reflexivity|].
  repeat step. rewrite !resize_nil.
  eapply bind_Ok; [reflexivity|]. norm.
  fold (geometryCountIn (mkWorld lg sc id bd nb gpu rp rps calls) a (getHitProgramCount p)).
  set (w := mkWorld lg sc id bd nb gpu rp rps calls).
  set (g := geometryCountIn w a (getHitProgramCount p)).
  pose proof (geometryCountIn_range w a (getHitProgramCount p)) as Hg. fold g in Hg.
  (* the loop over the hit programs *)
  pose proof (init_hit_loop p g (visitedHit p) [] (skipn (Z.to_nat (getHitProgramCount p)) (hitPrograms p)) []
                (U32.max (sigSize rayGen) 0)
                (mkRtProgramVars (Some p) (Some a)
                   (Some (mkGraphicsVars id (getRootSignature (getActiveVersion rayGen))))
                   [] (repeat None (Z.to_nat (getMissProgramCount p)))
                   (getHitProgramCount p) (getMissProgramCount p)
                   (U32.add kFirstMissSbtRecordIndex (getMissProgramCount p)) 0 0 None []
                   (Some RtVarsContext_create))
                lg sc (id + 1)%nat bd nb gpu rp rps calls) as Lh.
  rewrite visitedHit_length in Lh.
  eapply bind_Ok.
  { apply Lh; [unfold visitedHit; rewrite firstn_skipn; reflexivity | reflexivity | lia ]. }
  clear Lh.
  pose proof (init_miss_loop p (visitedMiss p) [] (skipn (Z.to_nat (getMissProgramCount p)) (missPrograms p)) []
                (running_max (U32.max (sigSize rayGen) 0) (visitedHit p))
                (mkRtProgramVars (Some p) (Some a)
                   (Some (mkGraphicsVars id (getRootSignature (getActiveVersion rayGen))))
                   (make_hit_rows (visitedHit p) (Z.to_nat g) (id + 1)) []
                   (getHitProgramCount p) (getMissProgramCount p)
                   (U32.add kFirstMissSbtRecordIndex (getMissProgramCount p)) 0 0 None []
                   (Some RtVarsContext_create))
                lg sc (id + 1 + Z.to_nat (getHitProgramCount p) * Z.to_nat g)%nat bd nb gpu rp rps calls) as Lm.
  rewrite visitedMiss_length in Lm.
  eapply bind_Ok.
  { apply Lm; [unfold visitedMiss; rewrite firstn_skipn; reflexivity | reflexivity ]. }
  clear Lm. norm.
  repeat step.
  rewrite maxRootSigSizeOf_unfold. fold (recordSizeOf plat rayGen p).
  unfold bind at 1, assert at 1.
  destruct (recordSizeOf plat rayGen p =? 0); cbn [negb]; [reflexivity|].
  eapply bind_Ok; [reflexivity|]. norm.
  step. unfold bind at 1, assert at 1.
  eapply bind_Ok; [reflexivity|]. norm.
  step. unfold ret, built. rewrite resize_nil.
  fold w. fold (geometryCountIn w a (getHitProgramCount p)). fold g.
  rewrite visitedHit_length, visitedMiss_length.
  unfold numEntriesOf, hitEntriesOf. norm. subst w. norm.
  replace (id + 1)%nat with (S id) by lia.
  reflexivity.
Qed.

Lemma init_null_rayGen plat p s w :
  getRayGenProgram p = None ->
  init plat (mkState (RtProgramVars_new (Some p) s) w) = Undefined "null program".
Proof.
  intros Hrg. unfold init, RtProgramVars_new. do 3 step.
  unfold bind, liftW. norm. rewrite Hrg. reflexivity.
Qed.

Lemma init_inv plat p a w b st :
  init plat (mkState (RtProgramVars_new (Some p) (Some a)) w) = Ok (b, st) ->
  exists rayGen,
    getRayGenProgram p = Some rayGen /\ recordSizeOf plat rayGen p <> 0 /\
    b = true /\ st = built plat p a rayGen w.
Proof.
  intros E. destruct (getRayGenProgram p) as [rayGen|] eqn:Hrg.
  - rewrite (init_spec _ _ _ _ _ Hrg) in E.
    destruct (recordSizeOf plat rayGen p =? 0) eqn:Hz; [discriminate|].
    injection E as <- <-. exists rayGen. apply Z.eqb_neq in Hz. auto.
  - rewrite init_null_rayGen in E by assumption. discriminate.
Qed.

Lemma create_no_scene plat (pProgram : RtProgramPtr) w :
  create plat pProgram None w = Ok (None, set_wLog (wLog w ++ [msg_no_scene]) w).
Proof. reflexivity. Qed.

(** With a scene, [checkParams] uses the program set without a test. *)
Lemma create_null_program plat a w :
  create plat None (Some a) w = Undefined "null program set".
Proof. reflexivity. Qed.

Lemma create_no_rayGen plat p a w :
  getRayGenProgram p = None ->
  create plat (Some p) (Some a) w = Ok (None, set_wLog (wLog w ++ [msg_no_raygen]) w).
Proof.
  intros Hrg. unfold create, checkParams, deref. unfold bind, ret. cbv beta iota.
  rewrite Hrg. reflexivity.
Qed.

Lemma create_checked plat p a rayGen w :
  getRayGenProgram p = Some rayGen ->
  create plat (Some p) (Some a) w
  = match init plat (mkState (RtProgramVars_new (Some p) (Some a)) w) with
    | Ok (ok, st) => if negb ok then Ok (None, world st) else Ok (Some (this st), world st)
    | AssertFailed c => AssertFailed c
    | Undefined u => Undefined u
    end.
Proof.
  intros Hrg. unfold create, checkParams, deref. unfold bind, ret. cbv beta iota.
  rewrite Hrg. reflexivity.
Qed.

Lemma create_spec plat p a rayGen w :
  getRayGenProgram p = Some rayGen ->
  create plat (Some p) (Some a) w
  = if recordSizeOf plat rayGen p =? 0
    then AssertFailed "mRecordSize != 0"
    else Ok (Some (this (built plat p a rayGen w)), world (built plat p a rayGen w)).
Proof.
  intros Hrg. rewrite (create_checked _ _ _ _ _ Hrg), (init_spec _ _ _ _ _ Hrg).
  destruct (recordSizeOf plat rayGen p =? 0); reflexivity.
Qed.

(** C7. [create] returns null, having run nothing but the check, when the
    scene is null or the program set has no ray-gen program; with both
    present and [init] reporting success, it returns the object [init]
    built. *)
Theorem create_fails_fast plat p s w :
  (s = None \/ getRayGenProgram p = None ->
   exists msg, create plat (Some p) s w = Ok (None, set_wLog (wLog w ++ [msg]) w)) /\
  (forall st, s <> None -> getRayGenProgram p <> None ->
     init plat (mkState (RtProgramVars_new (Some p) s) w) = Ok (true, st) ->
     create plat (Some p) s w = Ok (Some (this st), world st)).
Proof.
  split.
  - intros [-> | Hrg].
    + exists msg_no_scene. apply create_no_scene.
    + destruct s as [a|].
      * exists msg_no_raygen. apply create_no_rayGen. assumption.
      * exists msg_no_scene. apply create_no_scene.
  - intros st Hs Hrg E. destruct s as [a|]; [|congruence].
    destruct (getRayGenProgram p) as [rayGen|] eqn:Hp; [|congruence].
    rewrite (create_checked _ _ _ _ _ Hp), E. reflexivity.
Qed.

(** The scenario of the spec, without a scene and with one. *)
Lemma create_fails_fast_witness :
  (exists msg, create Scenario.plat (Some Scenario.program) None
                 (Scenario.world0 3 Scenario.all_resolved)
               = Ok (None, set_wLog (wLog (Scenario.world0 3 Scenario.all_resolved) ++ [msg])
                             (Scenario.world0 3 Scenario.all_resolved))) /\
  (exists st, create Scenario.plat (Some Scenario.program) (Some 0%nat)
                (Scenario.world0 3 Scenario.all_resolved)
              = Ok (Some (this st), world st)).
Proof.
  split.
  - apply (proj1 (create_fails_fast _ _ None _)). left. reflexivity.
  - eexists.
    apply (proj2 (create_fails_fast Scenario.plat Scenario.program (Some 0%nat)
                    (Scenario.world0 3 Scenario.all_resolved))).
    + discriminate.
    + discriminate.
    + vm_compute. reflexivity.
Defined.

(** [init] never reports failure: it returns [true] or does not return. *)
Lemma init_never_false plat p a w b st :
  init plat (mkState (RtProgramVars_new (Some p) (Some a)) w) = Ok (b, st) -> b = true.
Proof. intros E. destruct (init_inv _ _ _ _ _ _ E) as (? & _ & _ & -> & _). reflexivity. Qed.

(** An empty identifier and empty root signatures: the record size is
    zero, and [create] stops at the assertion instead of returning null. *)
Lemma zero_record_size_counterexample :
  ~ zero_record_size_returns_null ZeroSize.plat ZeroSize.program 0 ZeroSize.world.
Proof.
  intros C. destruct (C (Scenario.prog 0 "rayGen") eq_refl eq_refl) as [w' E].
  vm_compute in E. discriminate.
Qed.

(** C8, amended. A computed record size of zero stops construction at the
    assertion of [init]: [create] does not return, neither null nor an
    object. *)
Theorem zero_record_size_asserts plat p a w rayGen :
  getRayGenProgram p = Some rayGen ->
  recordSizeOf plat rayGen p = 0 ->
  create plat (Some p) (Some a) w = AssertFailed "mRecordSize != 0".
Proof.
  intros Hrg Hz. rewrite (create_spec _ _ _ _ _ Hrg), Hz. reflexivity.
Qed.

(** The same configuration, through the theorem. *)
Lemma zero_record_size_asserts_witness :
  create ZeroSize.plat (Some ZeroSize.program) (Some 0%nat) ZeroSize.world
  = AssertFailed "mRecordSize != 0".
Proof.
  apply (zero_record_size_asserts _ _ _ _ (Scenario.prog 0 "rayGen")); reflexivity.
Defined.

Lemma getRayGenRecordPtr_eq st :
  getRayGenRecordPtr st = Ok (U32.mul kRayGenSbtRecordIndex (mRecordSize (this st)), st).
Proof. reflexivity. Qed.

Lemma getMissRecordPtr_eq missId st :
  getMissRecordPtr missId st
  = if missId <? mMissProgCount (this st)
    then Ok (U32.mul (mRecordSize (this st)) (U32.add kFirstMissSbtRecordIndex missId), st)
    else AssertFailed "missId < mMissProgCount".
Proof.
  unfold getMissRecordPtr. step. unfold bind, assert.
  destruct (missId <? mMissProgCount (this st)); reflexivity.
Qed.

Lemma getHitRecordPtr_eq hitId meshId st :
  getHitRecordPtr hitId meshId st
  = if hitId <? mHitProgCount (this st)
    then Ok (U32.mul (U32.add (U32.add (mFirstHitVarEntry (this st))
                                 (U32.mul (mHitProgCount (this st)) meshId)) hitId)
               (mRecordSize (this st)), st)
    else AssertFailed "hitId < mHitProgCount".
Proof.
  unfold getHitRecordPtr. step. unfold bind, assert.
  destruct (hitId <? mHitProgCount (this st)); reflexivity.
Qed.

(** The members of the object [init] built. *)
Lemma built_members plat p a rayGen w :
  let v := this (built plat p a rayGen w) in
  let Mi := getMissProgramCount p in
  let H := getHitProgramCount p in
  let size := U32.mul (numEntriesOf Mi H (geometryCountIn w a H)) (recordSizeOf plat rayGen p) in
  mpProgram v = Some p /\ mpScene v = Some a /\
  mHitProgCount v = H /\ mMissProgCount v = Mi /\
  mFirstHitVarEntry v = U32.add kFirstMissSbtRecordIndex Mi /\
  mProgramIdentifierSize v = GetShaderIdentifierSize plat /\
  mRecordSize v = recordSizeOf plat rayGen p /\
  mpSBT v = Some (mkBuffer (wNextBuffer w) size) /\
  Z.of_nat (List.length (mSbtData v)) = size.
Proof.
  unfold built. norm. repeat split.
  rewrite repeat_length, Z2Nat.id; [reflexivity | apply wrap_range].
Qed.

Lemma recordSizeOf_range plat rayGen p : 0 <= recordSizeOf plat rayGen p < U32.modulus.
Proof. apply align_to_range. Qed.

(** Without overflow the 32-bit index and offset computations are the
    integer ones. *)
Lemma numEntries_exact Mi H G rs :
  0 <= Mi -> 0 <= H -> 0 <= G -> 0 < rs -> table_fits Mi H G rs ->
  numEntriesOf Mi H G = Spec.totalRecords Mi H G /\
  U32.mul (numEntriesOf Mi H G) rs = Spec.totalRecords Mi H G * rs.
Proof.
  unfold table_fits, Spec.totalRecords, numEntriesOf, hitEntriesOf, U32.mul, U32.add.
  intros HMi HH HG Hrs Hfit.
  assert (0 <= H * G) by nia.
  assert (1 + Mi + H * G < U32.modulus) by nia.
  rewrite (wrap_small (G * H)) by nia.
  rewrite (wrap_small (Mi + G * H)) by nia.
  rewrite (wrap_small (Mi + G * H + 1)) by nia.
  rewrite wrap_small by nia.
  split; ring.
Qed.

Lemma missOffset_exact Mi H G rs missId :
  0 <= H -> 0 <= G -> 0 < rs -> table_fits Mi H G rs ->
  0 <= missId < Mi ->
  U32.mul rs (U32.add kFirstMissSbtRecordIndex missId) = Spec.missOffset rs missId.
Proof.
  unfold table_fits, Spec.totalRecords, Spec.missOffset, Spec.firstMissIndex,
    kFirstMissSbtRecordIndex, U32.mul, U32.add.
  intros HH HG Hrs Hfit Hm.
  assert (0 <= H * G) by nia.
  rewrite (wrap_small (1 + missId)) by nia.
  rewrite wrap_small by nia. ring.
Qed.

Lemma hitOffset_exact Mi H G rs hitId geomId :
  0 <= Mi -> 0 < rs -> table_fits Mi H G rs ->
  0 <= hitId < H -> 0 <= geomId < G ->
  U32.mul (U32.add (U32.add (U32.add kFirstMissSbtRecordIndex Mi) (U32.mul H geomId)) hitId) rs
  = Spec.hitOffset rs Mi H hitId geomId.
Proof.
  unfold table_fits, Spec.totalRecords, Spec.hitOffset, Spec.firstHitIndex,
    Spec.firstMissIndex, kFirstMissSbtRecordIndex, U32.mul, U32.add.
  intros HMi Hrs Hfit Hh Hg.
  assert (H * geomId + hitId < H * G) by nia.
  assert (0 <= H * geomId) by nia.
  assert (1 + Mi + H * G < U32.modulus) by nia.
  rewrite (wrap_small (1 + Mi)) by nia.
  rewrite (wrap_small (H * geomId)) by nia.
  rewrite (wrap_small (1 + Mi + H * geomId)) by nia.
  rewrite (wrap_small (1 + Mi + H * geomId + hitId)) by nia.
  rewrite wrap_small by nia. reflexivity.
Qed.

(** On the 4 GiB table the last hit record has index 2^24; its offset
    2^24 * 288 wraps to 536870912. *)
Lemma accessors_counterexample :
  ~ accessors_at_spec_offsets Large.plat Large.program 0 Large.world.
Proof.
  intros C.
  pose proof (init_spec Large.plat Large.program 0 (Scenario.prog 256 "rayGen")
                Large.world eq_refl) as E.
  replace (recordSizeOf Large.plat (Scenario.prog 256 "rayGen") Large.program) with 288 in E
    by (vm_compute; reflexivity).
  cbn [Z.eqb] in E.
  destruct (C _ E) as (_ & _ & Hhit).
  assert (Hr1 : 0 <= 0 < getHitProgramCount Large.program) by (vm_compute; split; congruence).
  assert (Hr2 : 0 <= Large.G - 1 < geometryCountIn Large.world 0 (getHitProgramCount Large.program))
    by (vm_compute; split; congruence).
  specialize (Hhit 0 (Large.G - 1) Hr1 Hr2).
  rewrite getHitRecordPtr_eq in Hhit.
  destruct (built_members Large.plat Large.program 0 (Scenario.prog 256 "rayGen") Large.world)
    as (_ & _ & HH & HMi & HF & _ & HR & _).
  rewrite HH, HF, HR in Hhit.
  replace (recordSizeOf Large.plat (Scenario.prog 256 "rayGen") Large.program) with 288 in Hhit
    by (vm_compute; reflexivity).
  replace (0 <? getHitProgramCount Large.program) with true in Hhit by reflexivity.
  apply (f_equal (fun o => match o with Ok (off, _) => off | _ => 0 end)) in Hhit.
  cbv beta iota in Hhit. vm_compute in Hhit. discriminate.
Qed.

(** The accessors on a table that fits. *)
Lemma accessor_offsets plat p a w st :
  init plat (constructed p a w) = Ok (true, st) ->
  table_fits (getMissProgramCount p) (getHitProgramCount p)
    (geometryCountIn w a (getHitProgramCount p)) (mRecordSize (this st)) ->
  let Mi := getMissProgramCount p in
  let H := getHitProgramCount p in
  let G := geometryCountIn w a H in
  let rs := mRecordSize (this st) in
  getRayGenRecordPtr st = Ok (Spec.rayGenOffset, st) /\
  (forall missId, 0 <= missId < Mi ->
     getMissRecordPtr missId st = Ok (Spec.missOffset rs missId, st)) /\
  (forall hitId geomId, 0 <= hitId < H -> 0 <= geomId < G ->
     getHitRecordPtr hitId geomId st = Ok (Spec.hitOffset rs Mi H hitId geomId, st)).
Proof.
  intros E Hfit Mi H G rs.
  destruct (init_inv _ _ _ _ _ _ E) as (rayGen & Hrg & Hnz & _ & ->).
  destruct (built_members plat p a rayGen w) as (_ & _ & HH & HMi & HF & _ & HR & _).
  pose proof (recordSizeOf_range plat rayGen p) as Hrs.
  pose proof (of_size_range (List.length (hitPrograms p))) as HHr.
  pose proof (of_size_range (List.length (missPrograms p))) as HMr.
  pose proof (geometryCountIn_range w a H) as HGr.
  fold (getHitProgramCount p) in HHr. fold (getMissProgramCount p) in HMr.
  assert (Hpos : 0 < rs) by (unfold rs; rewrite HR; lia).
  split; [|split].
  - rewrite getRayGenRecordPtr_eq. reflexivity.
  - intros missId Hm. rewrite getMissRecordPtr_eq, HMi.
    destruct (Z.ltb_spec missId (getMissProgramCount p)); [|unfold Mi in *; lia].
    fold rs. rewrite (missOffset_exact Mi H G rs missId); auto; unfold H, G; lia.
  - intros hitId geomId Hh Hg. rewrite getHitRecordPtr_eq, HH, HF.
    destruct (Z.ltb_spec hitId (getHitProgramCount p)); [|unfold H in *; lia].
    fold rs. fold Mi. fold H.
    rewrite (hitOffset_exact Mi H G rs hitId geomId); auto; unfold Mi; lia.
Qed.

(** On the 4 GiB table [init] allocates 536871200 bytes, the 32-bit
    remainder of (1 + 2^24) * 288. *)
Lemma table_size_counterexample :
  ~ table_size_as_specified Large.plat Large.program 0 Large.world.
Proof.
  intros C.
  pose proof (init_spec Large.plat Large.program 0 (Scenario.prog 256 "rayGen")
                Large.world eq_refl) as E.
  replace (recordSizeOf Large.plat (Scenario.prog 256 "rayGen") Large.program) with 288 in E
    by (vm_compute; reflexivity).
  cbn [Z.eqb] in E.
  destruct (C _ E) as (_ & (sbt & Hsbt & Hsize) & _).
  destruct (built_members Large.plat Large.program 0 (Scenario.prog 256 "rayGen") Large.world)
    as (_ & _ & _ & _ & _ & _ & HR & HB & _).
  rewrite HB in Hsbt. injection Hsbt as <-. rewrite HR in Hsize. cbn [getSize] in Hsize.
  vm_compute in Hsize. discriminate.
Qed.

Lemma sigSize_range pr : 0 <= sigSize pr < U32.modulus.
Proof. apply wrap_range. Qed.

Lemma running_max_fold progs : forall m,
  0 <= m -> running_max m progs = Z.max m (fold_right Z.max 0 (map sigSize progs)).
Proof.
  unfold running_max. induction progs as [|pr rest IH]; intros m Hm; simpl.
  - lia.
  - rewrite IH by (unfold U32.max; lia). unfold U32.max. lia.
Qed.

Lemma visited_all p :
  programs_fit p -> visitedHit p = hitPrograms p /\ visitedMiss p = missPrograms p.
Proof.
  intros [Hh Hm]. unfold visitedHit, visitedMiss, getHitProgramCount, getMissProgramCount,
    U32.of_size.
  rewrite !wrap_small by lia. rewrite !Nat2Z.id, !firstn_all. auto.
Qed.

Lemma maxRootSigSizeOf_all rayGen p :
  programs_fit p -> maxRootSigSizeOf rayGen p = maxParamBlockSize rayGen p.
Proof.
  intros Hfit. destruct (visited_all p Hfit) as [Eh Em].
  unfold maxRootSigSizeOf, maxParamBlockSize. rewrite Eh, Em.
  rewrite running_max_fold by lia.
  assert (0 <= fold_right Z.max 0 (map sigSize (rayGen :: hitPrograms p ++ missPrograms p))).
  { generalize (rayGen :: hitPrograms p ++ missPrograms p).
    induction l; simpl; lia. }
  lia.
Qed.

Lemma maxParamBlockSize_range rayGen p :
  0 <= maxParamBlockSize rayGen p < U32.modulus.
Proof.
  unfold maxParamBlockSize. generalize (rayGen :: hitPrograms p ++ missPrograms p).
  induction l as [|pr l IH]; simpl.
  - rewrite modulus_val. lia.
  - pose proof (sigSize_range pr). lia.
Qed.

(** Every program's parameter block is within the maximum. *)
Lemma maxParamBlockSize_ge rayGen p pr :
  In pr (rayGen :: hitPrograms p ++ missPrograms p) -> sigSize pr <= maxParamBlockSize rayGen p.
Proof.
  unfold maxParamBlockSize. generalize (rayGen :: hitPrograms p ++ missPrograms p).
  induction l as [|q l IH]; simpl; intros Hin.
  - contradiction.
  - destruct Hin as [->|Hin]; [lia | specialize (IH Hin); lia].
Qed.

(** Identifier of 32 bytes, root signature of 2^32 - 16 bytes: the sum
    wraps to 16 and the record size is 32. *)
Lemma record_size_counterexample :
  ~ record_size_as_specified Wide.plat Wide.program 0 Wide.world.
Proof.
  intros C.
  assert (E : init Wide.plat (constructed Wide.program 0 Wide.world)
              = Ok (true, built Wide.plat Wide.program 0 Wide.rayGen Wide.world))
    by (vm_compute; reflexivity).
  specialize (C Wide.rayGen _ eq_refl E). vm_compute in C. discriminate.
Qed.

(** C2, amended. When identifier, largest parameter block and alignment
    slack fit 32 bits together, the record size [init] computes is
    [alignUp (identifierSize + maxParamBlockSize) alignment], the maximum
    being over the ray-gen program, every hit program and every miss
    program.  The record size is a multiple of the alignment in any case,
    and on a table that fits every record of every category starts a whole
    number of record sizes into the table. *)
Theorem record_size_formula plat p a w rayGen st :
  alignment_ok plat ->
  programs_fit p ->
  getRayGenProgram p = Some rayGen ->
  init plat (constructed p a w) = Ok (true, st) ->
  let idSize := GetShaderIdentifierSize plat in
  let A := shaderRecordByteAlignment plat in
  let Mi := getMissProgramCount p in
  let H := getHitProgramCount p in
  let G := geometryCountIn w a H in
  let rs := mRecordSize (this st) in
  (A | rs) /\
  (idSize + maxParamBlockSize rayGen p + A - 1 < U32.modulus ->
   rs = Spec.recordSize idSize (maxParamBlockSize rayGen p) A /\
   (forall pr, In pr (rayGen :: hitPrograms p ++ missPrograms p) ->
      idSize + sigSize pr <= rs)) /\
  (table_fits Mi H G rs ->
   getRayGenRecordPtr st = Ok (0 * rs, st) /\
   (forall missId, 0 <= missId < Mi ->
      getMissRecordPtr missId st = Ok ((1 + missId) * rs, st)) /\
   (forall hitId geomId, 0 <= hitId < H -> 0 <= geomId < G ->
      getHitRecordPtr hitId geomId st = Ok ((1 + Mi + H * geomId + hitId) * rs, st))).
Proof.
  intros HA Hfit Hrg E idSize A Mi H G rs.
  destruct (init_inv _ _ _ _ _ _ E) as (rayGen' & Hrg' & Hnz & _ & Hst).
  assert (rayGen' = rayGen) by congruence. subst rayGen'.
  assert (HR : rs = recordSizeOf plat rayGen p).
  { unfold rs. rewrite Hst.
    destruct (built_members plat p a rayGen w) as (_ & _ & _ & _ & _ & _ & HR & _).
    exact HR. }
  destruct HA as [HA0 HA1]. fold A in HA0, HA1.
  pose proof (wrap_range (deviceShaderIdentifierSize plat)) as Hid.
  fold (GetShaderIdentifierSize plat) in Hid. fold idSize in Hid.
  pose proof (maxParamBlockSize_range rayGen p) as Hmax.
  split; [|split].
  - rewrite HR. apply align_to_multiple. exact HA0.
  - intros Hsum.
    assert (Hrs : rs = Spec.recordSize idSize (maxParamBlockSize rayGen p) A).
    { rewrite HR. unfold recordSizeOf, Spec.recordSize.
      rewrite (maxRootSigSizeOf_all _ _ Hfit). fold idSize. fold A.
      unfold U32.add. rewrite wrap_small by lia.
      apply align_to_exact; lia. }
    split; [exact Hrs|].
    intros pr Hin. pose proof (maxParamBlockSize_ge rayGen p pr Hin) as Hle.
    rewrite Hrs. unfold Spec.recordSize.
    pose proof (alignUp_bounds (idSize + maxParamBlockSize rayGen p) A HA0). lia.
  - intros Htab. destruct (accessor_offsets plat p a w st E Htab) as (Hr & Hm & Hh).
    split; [exact Hr | split].
    + intros missId Hmi. rewrite (Hm missId Hmi). reflexivity.
    + intros hitId geomId Hh1 Hg1. rewrite (Hh hitId geomId Hh1 Hg1). reflexivity.
Qed.

(** The spec's scenario: 32 + 64 rounded up to 128, stride 128. *)
Lemma record_size_formula_witness :
  let st := built Scenario.plat Scenario.program 0 (Scenario.prog 16 "rayGen")
              (Scenario.world0 3 Scenario.all_resolved) in
  (64 | mRecordSize (this st)) /\
  mRecordSize (this st) = 128 /\
  getHitRecordPtr 0 1 st = Ok (384, st).
Proof.
  intros st.
  assert (HA : alignment_ok Scenario.plat) by (vm_compute; split; reflexivity).
  assert (HP : programs_fit Scenario.program) by (vm_compute; split; reflexivity).
  assert (E : init Scenario.plat
                (constructed Scenario.program 0 (Scenario.world0 3 Scenario.all_resolved))
              = Ok (true, st)) by (vm_compute; reflexivity).
  destruct (record_size_formula Scenario.plat Scenario.program 0
              (Scenario.world0 3 Scenario.all_resolved) (Scenario.prog 16 "rayGen") st
              HA HP eq_refl E) as (Hdiv & Hsize & Hstride).
  split; [exact Hdiv | split].
  - apply Hsize. vm_compute. reflexivity.
  - assert (F : table_fits (getMissProgramCount Scenario.program)
                  (getHitProgramCount Scenario.program)
                  (geometryCountIn (Scenario.world0 3 Scenario.all_resolved) 0
                     (getHitProgramCount Scenario.program))
                  (mRecordSize (this st))) by (vm_compute; reflexivity).
    destruct (Hstride F) as (_ & _ & Hh).
    apply (Hh 0 1); vm_compute; split; congruence.
Defined.

Lemma mid_start v w :
  mkState v w = mid v w (mSbtData v) (wRootParams w) (wRootParamsSize w) (wCalls w).
Proof. destruct v, w. reflexivity. Qed.

Lemma blit_length data off n src :
  in_bounds data off n = true -> 0 <= n ->
  List.length (blit data off n src) = List.length data.
Proof.
  unfold in_bounds, blit. intros Hb Hn.
  apply andb_true_iff in Hb. destruct Hb as [H0 H1].
  apply Z.leb_le in H0. apply Z.leb_le in H1.
  rewrite !length_app, length_map, length_seq, length_firstn, length_skipn. lia.
Qed.

Lemma in_bounds_intro data off n :
  0 <= off -> off + n <= Z.of_nat (List.length data) -> in_bounds data off n = true.
Proof.
  intros. unfold in_bounds. apply andb_true_iff. split; apply Z.leb_le; assumption.
Qed.

(** One record written inside the staging bytes. *)
Lemma applyRtProgramVars_spec pRecord pv rtso progIdSize gv ctx v w d b sz cs :
  0 <= pRecord -> 0 <= progIdSize ->
  pRecord + progIdSize + getSizeInBytes (getRootSignature pv) <= Z.of_nat (List.length d) ->
  exists d',
    List.length d' = List.length d /\
    applyRtProgramVars pRecord pv rtso progIdSize (Some gv) (Some ctx) (mid v w d b sz cs)
    = Ok (resolved (wBindings w (gvId gv)),
          mid v w d' (pRecord + progIdSize) (getSizeInBytes (getRootSignature pv))
            (cs ++ [CallApplyRecord pRecord (getExportName pv) (gvId gv)
                      (resolved (wBindings w (gvId gv)))])).
Proof.
  intros H0 Hid Hfit.
  pose proof (wrap_range (sizeInBytes (getRootSignature pv))) as Hsz.
  fold (getSizeInBytes (getRootSignature pv)) in Hsz.
  set (d1 := blit d pRecord progIdSize (GetShaderIdentifier rtso (getExportName pv))).
  assert (B1 : in_bounds d pRecord progIdSize = true) by (apply in_bounds_intro; lia).
  assert (L1 : List.length d1 = List.length d) by (apply blit_length; assumption).
  assert (B2 : in_bounds d1 (pRecord + progIdSize) (getSizeInBytes (getRootSignature pv)) = true)
    by (apply in_bounds_intro; rewrite ?L1; lia).
  unfold applyRtProgramVars, memcpy.
  eapply (fun P => ex_intro P (if resolved (wBindings w (gvId gv))
                               then blit d1 (pRecord + progIdSize)
                                      (getSizeInBytes (getRootSignature pv))
                                      (paramBlock (wBindings w (gvId gv)))
                               else d1)).
  split.
  - destruct (resolved (wBindings w (gvId gv))); [rewrite blit_length by (assumption || lia)|];
      exact L1.
  - unfold mid.
    eapply bind_Ok. { unfold write_sbt. norm. rewrite B1. reflexivity. }
    eapply bind_Ok. { reflexivity. }
    eapply bind_Ok. { reflexivity. }
    eapply bind_Ok. { reflexivity. }
    norm. fold d1.
    destruct (resolved (wBindings w (gvId gv))) eqn:Hres.
    + eapply bind_Ok.
      { unfold applyProgramVarsCommon.
        eapply bind_Ok. { reflexivity. }
        norm. rewrite Hres.
        eapply bind_Ok. { reflexivity. }
        eapply bind_Ok. { reflexivity. }
        eapply bind_Ok. { unfold write_sbt. norm. rewrite B2. reflexivity. }
        reflexivity. }
      norm. eapply bind_Ok. { reflexivity. }
      reflexivity.
    + eapply bind_Ok.
      { unfold applyProgramVarsCommon.
        eapply bind_Ok. { reflexivity. }
        norm. rewrite Hres. reflexivity. }
      norm. eapply bind_Ok. { reflexivity. }
      reflexivity.
Qed.

Lemma for_return_scan (body : Z -> M State (option bool)) okf callf v w L :
  forall n i0,
  (forall i d b sz cs, i0 <= i < i0 + Z.of_nat n -> List.length d = L ->
     exists d' b' sz', List.length d' = L /\
       body i (mid v w d b sz cs) = Ok (flag (okf i), mid v w d' b' sz' (cs ++ callf i))) ->
  forall d b sz cs, List.length d = L ->
    exists d' b' sz', List.length d' = L /\
      for_return n i0 body (mid v w d b sz cs)
      = Ok (flag (fst (scan n i0 okf callf)),
            mid v w d' b' sz' (cs ++ snd (scan n i0 okf callf))).
Proof.
  induction n as [|n IH]; intros i0 Hbody d b sz cs HL.
  - exists d, b, sz. split; [exact HL|]. simpl. unfold ret. rewrite app_nil_r. reflexivity.
  - destruct (Hbody i0 d b sz cs ltac:(lia) HL) as (d1 & b1 & sz1 & L1 & E1).
    cbn [for_return scan]. unfold bind. rewrite E1.
    destruct (okf i0); cbn [flag fst snd].
    + destruct (IH (i0 + 1)
                  ltac:(intros i d2 b2 sz2 cs2 Hi HL2; apply Hbody; [lia | exact HL2])
                  d1 b1 sz1 (cs ++ callf i0) L1) as (d' & b' & sz' & L' & E').
      exists d', b', sz'. split; [exact L'|]. rewrite E', app_assoc. reflexivity.
    + exists d1, b1, sz1. split; [exact L1|]. reflexivity.
Qed.

(** *** Sequences cut at the first failure *)

Lemma until_failure_app l1 l2 :
  until_failure (l1 ++ l2)
  = if forallb call_ok l1 then l1 ++ until_failure l2 else until_failure l1.
Proof.
  induction l1 as [|c l1 IH]; simpl.
  - reflexivity.
  - destruct (call_ok c); simpl; [rewrite IH; destruct (forallb call_ok l1)|]; reflexivity.
Qed.

Lemma scan_single okf c n : forall i,
  (forall j, okf j = call_ok (c j)) ->
  scan n i okf (fun j => [c j])
  = (forallb call_ok (map c (zseq i n)), until_failure (map c (zseq i n))).
Proof.
  induction n as [|n IH]; intros i Hok; simpl.
  - reflexivity.
  - rewrite Hok. destruct (call_ok (c i)); simpl; [rewrite IH by assumption|]; reflexivity.
Qed.

Lemma scan_nested (l : Z -> list Call) okf callf n : forall i,
  (forall j, okf j = forallb call_ok (l j)) ->
  (forall j, callf j = until_failure (l j)) ->
  scan n i okf callf
  = (forallb call_ok (flat_map l (zseq i n)), until_failure (flat_map l (zseq i n))).
Proof.
  induction n as [|n IH]; intros i Hok Hcall; simpl.
  - reflexivity.
  - rewrite Hok, Hcall, forallb_app, until_failure_app.
    destruct (forallb call_ok (l i)) eqn:E; simpl.
    + rewrite IH by assumption. simpl.
      replace (until_failure (l i)) with (l i); [reflexivity|].
      clear - E. induction (l i) as [|c t IHt]; simpl in *; [reflexivity|].
      apply andb_true_iff in E. destruct E as [-> Et]. rewrite <- IHt by assumption.
      reflexivity.
    + reflexivity.
Qed.

Lemma zseq_In i n j : In j (zseq i n) <-> i <= j < i + Z.of_nat n.
Proof.
  revert i. induction n as [|n IH]; intros i; simpl.
  - lia.
  - rewrite IH. lia.
Qed.

Lemma zrange_In n j : 0 <= n -> (In j (zrange n) <-> 0 <= j < n).
Proof. intros Hn. unfold zrange. rewrite zseq_In. lia. Qed.

(** *** The binding variables of the object [init] built *)

Lemma nth_error_make_vars n : forall id rs i,
  (i < n)%nat ->
  nth_error (make_vars n id rs) i = Some (Some (mkGraphicsVars (id + i) rs)).
Proof.
  induction n as [|n IH]; intros id rs i Hi; [lia|].
  destruct i as [|i]; simpl.
  - rewrite Nat.add_0_r. reflexivity.
  - rewrite IH by lia. rewrite <- plus_n_Sm. reflexivity.
Qed.

Lemma nth_error_make_hit_rows progs g : forall id h pr,
  nth_error progs h = Some pr ->
  nth_error (make_hit_rows progs g id) h
  = Some (make_vars g (id + h * g) (getRootSignature (getActiveVersion pr))).
Proof.
  induction progs as [|q progs IH]; intros id h pr Hn.
  - destruct h; discriminate.
  - destruct h as [|h]; simpl in *.
    + injection Hn as ->. rewrite Nat.add_0_r. reflexivity.
    + rewrite (IH _ _ _ Hn), Nat.add_assoc. reflexivity.
Qed.

Lemma nth_error_make_miss_vars progs : forall id m pr,
  nth_error progs m = Some pr ->
  nth_error (make_miss_vars progs id) m
  = Some (Some (mkGraphicsVars (id + m) (getRootSignature (getActiveVersion pr)))).
Proof.
  induction progs as [|q progs IH]; intros id m pr Hn.
  - destruct m; discriminate.
  - destruct m as [|m]; simpl in *.
    + injection Hn as ->. rewrite Nat.add_0_r. reflexivity.
    + rewrite (IH _ _ _ Hn). rewrite <- plus_n_Sm. reflexivity.
Qed.

Lemma visited_nth (l : list Prog) n i :
  (i < n)%nat -> (n <= List.length l)%nat ->
  exists pr, nth_error l i = Some pr /\ nth_error (firstn n l) i = Some pr /\
             In pr (firstn n l).
Proof.
  intros Hi Hn.
  destruct (nth_error l i) as [pr|] eqn:E.
  - exists pr. split; [reflexivity|].
    assert (E' : nth_error (firstn n l) i = Some pr).
    { rewrite nth_error_firstn. destruct (Nat.ltb_spec i n); [exact E | lia]. }
    split; [exact E' | exact (nth_error_In _ _ E')].
  - apply nth_error_None in E. lia.
Qed.

Lemma getHitProgram_visited p h :
  0 <= h < getHitProgramCount p ->
  exists pr, getHitProgram p h = Some pr /\
             nth_error (visitedHit p) (Z.to_nat h) = Some pr /\ In pr (visitedHit p).
Proof.
  intros Hh. unfold getHitProgram, visitedHit.
  apply visited_nth; [lia | apply of_size_le].
Qed.

Lemma getMissProgram_visited p m :
  0 <= m < getMissProgramCount p ->
  exists pr, getMissProgram p m = Some pr /\
             nth_error (visitedMiss p) (Z.to_nat m) = Some pr /\ In pr (visitedMiss p).
Proof.
  intros Hm. unfold getMissProgram, visitedMiss.
  apply visited_nth; [lia | apply of_size_le].
Qed.

Lemma built_hit_vars plat p a rayGen w0 h i :
  0 <= h < getHitProgramCount p ->
  0 <= i < geometryCountIn w0 a (getHitProgramCount p) ->
  exists gv, getHitVarsAt (this (built plat p a rayGen w0)) h i = Some gv.
Proof.
  intros Hh Hi. destruct (getHitProgram_visited p h Hh) as (pr & _ & Hn & _).
  unfold getHitVarsAt, built. norm.
  rewrite (nth_error_make_hit_rows _ _ _ _ _ Hn), nth_error_make_vars by lia.
  eexists. reflexivity.
Qed.

Lemma built_miss_vars plat p a rayGen w0 m :
  0 <= m < getMissProgramCount p ->
  exists gv, getMissVarsAt (this (built plat p a rayGen w0)) m = Some gv.
Proof.
  intros Hm. destruct (getMissProgram_visited p m Hm) as (pr & _ & Hn & _).
  unfold getMissVarsAt, built. norm.
  rewrite (nth_error_make_miss_vars _ _ _ _ Hn).
  eexists. reflexivity.
Qed.

(* ================================================================= *)
(** ** One run of [apply] on the object [init] built *)

Section ApplyRun.

Variables (plat : Platform) (p : RtProgram) (a : nat) (rayGen : Prog).
Variables (w0 w : World) (rtso : RtStateObject).

Let H := getHitProgramCount p.
Let Mi := getMissProgramCount p.
Let G := geometryCountIn w0 a H.
Let G' := geometryCountIn w a H.
Let rs := recordSizeOf plat rayGen p.
Let idSize := GetShaderIdentifierSize plat.
Let v := this (built plat p a rayGen w0).
Let L := List.length (mSbtData v).

Hypothesis Hrg : getRayGenProgram p = Some rayGen.
Hypothesis Hnz : rs <> 0.
Hypothesis Hfits : layout_fits plat rayGen p G.

Lemma H_range : 0 <= H < U32.modulus.
Proof. apply of_size_range. Qed.

Lemma Mi_range : 0 <= Mi < U32.modulus.
Proof. apply of_size_range. Qed.

Lemma G_range : 0 <= G < U32.modulus.
Proof. apply geometryCountIn_range. Qed.

Lemma G'_range : 0 <= G' < U32.modulus.
Proof. apply geometryCountIn_range. Qed.

Lemma idSize_range : 0 <= idSize < U32.modulus.
Proof. apply wrap_range. Qed.

Lemma rs_pos : 0 < rs.
Proof. pose proof (recordSizeOf_range plat rayGen p). fold rs in H0. lia. Qed.

Lemma rs_exact :
  rs = alignUp (idSize + maxRootSigSizeOf rayGen p) (shaderRecordByteAlignment plat).
Proof.
  destruct Hfits as ((HA0 & HA1) & Hsum & _).
  pose proof idSize_range. fold idSize in Hsum.
  pose proof (running_max_range (rayGen :: visitedHit p ++ visitedMiss p) 0
                ltac:(rewrite modulus_val; lia)) as Hmax.
  fold (maxRootSigSizeOf rayGen p) in Hmax.
  unfold rs, recordSizeOf. fold idSize. unfold U32.add.
  rewrite wrap_small by lia. apply align_to_exact; lia.
Qed.

(** Identifier and parameter block of any program fit one record. *)
Lemma record_holds pr :
  In pr (rayGen :: visitedHit p ++ visitedMiss p) -> idSize + sigSize pr <= rs.
Proof.
  intros Hin. destruct Hfits as ((HA0 & _) & _ & _).
  pose proof (running_max_ge _ 0 _ Hin) as Hle. fold (maxRootSigSizeOf rayGen p) in Hle.
  rewrite rs_exact.
  pose proof (alignUp_bounds (idSize + maxRootSigSizeOf rayGen p)
                (shaderRecordByteAlignment plat) HA0). lia.
Qed.

Lemma table_fits_G : table_fits Mi H G rs.
Proof. destruct Hfits as (_ & _ & Ht). exact Ht. Qed.

Lemma staging_length : Z.of_nat L = Spec.totalRecords Mi H G * rs.
Proof.
  pose proof H_range. pose proof Mi_range. pose proof G_range. pose proof rs_pos.
  destruct (built_members plat p a rayGen w0) as (_ & _ & _ & _ & _ & _ & _ & _ & HD).
  unfold L, v. rewrite HD.
  destruct (numEntries_exact Mi H G rs) as [_ Hs]; try lia; [exact table_fits_G|].
  exact Hs.
Qed.

Lemma v_members :
  mpProgram v = Some p /\ mpScene v = Some a /\ mHitProgCount v = H /\ mMissProgCount v = Mi /\
  mFirstHitVarEntry v = U32.add kFirstMissSbtRecordIndex Mi /\
  mProgramIdentifierSize v = idSize /\ mRecordSize v = rs.
Proof.
  destruct (built_members plat p a rayGen w0) as (E1 & E2 & E3 & E4 & E5 & E6 & E7 & _).
  repeat split; assumption.
Qed.

(** Members other than the staging bytes are those of [v] all along. *)
Lemma mid_members d b sz cs :
  let u := this (mid v w d b sz cs) in
  mpProgram u = Some p /\ mpScene u = Some a /\ mHitProgCount u = H /\ mMissProgCount u = Mi /\
  mFirstHitVarEntry u = U32.add kFirstMissSbtRecordIndex Mi /\
  mProgramIdentifierSize u = idSize /\ mRecordSize u = rs /\
  mSbtData u = d /\ mRayGenVars u = mRayGenVars v /\ mpSBT u = mpSBT v /\
  (forall h i, getHitVarsAt u h i = getHitVarsAt v h i) /\
  (forall m, getMissVarsAt u m = getMissVarsAt v m).
Proof.
  destruct v_members as (E1 & E2 & E3 & E4 & E5 & E6 & E7).
  unfold mid. norm. repeat split; assumption || reflexivity.
Qed.

Lemma apply_hit_record_spec h i d b sz cs :
  0 <= h < H -> 0 <= i < G -> List.length d = L ->
  exists d' b' sz', List.length d' = L /\
    apply_hit_record rtso p idSize h i (mid v w d b sz cs)
    = Ok (flag (varsResolved w (getHitVarsAt v h i)),
          mid v w d' b' sz' (cs ++ [hitCall v w h i])).
Proof.
  intros Hh Hi HL.
  pose proof Mi_range as HMi. pose proof rs_pos as Hrs. pose proof idSize_range as Hid.
  pose proof table_fits_G as Ht. pose proof staging_length as HLen.
  destruct (mid_members d b sz cs) as (E1 & E2 & E3 & E4 & E5 & E6 & E7 & E8 & _ & _ & E9 & _).
  destruct v_members as (V1 & _ & V3 & V4 & _ & _ & V7).
  destruct (getHitProgram_visited p h Hh) as (pr & Hpr & _ & Hin).
  destruct (built_hit_vars plat p a rayGen w0 h i Hh Hi) as (gv & Hgv).
  fold v in Hgv.
  assert (Hoff : U32.mul (U32.add (U32.add (U32.add kFirstMissSbtRecordIndex Mi)
                                     (U32.mul H i)) h) rs
                 = Spec.hitOffset rs Mi H h i)
    by (apply (hitOffset_exact Mi H G); lia || assumption).
  assert (Hin' : In pr (rayGen :: visitedHit p ++ visitedMiss p))
    by (right; apply in_or_app; left; exact Hin).
  pose proof (record_holds pr Hin') as Hrec.
  assert (Hb : 0 <= Spec.hitOffset rs Mi H h i /\
               Spec.hitOffset rs Mi H h i + rs <= Z.of_nat (List.length d)).
  { rewrite HL, HLen. unfold Spec.hitOffset, Spec.firstHitIndex, Spec.firstMissIndex,
      Spec.totalRecords.
    assert (H * i + h + 1 <= H * G) by nia.
    assert (0 <= H * i) by nia.
    split; [nia|].
    replace ((1 + Mi + H * i + h) * rs + rs) with ((1 + Mi + H * i + h + 1) * rs) by ring.
    apply Z.mul_le_mono_nonneg_r; lia. }
  destruct (applyRtProgramVars_spec (Spec.hitOffset rs Mi H h i) (getActiveVersion pr) rtso
              idSize gv RtVarsContext_create v w d b sz cs) as (d' & Ld' & Eap); try lia.
  { unfold sigSize in Hrec. lia. }
  exists d', (Spec.hitOffset rs Mi H h i + idSize),
    (getSizeInBytes (getRootSignature (getActiveVersion pr))).
  split; [congruence|].
  unfold apply_hit_record.
  eapply bind_Ok.
  { rewrite getHitRecordPtr_eq, E3, E5, E7.
    destruct (Z.ltb_spec h H); [|lia]. rewrite Hoff. reflexivity. }
  rewrite Hpr. eapply bind_Ok. { reflexivity. }
  eapply bind_Ok. { unfold member, gets. rewrite E9, Hgv. reflexivity. }
  eapply bind_Ok. { reflexivity. }
  eapply bind_Ok. { exact Eap. }
  unfold hitCall, programOf. rewrite V1, V3, V4, V7. cbv beta iota. rewrite Hpr, Hgv. cbn [exportNameOf varsId varsResolved].
  destruct (resolved (wBindings w (gvId gv))); reflexivity.
Qed.

Lemma apply_miss_record_spec m d b sz cs :
  0 <= m < Mi -> List.length d = L ->
  exists d' b' sz', List.length d' = L /\
    apply_miss_record rtso p idSize m (mid v w d b sz cs)
    = Ok (flag (varsResolved w (getMissVarsAt v m)),
          mid v w d' b' sz' (cs ++ [missCall v w m])).
Proof.
  intros Hm HL.
  pose proof H_range as HH. pose proof G_range as HG.
  pose proof rs_pos as Hrs. pose proof idSize_range as Hid.
  pose proof table_fits_G as Ht. pose proof staging_length as HLen.
  destruct (mid_members d b sz cs) as (E1 & E2 & E3 & E4 & E5 & E6 & E7 & E8 & _ & _ & _ & E9).
  destruct v_members as (V1 & _ & V3 & V4 & _ & _ & V7).
  destruct (getMissProgram_visited p m Hm) as (pr & Hpr & _ & Hin).
  destruct (built_miss_vars plat p a rayGen w0 m Hm) as (gv & Hgv). fold v in Hgv.
  assert (Hoff : U32.mul rs (U32.add kFirstMissSbtRecordIndex m) = Spec.missOffset rs m)
    by (apply (missOffset_exact Mi H G); lia || assumption).
  assert (Hin' : In pr (rayGen :: visitedHit p ++ visitedMiss p))
    by (right; apply in_or_app; right; exact Hin).
  pose proof (record_holds pr Hin') as Hrec.
  assert (Hb : 0 <= Spec.missOffset rs m /\
               Spec.missOffset rs m + rs <= Z.of_nat (List.length d)).
  { rewrite HL, HLen. unfold Spec.missOffset, Spec.firstMissIndex, Spec.totalRecords.
    assert (0 <= H * G) by nia.
    split; [nia|].
    replace ((1 + m) * rs + rs) with ((1 + m + 1) * rs) by ring.
    apply Z.mul_le_mono_nonneg_r; lia. }
  destruct (applyRtProgramVars_spec (Spec.missOffset rs m) (getActiveVersion pr) rtso
              idSize gv RtVarsContext_create v w d b sz cs) as (d' & Ld' & Eap); try lia.
  { unfold sigSize in Hrec. lia. }
  exists d', (Spec.missOffset rs m + idSize),
    (getSizeInBytes (getRootSignature (getActiveVersion pr))).
  split; [congruence|].
  unfold apply_miss_record.
  eapply bind_Ok.
  { rewrite getMissRecordPtr_eq, E4, E7.
    destruct (Z.ltb_spec m Mi); [|lia]. rewrite Hoff. reflexivity. }
  rewrite Hpr. eapply bind_Ok. { reflexivity. }
  eapply bind_Ok. { unfold member, gets. rewrite E9, Hgv. reflexivity. }
  eapply bind_Ok. { reflexivity. }
  eapply bind_Ok. { exact Eap. }
  unfold missCall, programOf. rewrite V1, V7. cbv beta iota. rewrite Hpr, Hgv. cbn [exportNameOf varsId varsResolved].
  destruct (resolved (wBindings w (gvId gv))); reflexivity.
Qed.

(** The inner loop of [apply] for hit program [h]. *)
Lemma apply_hit_program_spec h d b sz cs :
  0 <= h < H -> G' <= G -> List.length d = L ->
  exists d' b' sz', List.length d' = L /\
    apply_hit_program rtso p idSize H h (mid v w d b sz cs)
    = Ok (flag (forallb call_ok (map (hitCall v w h) (zrange G'))),
          mid v w d' b' sz' (cs ++ until_failure (map (hitCall v w h) (zrange G')))).
Proof.
  intros Hh Hle HL. pose proof G'_range as HG'.
  destruct (mid_members d b sz cs) as (_ & E2 & _).
  destruct (for_return_scan (apply_hit_record rtso p idSize h)
              (fun i => varsResolved w (getHitVarsAt v h i))
              (fun i => [hitCall v w h i]) v w L (Z.to_nat G') 0
              ltac:(intros i d1 b1 sz1 cs1 Hi HL1;
                    apply apply_hit_record_spec; lia || assumption)
              d b sz cs HL) as (d' & b' & sz' & L' & E').
  rewrite scan_single in E' by reflexivity. cbn [fst snd] in E'.
  exists d', b', sz'. split; [exact L'|].
  unfold apply_hit_program. eapply bind_Ok; [|exact E'].
  unfold scene_getGeometryCount. rewrite E2. reflexivity.
Qed.

Lemma apply_hit_loop_spec d b sz cs :
  G' <= G -> List.length d = L ->
  exists d' b' sz', List.length d' = L /\
    for_return (Z.to_nat H) 0 (apply_hit_program rtso p idSize H) (mid v w d b sz cs)
    = Ok (flag (forallb call_ok (hitCalls v w G')),
          mid v w d' b' sz' (cs ++ until_failure (hitCalls v w G'))).
Proof.
  intros Hle HL. pose proof H_range as HH.
  destruct v_members as (_ & _ & V3 & _).
  destruct (for_return_scan (apply_hit_program rtso p idSize H)
              (fun h => forallb call_ok (map (hitCall v w h) (zrange G')))
              (fun h => until_failure (map (hitCall v w h) (zrange G'))) v w L
              (Z.to_nat H) 0
              ltac:(intros h d1 b1 sz1 cs1 Hh HL1;
                    apply apply_hit_program_spec; lia || assumption)
              d b sz cs HL) as (d' & b' & sz' & L' & E').
  rewrite (scan_nested (fun h => map (hitCall v w h) (zrange G'))) in E'
    by reflexivity.
  cbn [fst snd] in E'.
  exists d', b', sz'. split; [exact L'|].
  unfold hitCalls. rewrite V3. exact E'.
Qed.

Lemma apply_miss_loop_spec d b sz cs :
  List.length d = L ->
  exists d' b' sz', List.length d' = L /\
    for_return (Z.to_nat Mi) 0 (apply_miss_record rtso p idSize) (mid v w d b sz cs)
    = Ok (flag (forallb call_ok (missCalls v w)),
          mid v w d' b' sz' (cs ++ until_failure (missCalls v w))).
Proof.
  intros HL. pose proof Mi_range as HMi.
  destruct v_members as (_ & _ & _ & V4 & _).
  destruct (for_return_scan (apply_miss_record rtso p idSize)
              (fun m => varsResolved w (getMissVarsAt v m))
              (fun m => [missCall v w m]) v w L (Z.to_nat Mi) 0
              ltac:(intros m d1 b1 sz1 cs1 Hm HL1;
                    apply apply_miss_record_spec; lia || assumption)
              d b sz cs HL) as (d' & b' & sz' & L' & E').
  rewrite scan_single in E' by reflexivity. cbn [fst snd] in E'.
  exists d', b', sz'. split; [exact L'|].
  unfold missCalls. rewrite V4. exact E'.
Qed.

Lemma apply_rayGen_spec d b sz cs :
  List.length d = L ->
  exists d' b' sz', List.length d' = L /\
    applyRtProgramVars 0 (getActiveVersion rayGen) rtso idSize (mRayGenVars v)
      (mpRtVarsHelper v) (mid v w d b sz cs)
    = Ok (varsResolved w (mRayGenVars v), mid v w d' b' sz' (cs ++ [rayGenCall v w])).
Proof.
  intros HL.
  pose proof H_range as HH. pose proof G_range as HG. pose proof Mi_range as HMi.
  pose proof rs_pos as Hrs. pose proof idSize_range as Hid.
  pose proof staging_length as HLen.
  destruct v_members as (V1 & _).
  pose proof (record_holds rayGen ltac:(left; reflexivity)) as Hrec.
  assert (Hgv : exists gv, mRayGenVars v = Some gv) by (eexists; reflexivity).
  destruct Hgv as (gv & Hgv).
  destruct (applyRtProgramVars_spec 0 (getActiveVersion rayGen) rtso idSize gv
              RtVarsContext_create v w d b sz cs)
    as (d' & Ld' & Eap); try lia.
  { rewrite HL, HLen. unfold Spec.totalRecords. unfold sigSize in Hrec.
    assert (0 <= H * G) by nia. nia. }
  exists d', (0 + idSize), (getSizeInBytes (getRootSignature (getActiveVersion rayGen))).
  split; [congruence|].
  unfold rayGenCall, programOf. rewrite V1. cbv beta iota. rewrite Hrg, Hgv. exact Eap.
Qed.

Lemma until_failure_all_ok l : forallb call_ok l = true -> until_failure l = l.
Proof.
  induction l as [|c l IH]; simpl; intros E; [reflexivity|].
  apply andb_true_iff in E. destruct E as [-> E]. rewrite IH by assumption. reflexivity.
Qed.

Lemma updateBuffer_spec bf d b sz cs :
  Z.of_nat (List.length d) = getSize bf ->
  updateBuffer (Some bf) (mid v w d b sz cs)
  = Ok (tt, mkState (set_mSbtData d v)
              (set_wCalls (cs ++ [CallUpdateBuffer (bufId bf)])
                 (set_wGpu (fun id => if Nat.eqb id (bufId bf)
                                      then firstn (Z.to_nat (getSize bf)) d
                                      else wGpu w id)
                    (set_wRootParams b sz w)))).
Proof.
  intros Hsize. unfold updateBuffer.
  eapply bind_Ok. { reflexivity. }
  unfold mid. step.
  destruct (Z.ltb_spec (Z.of_nat (List.length d)) (getSize bf)); [lia|].
  reflexivity.
Qed.

(** [apply] on the object [init] built, in a later world [w] whose scene
    reports no more geometry than at [init]. *)
Lemma apply_spec :
  G' <= G ->
  exists st',
    apply rtso (mkState v w) = Ok (expected_result v w G', st') /\
    wCalls (world st') = wCalls w ++ expected_calls v w G' /\
    List.length (mSbtData (this st')) = L /\
    (expected_result v w G' = false -> wGpu (world st') = wGpu w) /\
    (expected_result v w G' = true ->
     wGpu (world st') (bufferId (mpSBT v)) = mSbtData (this st')).
Proof.
  intros Hle. rewrite mid_start.
  set (d0 := mSbtData v). set (b0 := wRootParams w). set (sz0 := wRootParamsSize w).
  set (cs0 := wCalls w).
  destruct (mid_members d0 b0 sz0 cs0) as (E1 & _ & _ & _ & _ & E6 & E7 & _ & E9 & _).
  destruct (apply_rayGen_spec d0 b0 sz0 cs0 eq_refl) as (d1 & b1 & sz1 & L1 & R1).
  destruct (apply_hit_loop_spec d1 b1 sz1 (cs0 ++ [rayGenCall v w]) Hle L1)
    as (d2 & b2 & sz2 & L2 & R2).
  destruct (apply_miss_loop_spec d2 b2 sz2
              ((cs0 ++ [rayGenCall v w]) ++ until_failure (hitCalls v w G')) L2)
    as (d3 & b3 & sz3 & L3 & R3).
  destruct (mid_members d3 b3 sz3
              (((cs0 ++ [rayGenCall v w]) ++ until_failure (hitCalls v w G'))
                 ++ until_failure (missCalls v w)))
    as (_ & _ & _ & _ & _ & _ & _ & _ & _ & E10 & _).
  destruct (built_members plat p a rayGen w0) as (_ & _ & _ & _ & _ & _ & _ & HB & HD).
  fold v in HB, HD. fold L in HD.
  assert (Run : apply rtso (mid v w d0 b0 sz0 cs0)
                = match flag (forallb call_ok (hitCalls v w G')) with
                  | Some b => Ok (b, mid v w d2 b2 sz2
                                       ((cs0 ++ [rayGenCall v w])
                                          ++ until_failure (hitCalls v w G')))
                  | None =>
                      match flag (forallb call_ok (missCalls v w)) with
                      | Some b =>
                          Ok (b, mid v w d3 b3 sz3
                                   (((cs0 ++ [rayGenCall v w])
                                       ++ until_failure (hitCalls v w G'))
                                      ++ until_failure (missCalls v w)))
                      | None =>
                          (pSBT <- member mpSBT ;; updateBuffer pSBT ;;; ret true)
                            (mid v w d3 b3 sz3
                               (((cs0 ++ [rayGenCall v w])
                                   ++ until_failure (hitCalls v w G'))
                                  ++ until_failure (missCalls v w)))
                      end
                  end).
  { unfold apply.
    eapply bind_Ok. { rewrite getRayGenRecordPtr_eq, E7. reflexivity. }
    step. rewrite E1. step. step. rewrite E6.
    rewrite Hrg. eapply bind_Ok. { reflexivity. }
    step. rewrite E9. step.
    replace (U32.mul kRayGenSbtRecordIndex rs) with 0 by reflexivity.
    eapply bind_Ok. { exact R1. }
    eapply bind_Ok. { exact R2. }
    destruct (flag (forallb call_ok (hitCalls v w G'))); [reflexivity|].
    eapply bind_Ok. { exact R3. }
    destruct (flag (forallb call_ok (missCalls v w))); reflexivity. }
  rewrite Run. clear Run.
  unfold expected_calls, expected_result.
  rewrite forallb_app, until_failure_app.
  destruct (forallb call_ok (hitCalls v w G')) eqn:EH; cbn [flag andb].
  - destruct (forallb call_ok (missCalls v w)) eqn:EM; cbn [flag].
    + eexists. split; [|split; [|split; [|split]]].
      * step. rewrite E10, HB.
        eapply bind_Ok. { apply updateBuffer_spec. cbn [getSize]. rewrite L3. exact HD. }
        reflexivity.
      * norm. rewrite (until_failure_all_ok _ EM), (until_failure_all_ok _ EH), HB.
        rewrite <- !app_assoc. reflexivity.
      * norm. exact L3.
      * discriminate.
      * intros _. norm. cbn [bufferId bufId getSize]. rewrite Nat.eqb_refl.
        apply firstn_all2. rewrite <- HD in *. lia.
    + eexists. split; [reflexivity|]. unfold mid. norm.
      split; [|split; [|split]].
      * rewrite app_nil_r, (until_failure_all_ok _ EH), <- !app_assoc. reflexivity.
      * exact L3.
      * reflexivity.
      * discriminate.
  - eexists. split; [reflexivity|]. unfold mid. norm.
    split; [|split; [|split]].
    + rewrite app_nil_r, <- !app_assoc. reflexivity.
    + exact L2.
    + reflexivity.
    + discriminate.
Qed.

(** *** More geometry at [apply] than at [init] *)





End ApplyRun.

(** *** Where the records of [apply] lie *)



Lemma until_failure_incl l c : In c (until_failure l) -> In c l.
Proof.
  induction l as [|x l IH]; simpl; [tauto|].
  destruct (call_ok x); simpl; intros [E|Hin]; auto; contradiction.
Qed.

Lemma hitCalls_In v w g c :
  0 <= g -> 0 <= mHitProgCount v ->
  In c (hitCalls v w g) ->
  exists h i, 0 <= h < mHitProgCount v /\ 0 <= i < g /\ c = hitCall v w h i.
Proof.
  intros Hg HH Hin. unfold hitCalls in Hin.
  apply in_flat_map in Hin. destruct Hin as (h & Hh & Hin).
  apply in_map_iff in Hin. destruct Hin as (i & <- & Hi).
  apply zrange_In in Hh; [|assumption]. apply zrange_In in Hi; [|assumption].
  exists h, i. auto.
Qed.

Lemma missCalls_In v w c :
  0 <= mMissProgCount v ->
  In c (missCalls v w) ->
  exists m, 0 <= m < mMissProgCount v /\ c = missCall v w m.
Proof.
  intros HM Hin. unfold missCalls in Hin.
  apply in_map_iff in Hin. destruct Hin as (m & <- & Hm).
  apply zrange_In in Hm; [|assumption]. exists m. auto.
Qed.

Lemma hitCalls_In_intro v w g h i :
  0 <= h < mHitProgCount v -> 0 <= i < g -> In (hitCall v w h i) (hitCalls v w g).
Proof.
  intros Hh Hi. unfold hitCalls. apply in_flat_map. exists h. split.
  - apply zrange_In; lia.
  - apply in_map. apply zrange_In; lia.
Qed.

Lemma missCalls_In_intro v w m :
  0 <= m < mMissProgCount v -> In (missCall v w m) (missCalls v w).
Proof. intros Hm. unfold missCalls. apply in_map. apply zrange_In; lia. Qed.

Lemma forallb_false_intro (l : list Call) c :
  In c l -> call_ok c = false -> forallb call_ok l = false.
Proof.
  intros Hin Hc. destruct (forallb call_ok l) eqn:E; [|reflexivity].
  rewrite forallb_forall in E. rewrite (E c Hin) in Hc. discriminate.
Qed.

(** No upload among the calls of a failed [apply]. *)
Lemma failed_calls_no_upload v w g buf :
  0 <= g -> 0 <= mHitProgCount v -> 0 <= mMissProgCount v ->
  expected_result v w g = false ->
  ~ In (CallUpdateBuffer buf) (expected_calls v w g).
Proof.
  intros Hg HH HM Hres Hin. unfold expected_calls in Hin. rewrite Hres, app_nil_r in Hin.
  destruct Hin as [E|Hin]; [discriminate|].
  apply until_failure_incl, in_app_or in Hin. destruct Hin as [Hin|Hin].
  - destruct (hitCalls_In _ _ _ _ Hg HH Hin) as (h & i & _ & _ & E). discriminate.
  - destruct (missCalls_In _ _ _ HM Hin) as (m & _ & E). discriminate.
Qed.

(** What [init] leaves is the object of the closed form. *)
Lemma init_built plat p a rayGen w0 st :
  getRayGenProgram p = Some rayGen ->
  init plat (constructed p a w0) = Ok (true, st) ->
  recordSizeOf plat rayGen p <> 0 /\ st = built plat p a rayGen w0.
Proof.
  intros Hrg E. destruct (init_inv _ _ _ _ _ _ E) as (rayGen' & Hrg' & Hnz & _ & ->).
  assert (rayGen' = rayGen) by congruence. subst. auto.
Qed.



(** C4. The scenario of the spec with the ray-gen bindings unresolved and
    every other binding resolving: the ray-gen record is applied first and
    fails, its result is dropped, and [apply] uploads the table and returns
    true. *)
Theorem apply_ignores_rayGen_failure :
  let w := Scenario.world0 3 (Unresolved.unresolved_at 0) in
  varsResolved w (mRayGenVars (this Unresolved.built3)) = false /\
  exists st',
    apply Scenario.rtso (mkState (this Unresolved.built3) w) = Ok (true, st') /\
    wCalls (world st')
    = [CallApplyRecord 0 "rayGen" 0 false;
       CallApplyRecord 256 "hit0" 1 true;
       CallApplyRecord 384 "hit0" 2 true;
       CallApplyRecord 512 "hit0" 3 true;
       CallApplyRecord 128 "miss0" 4 true;
       CallUpdateBuffer 0].
Proof.
  intros w. split; [reflexivity|].
  eexists. split.
  - vm_compute. reflexivity.
  - vm_compute. reflexivity.
Qed.

(** The accessors do reject a program index out of range. *)
Lemma accessors_reject_program_indices st missId hitId meshId :
  (mMissProgCount (this st) <= missId ->
   getMissRecordPtr missId st = AssertFailed "missId < mMissProgCount") /\
  (mHitProgCount (this st) <= hitId ->
   getHitRecordPtr hitId meshId st = AssertFailed "hitId < mHitProgCount").
Proof.
  split; intros Hle.
  - rewrite getMissRecordPtr_eq. destruct (Z.ltb_spec missId (mMissProgCount (this st))).
    + lia.
    + reflexivity.
  - rewrite getHitRecordPtr_eq. destruct (Z.ltb_spec hitId (mHitProgCount (this st))).
    + lia.
    + reflexivity.
Qed.

(** C6. The scenario of the spec has 3 geometry instances and a staging
    vector of 640 bytes.  [getHitRecordPtr] takes geometry index 3 without
    any assertion and returns offset 640, the end of the vector; it takes
    geometry index 1000 as well. *)
Theorem getHitRecordPtr_unchecked_geometry :
  let st := Unresolved.built3 in
  geometryCountIn (Scenario.world0 3 Scenario.all_resolved) 0
    (getHitProgramCount Scenario.program) = 3 /\
  Z.of_nat (List.length (mSbtData (this st))) = 640 /\
  getHitRecordPtr 0 3 st = Ok (640, st) /\
  getHitRecordPtr 0 1000 st = Ok (128256, st).
Proof.
  intros st. repeat split; vm_compute; reflexivity.
Qed.

(* ================================================================= *)
(** ** A failed [apply] never reaches the GPU, whatever the object *)

Lemma bind_inv {S A B} (m : M S A) (k : A -> M S B) s r :
  bind m k s = Ok r -> exists a s', m s = Ok (a, s') /\ k a s' = Ok r.
Proof.
  unfold bind. destruct (m s) as [[a s']| |]; intros E; try discriminate.
  exists a, s'. auto.
Qed.

Lemma quiet_refl st : quiet st st.
Proof.
  split; [reflexivity|]. exists []. rewrite app_nil_r. split; [reflexivity|].
  intros buf [].
Qed.

Lemma quiet_trans st1 st2 st3 : quiet st1 st2 -> quiet st2 st3 -> quiet st1 st3.
Proof.
  intros (G1 & c1 & C1 & N1) (G2 & c2 & C2 & N2). split; [congruence|].
  exists (c1 ++ c2). split.
  - rewrite C2, C1, app_assoc. reflexivity.
  - intros buf Hin. apply in_app_or in Hin. destruct Hin; [eapply N1 | eapply N2]; eauto.
Qed.

Lemma quiet_same_world st st' : world st' = world st -> quiet st st'.
Proof. intros E. unfold quiet. rewrite E. apply quiet_refl. Qed.

Tactic Notation "binv" hyp(E) "as" ident(a) ident(s) ident(E1) :=
  apply bind_inv in E; destruct E as (a & s & E1 & E).

Lemma write_sbt_quiet off n src st u st' :
  write_sbt off n src st = Ok (u, st') -> quiet st st'.
Proof.
  unfold write_sbt. destruct (in_bounds (mSbtData (this st)) off n); [|discriminate].
  intros E. injection E as _ <-. apply quiet_same_world. reflexivity.
Qed.

Lemma deref_inv {S A} (o : option A) what (s : S) a s' :
  deref o what s = Ok (a, s') -> o = Some a /\ s' = s.
Proof.
  destruct o; unfold deref, ret, undefined; intros E; [|discriminate].
  injection E as <- <-. auto.
Qed.

Lemma applyProgramVarsCommon_quiet pVars st ok st' :
  applyProgramVarsCommon pVars st = Ok (ok, st') -> quiet st st'.
Proof.
  unfold applyProgramVarsCommon. intros E.
  binv E as vs s0 E0. unfold gets in E0. injection E0 as <- <-.
  destruct (resolved (wBindings (world st) (gvId pVars))).
  - binv E as base s1 E1. unfold gets in E1. injection E1 as <- <-.
    binv E as size s2 E2. unfold gets in E2. injection E2 as <- <-.
    binv E as u s3 E3. apply write_sbt_quiet in E3.
    unfold ret in E. injection E as _ <-. exact E3.
  - unfold ret in E. injection E as _ <-. apply quiet_refl.
Qed.

Lemma applyRtProgramVars_quiet pRecord pv rtso progIdSize pVars pContext st ok st' :
  applyRtProgramVars pRecord pv rtso progIdSize pVars pContext st = Ok (ok, st') ->
  quiet st st'.
Proof.
  unfold applyRtProgramVars, memcpy. intros E.
  binv E as u1 s1 E1. apply write_sbt_quiet in E1.
  binv E as ctx s0 E0. apply deref_inv in E0. destruct E0 as [_ ->].
  binv E as u2 s2 E2.
  assert (Q2 : quiet s1 s2).
  { unfold liftW, setRootParams, modify in E2. injection E2 as _ <-.
    split; [reflexivity|]. exists []. rewrite app_nil_r. split; [reflexivity | intros ? []]. }
  binv E as vars s3 E3. apply deref_inv in E3. destruct E3 as [_ ->].
  binv E as ok' s4 E4. apply applyProgramVarsCommon_quiet in E4.
  binv E as u5 s5 E5. unfold record_call, modify in E5. injection E5 as _ <-.
  unfold ret in E. injection E as _ <-.
  eapply quiet_trans; [exact E1|]. eapply quiet_trans; [exact Q2|].
  eapply quiet_trans; [exact E4|].
  split; [reflexivity|]. eexists. split; [reflexivity|].
  intros buf [Hc|[]]. discriminate.
Qed.

Lemma for_return_quiet (body : Z -> M State (option bool)) :
  (forall i st r st', body i st = Ok (r, st') -> quiet st st') ->
  forall n i st r st', for_return n i body st = Ok (r, st') -> quiet st st'.
Proof.
  intros Hbody. induction n as [|n IH]; intros i st r st' E.
  - unfold for_return, ret in E. injection E as _ <-. apply quiet_refl.
  - cbn [for_return] in E. binv E as r1 s1 E1. apply Hbody in E1.
    destruct r1 as [x|].
    + unfold ret in E. injection E as _ <-. exact E1.
    + eapply quiet_trans; [exact E1 | exact (IH _ _ _ _ E)].
Qed.

(** One record of a loop of [apply]: the pointer, the program, the binding
    variables, the application. *)
Lemma record_step_quiet (ptr : M State Z) (prog : option Prog) what
    (vars : RtProgramVars -> option GraphicsVars) rtso progIdSize st r st' :
  (forall st o st', ptr st = Ok (o, st') -> st' = st) ->
  (pRecord <- ptr ;;
   pr <- deref prog what ;;
   pVars <- member vars ;;
   pContext <- member mpRtVarsHelper ;;
   ok <- applyRtProgramVars pRecord (getActiveVersion pr) rtso progIdSize pVars pContext ;;
   if negb ok then ret (Some false) else ret None) st = Ok (r, st') ->
  quiet st st'.
Proof.
  intros Hptr E. binv E as o s1 E1. apply Hptr in E1. subst s1.
  binv E as pr s2 E2. apply deref_inv in E2. destruct E2 as [_ ->].
  binv E as pVars s3 E3. unfold member, gets in E3. injection E3 as _ <-.
  binv E as pContext s5 E5. unfold member, gets in E5. injection E5 as _ <-.
  binv E as ok s4 E4. apply applyRtProgramVars_quiet in E4.
  destruct (negb ok); unfold ret in E; injection E as _ <-; exact E4.
Qed.

Lemma getHitRecordPtr_pure h i st o st' : getHitRecordPtr h i st = Ok (o, st') -> st' = st.
Proof.
  rewrite getHitRecordPtr_eq. destruct (h <? mHitProgCount (this st)); [|discriminate].
  intros E. injection E as _ <-. reflexivity.
Qed.

Lemma getMissRecordPtr_pure m st o st' : getMissRecordPtr m st = Ok (o, st') -> st' = st.
Proof.
  rewrite getMissRecordPtr_eq. destruct (m <? mMissProgCount (this st)); [|discriminate].
  intros E. injection E as _ <-. reflexivity.
Qed.

Lemma scene_getGeometryCount_pure n st g st' :
  scene_getGeometryCount n st = Ok (g, st') -> st' = st.
Proof.
  unfold scene_getGeometryCount. destruct (mpScene (this st)); [|discriminate].
  intros E. injection E as _ <-. reflexivity.
Qed.

(** Whatever the object and the world: when [apply] returns false, no GPU
    buffer has changed and no upload was called. *)
Lemma apply_false_quiet rtso st st' :
  apply rtso st = Ok (false, st') -> quiet st st'.
Proof.
  unfold apply. intros E.
  binv E as o s1 E1. rewrite getRayGenRecordPtr_eq in E1. injection E1 as _ <-.
  binv E as pProgramPtr s2 E2. unfold member, gets in E2. injection E2 as <- <-.
  binv E as pProgram s2' E2'. apply deref_inv in E2'. destruct E2' as [_ ->].
  binv E as progIdSize s3 E3. unfold member, gets in E3. injection E3 as <- <-.
  binv E as rayGen s4 E4. apply deref_inv in E4. destruct E4 as [_ ->].
  binv E as rayGenVars s5 E5. unfold member, gets in E5. injection E5 as <- <-.
  binv E as pContext s5' E5'. unfold member, gets in E5'. injection E5' as <- <-.
  binv E as ok s6 E6. apply applyRtProgramVars_quiet in E6.
  binv E as r1 s7 E7.
  assert (Q1 : quiet s6 s7).
  { eapply for_return_quiet; [|exact E7].
    intros h st1 r st1' Eh. unfold apply_hit_program in Eh.
    binv Eh as g s8 E8. apply scene_getGeometryCount_pure in E8. subst s8.
    eapply for_return_quiet; [|exact Eh].
    intros i st2 r2 st2' Ei. unfold apply_hit_record in Ei.
    eapply record_step_quiet; [|exact Ei]. intros ? ? ?. apply getHitRecordPtr_pure. }
  destruct r1 as [b|].
  - unfold ret in E. injection E as _ <-.
    eapply quiet_trans; [exact E6 | exact Q1].
  - binv E as r2 s8 E8.
    assert (Q2 : quiet s7 s8).
    { eapply for_return_quiet; [|exact E8].
      intros m st1 r st1' Em. unfold apply_miss_record in Em.
      eapply record_step_quiet; [|exact Em]. intros ? ? ?. apply getMissRecordPtr_pure. }
    destruct r2 as [b|].
    + unfold ret in E. injection E as _ <-.
      eapply quiet_trans; [exact E6|]. eapply quiet_trans; [exact Q1 | exact Q2].
    + binv E as pSBT s9 E9. binv E as u s10 E10. unfold ret in E. discriminate.
Qed.

(** C5. When the bindings of some hit record or miss record that [apply]
    visits do not resolve, [apply] returns false, having made no upload
    call and left every GPU buffer as it was.  Indeed no run of [apply]
    that returns false, on any object in any world, has uploaded
    anything. *)
Theorem apply_failure_uploads_nothing plat p a rayGen w0 w rtso st :
  getRayGenProgram p = Some rayGen ->
  init plat (constructed p a w0) = Ok (true, st) ->
  layout_fits plat rayGen p (geometryCountIn w0 a (getHitProgramCount p)) ->
  geometryCountIn w a (getHitProgramCount p)
    <= geometryCountIn w0 a (getHitProgramCount p) ->
  let v := this st in
  let g := geometryCountIn w a (getHitProgramCount p) in
  (exists h i, 0 <= h < getHitProgramCount p /\ 0 <= i < g /\
               varsResolved w (getHitVarsAt v h i) = false) \/
  (exists m, 0 <= m < getMissProgramCount p /\
             varsResolved w (getMissVarsAt v m) = false) ->
  (exists st', apply rtso (mkState v w) = Ok (false, st') /\
               quiet (mkState v w) st') /\
  (forall st1 st1', apply rtso st1 = Ok (false, st1') -> quiet st1 st1').
Proof.
  intros Hrg E Hfits Hle v g Hfail.
  split; [|intros st1 st1'; apply apply_false_quiet].
  destruct (init_built _ _ _ _ _ _ Hrg E) as (Hnz & Hst). subst st.
  destruct (built_members plat p a rayGen w0) as (_ & _ & HH & HM & _).
  fold v in HH, HM.
  assert (Hres : expected_result v w g = false).
  { unfold expected_result. destruct Hfail as [(h & i & Hh & Hi & Hf) | (m & Hm & Hf)].
    - apply (forallb_false_intro _ (hitCall v w h i)); [|exact Hf].
      apply in_or_app. left. apply hitCalls_In_intro; [rewrite HH|]; assumption.
    - apply (forallb_false_intro _ (missCall v w m)); [|exact Hf].
      apply in_or_app. right. apply missCalls_In_intro. rewrite HM. assumption. }
  destruct (apply_spec plat p a rayGen w0 w rtso Hrg Hnz Hfits Hle) as (st' & Hrun & _).
  fold v g in Hrun. rewrite Hres in Hrun.
  exists st'. split; [exact Hrun | exact (apply_false_quiet _ _ _ Hrun)].
Qed.

(** The spec's scenario with the bindings of hit record (0, 1)
    unresolved. *)
Lemma apply_failure_uploads_nothing_witness :
  exists st',
    apply Scenario.rtso
      (mkState (this Unresolved.built3)
         (Scenario.world0 3 (Unresolved.unresolved_at 2)))
    = Ok (false, st') /\
    quiet (mkState (this Unresolved.built3)
             (Scenario.world0 3 (Unresolved.unresolved_at 2))) st'.
Proof.
  assert (E : init Scenario.plat
                (constructed Scenario.program 0 (Scenario.world0 3 Scenario.all_resolved))
              = Ok (true, Unresolved.built3)) by (vm_compute; reflexivity).
  assert (F : layout_fits Scenario.plat (Scenario.prog 16 "rayGen") Scenario.program
                (geometryCountIn (Scenario.world0 3 Scenario.all_resolved) 0
                   (getHitProgramCount Scenario.program)))
    by (vm_compute; repeat split; reflexivity).
  assert (G : geometryCountIn (Scenario.world0 3 (Unresolved.unresolved_at 2)) 0
                (getHitProgramCount Scenario.program)
              <= geometryCountIn (Scenario.world0 3 Scenario.all_resolved) 0
                   (getHitProgramCount Scenario.program))
    by (vm_compute; discriminate).
  apply (apply_failure_uploads_nothing Scenario.plat Scenario.program 0
           (Scenario.prog 16 "rayGen") (Scenario.world0 3 Scenario.all_resolved)
           (Scenario.world0 3 (Unresolved.unresolved_at 2)) Scenario.rtso
           Unresolved.built3 eq_refl E F G).
  left. exists 0, 1. vm_compute. repeat split; congruence.
Defined.

(** *** The 32-bit computations are the integer ones modulo 2^32 *)

Lemma wrap_add_l a b : U32.wrap (U32.wrap a + b) = U32.wrap (a + b).
Proof. unfold U32.wrap. apply Z.add_mod_idemp_l. rewrite modulus_val. lia. Qed.

Lemma wrap_add_r a b : U32.wrap (a + U32.wrap b) = U32.wrap (a + b).
Proof. unfold U32.wrap. apply Z.add_mod_idemp_r. rewrite modulus_val. lia. Qed.

Lemma wrap_mul_l a b : U32.wrap (U32.wrap a * b) = U32.wrap (a * b).
Proof. unfold U32.wrap. apply Z.mul_mod_idemp_l. rewrite modulus_val. lia. Qed.

Lemma wrap_mul_r a b : U32.wrap (a * U32.wrap b) = U32.wrap (a * b).
Proof. unfold U32.wrap. apply Z.mul_mod_idemp_r. rewrite modulus_val. lia. Qed.

Lemma missOffset_modular rs missId :
  U32.mul rs (U32.add kFirstMissSbtRecordIndex missId)
  = U32.wrap (Spec.missOffset rs missId).
Proof.
  unfold U32.mul, U32.add, Spec.missOffset, Spec.firstMissIndex, kFirstMissSbtRecordIndex.
  rewrite wrap_mul_r. f_equal. ring.
Qed.

Lemma hitOffset_modular Mi H rs hitId geomId :
  U32.mul (U32.add (U32.add (U32.add kFirstMissSbtRecordIndex Mi) (U32.mul H geomId)) hitId) rs
  = U32.wrap (Spec.hitOffset rs Mi H hitId geomId).
Proof.
  unfold U32.mul, U32.add, Spec.hitOffset, Spec.firstHitIndex, Spec.firstMissIndex,
    kFirstMissSbtRecordIndex.
  rewrite <- (wrap_mul_l (1 + Mi + H * geomId + hitId) rs). do 2 f_equal.
  rewrite wrap_add_l.
  replace (U32.wrap (1 + Mi) + U32.wrap (H * geomId) + hitId)
    with (U32.wrap (1 + Mi) + (U32.wrap (H * geomId) + hitId)) by ring.
  rewrite wrap_add_l.
  replace (1 + Mi + (U32.wrap (H * geomId) + hitId))
    with (U32.wrap (H * geomId) + (1 + Mi + hitId)) by ring.
  rewrite wrap_add_l. f_equal. ring.
Qed.

Lemma tableSize_modular Mi H G rs :
  U32.mul (numEntriesOf Mi H G) rs = U32.wrap (Spec.totalRecords Mi H G * rs).
Proof.
  unfold U32.mul, numEntriesOf, hitEntriesOf, U32.mul, U32.add, Spec.totalRecords.
  rewrite <- (wrap_mul_l (1 + Mi + H * G) rs). do 2 f_equal.
  rewrite wrap_add_l.
  replace (Mi + U32.wrap (G * H) + 1) with (U32.wrap (G * H) + (Mi + 1)) by ring.
  rewrite wrap_add_l. f_equal. ring.
Qed.

(** The accessors on any table: the offsets of the spec modulo 2^32. *)
Lemma accessor_offsets_modular plat p a w st :
  init plat (constructed p a w) = Ok (true, st) ->
  let Mi := getMissProgramCount p in
  let H := getHitProgramCount p in
  let rs := mRecordSize (this st) in
  getRayGenRecordPtr st = Ok (Spec.rayGenOffset, st) /\
  (forall missId, missId < Mi ->
     getMissRecordPtr missId st = Ok (U32.wrap (Spec.missOffset rs missId), st)) /\
  (forall hitId geomId, hitId < H ->
     getHitRecordPtr hitId geomId st
     = Ok (U32.wrap (Spec.hitOffset rs Mi H hitId geomId), st)).
Proof.
  intros E Mi H rs.
  destruct (init_inv _ _ _ _ _ _ E) as (rayGen & Hrg & Hnz & _ & ->).
  destruct (built_members plat p a rayGen w) as (_ & _ & HH & HMi & HF & _ & HR & _).
  split; [|split].
  - rewrite getRayGenRecordPtr_eq. reflexivity.
  - intros missId Hm. rewrite getMissRecordPtr_eq, HMi.
    destruct (Z.ltb_spec missId (getMissProgramCount p)); [|unfold Mi in *; lia].
    rewrite missOffset_modular. reflexivity.
  - intros hitId geomId Hh. rewrite getHitRecordPtr_eq, HH, HF.
    destruct (Z.ltb_spec hitId (getHitProgramCount p)); [|unfold H in *; lia].
    rewrite hitOffset_modular. reflexivity.
Qed.

(** C1, amended. The accessors of the object [init] built return the
    offsets of the spec modulo 2^32: 0 for the ray-gen record,
    [(1 + missId) * recordSize] for a valid miss index, and
    [(1 + missProgramCount + hitProgramCount * geomId + hitId) * recordSize]
    for a valid pair.  When the table fits 32-bit offsets these are the
    offsets of the spec exactly. *)
Theorem accessors_at_spec_offsets_when_fits plat p a w st :
  init plat (constructed p a w) = Ok (true, st) ->
  let Mi := getMissProgramCount p in
  let H := getHitProgramCount p in
  let G := geometryCountIn w a H in
  let rs := mRecordSize (this st) in
  (getRayGenRecordPtr st = Ok (Spec.rayGenOffset, st) /\
   (forall missId, 0 <= missId < Mi ->
      getMissRecordPtr missId st = Ok (U32.wrap (Spec.missOffset rs missId), st)) /\
   (forall hitId geomId, 0 <= hitId < H -> 0 <= geomId < G ->
      getHitRecordPtr hitId geomId st
      = Ok (U32.wrap (Spec.hitOffset rs Mi H hitId geomId), st))) /\
  (table_fits Mi H G rs ->
   getRayGenRecordPtr st = Ok (Spec.rayGenOffset, st) /\
   (forall missId, 0 <= missId < Mi ->
      getMissRecordPtr missId st = Ok (Spec.missOffset rs missId, st)) /\
   (forall hitId geomId, 0 <= hitId < H -> 0 <= geomId < G ->
      getHitRecordPtr hitId geomId st = Ok (Spec.hitOffset rs Mi H hitId geomId, st))).
Proof.
  intros E Mi H G rs. split.
  - destruct (accessor_offsets_modular plat p a w st E) as (Hr & Hm & Hh).
    split; [exact Hr | split].
    + intros missId Hmi. apply Hm. apply Hmi.
    + intros hitId geomId Hhi _. apply Hh. apply Hhi.
  - intros Hfit. exact (accessor_offsets plat p a w st E Hfit).
Qed.

(** The offsets of the spec's scenario: 0, 128 and 512. *)
Lemma accessors_at_spec_offsets_witness :
  let st := built Scenario.plat Scenario.program 0 (Scenario.prog 16 "rayGen")
              (Scenario.world0 3 Scenario.all_resolved) in
  getRayGenRecordPtr st = Ok (0, st) /\
  getMissRecordPtr 0 st = Ok (128, st) /\
  getHitRecordPtr 0 2 st = Ok (512, st).
Proof.
  intros st.
  assert (E : init Scenario.plat
                (constructed Scenario.program 0 (Scenario.world0 3 Scenario.all_resolved))
              = Ok (true, st)) by (vm_compute; reflexivity).
  assert (F : table_fits (getMissProgramCount Scenario.program)
                (getHitProgramCount Scenario.program)
                (geometryCountIn (Scenario.world0 3 Scenario.all_resolved) 0
                   (getHitProgramCount Scenario.program))
                (mRecordSize (this st))) by (vm_compute; reflexivity).
  destruct (proj2 (accessors_at_spec_offsets_when_fits _ _ _ _ _ E) F) as (Hr & Hm & Hh).
  split; [exact Hr | split].
  - apply (Hm 0). vm_compute. split; congruence.
  - apply (Hh 0 2); vm_compute; split; congruence.
Defined.

(** C3, amended. [init] counts [1 + Mi + H * G] records and gives the GPU
    buffer and the staging vector [totalRecords * recordSize] bytes each,
    all modulo 2^32; when the table fits 32-bit offsets, exactly. *)
Theorem table_size_when_fits plat p a w st :
  init plat (constructed p a w) = Ok (true, st) ->
  let Mi := getMissProgramCount p in
  let H := getHitProgramCount p in
  let G := geometryCountIn w a H in
  let rs := mRecordSize (this st) in
  (numEntriesOf Mi H G = U32.wrap (Spec.totalRecords Mi H G) /\
   (exists sbt, mpSBT (this st) = Some sbt /\
                getSize sbt = U32.wrap (Spec.totalRecords Mi H G * rs)) /\
   Z.of_nat (List.length (mSbtData (this st)))
   = U32.wrap (Spec.totalRecords Mi H G * rs)) /\
  (table_fits Mi H G rs ->
   numEntriesOf Mi H G = Spec.totalRecords Mi H G /\
   (exists sbt, mpSBT (this st) = Some sbt /\
                getSize sbt = Spec.totalRecords Mi H G * rs) /\
   Z.of_nat (List.length (mSbtData (this st))) = Spec.totalRecords Mi H G * rs).
Proof.
  intros E Mi H G rs.
  destruct (init_inv _ _ _ _ _ _ E) as (rayGen & Hrg & Hnz & _ & ->).
  destruct (built_members plat p a rayGen w) as (_ & _ & _ & _ & _ & _ & HR & HB & HD).
  pose proof (recordSizeOf_range plat rayGen p) as Hrs.
  pose proof (of_size_range (List.length (hitPrograms p))) as HHr.
  pose proof (of_size_range (List.length (missPrograms p))) as HMr.
  pose proof (geometryCountIn_range w a H) as HGr.
  fold (getHitProgramCount p) in HHr. fold (getMissProgramCount p) in HMr.
  assert (Hpos : 0 < rs) by (unfold rs; rewrite HR; lia).
  split.
  - split; [|split].
    + unfold numEntriesOf, hitEntriesOf, U32.add, U32.mul, Spec.totalRecords.
      rewrite wrap_add_l.
      replace (Mi + U32.wrap (G * H) + 1) with (U32.wrap (G * H) + (Mi + 1)) by ring.
      rewrite wrap_add_l. f_equal. ring.
    + eexists. split; [exact HB|]. cbn [getSize]. rewrite <- HR. apply tableSize_modular.
    + rewrite HD, <- HR. apply tableSize_modular.
  - intros Hfit.
    destruct (numEntries_exact Mi H G rs) as [Hn Hs]; try (unfold Mi, H, G; lia); auto.
    split; [exact Hn | split].
    + eexists. split; [exact HB|]. cbn [getSize]. rewrite <- HR. exact Hs.
    + rewrite HD, <- HR. exact Hs.
Qed.

(** The spec's scenario: 5 records, 640 bytes. *)
Lemma table_size_when_fits_witness :
  let st := built Scenario.plat Scenario.program 0 (Scenario.prog 16 "rayGen")
              (Scenario.world0 3 Scenario.all_resolved) in
  numEntriesOf 1 1 3 = 5 /\
  (exists sbt, mpSBT (this st) = Some sbt /\ getSize sbt = 640) /\
  Z.of_nat (List.length (mSbtData (this st))) = 640.
Proof.
  intros st.
  assert (E : init Scenario.plat
                (constructed Scenario.program 0 (Scenario.world0 3 Scenario.all_resolved))
              = Ok (true, st)) by (vm_compute; reflexivity).
  assert (F : table_fits (getMissProgramCount Scenario.program)
                (getHitProgramCount Scenario.program)
                (geometryCountIn (Scenario.world0 3 Scenario.all_resolved) 0
                   (getHitProgramCount Scenario.program))
                (mRecordSize (this st))) by (vm_compute; reflexivity).
  exact (proj2 (table_size_when_fits _ _ _ _ _ E) F).
Defined.

(* ================================================================= *)
(** ** [create] is safe *)


Lemma recordSizeOf_exact plat rayGen p :
  alignment_ok plat ->
  GetShaderIdentifierSize plat + maxRootSigSizeOf rayGen p
    + shaderRecordByteAlignment plat - 1 < U32.modulus ->
  recordSizeOf plat rayGen p
  = alignUp (GetShaderIdentifierSize plat + maxRootSigSizeOf rayGen p)
      (shaderRecordByteAlignment plat).
Proof.
  intros (HA0 & HA1) Hsum.
  pose proof (wrap_range (deviceShaderIdentifierSize plat)) as Hid.
  fold (GetShaderIdentifierSize plat) in Hid.
  pose proof (running_max_range (rayGen :: visitedHit p ++ visitedMiss p) 0
                ltac:(rewrite modulus_val; lia)) as Hmax.
  fold (maxRootSigSizeOf rayGen p) in Hmax.
  unfold recordSizeOf, U32.add. rewrite wrap_small by lia.
  apply align_to_exact; lia.
Qed.

(** X2. With a scene, a ray-gen program, and an identifier or some root
    signature that is not empty, and sizes that fit 32 bits, [create]
    returns an object: the assertion on the record size cannot fire. *)
Theorem create_succeeds plat p a rayGen w :
  getRayGenProgram p = Some rayGen ->
  alignment_ok plat ->
  GetShaderIdentifierSize plat + maxRootSigSizeOf rayGen p
    + shaderRecordByteAlignment plat - 1 < U32.modulus ->
  0 < GetShaderIdentifierSize plat + maxRootSigSizeOf rayGen p ->
  exists v w',
    create plat (Some p) (Some a) w = Ok (Some v, w') /\
    init plat (constructed p a w) = Ok (true, mkState v w') /\
    GetShaderIdentifierSize plat + maxRootSigSizeOf rayGen p <= mRecordSize v.
Proof.
  intros Hrg HA Hsum Hpos.
  pose proof (recordSizeOf_exact plat rayGen p HA Hsum) as Hrs.
  pose proof (alignUp_bounds (GetShaderIdentifierSize plat + maxRootSigSizeOf rayGen p)
                (shaderRecordByteAlignment plat) (proj1 HA)) as Hb.
  assert (Hnz : (recordSizeOf plat rayGen p =? 0) = false) by (apply Z.eqb_neq; lia).
  exists (this (built plat p a rayGen w)), (world (built plat p a rayGen w)).
  split; [|split].
  - rewrite (create_spec _ _ _ _ _ Hrg), Hnz. reflexivity.
  - unfold constructed. rewrite (init_spec _ _ _ _ _ Hrg), Hnz.
    destruct (built plat p a rayGen w). reflexivity.
  - destruct (built_members plat p a rayGen w) as (_ & _ & _ & _ & _ & _ & HR & _).
    rewrite HR. lia.
Qed.

(** The scenario of the spec. *)
Lemma create_succeeds_witness :
  exists v w',
    create Scenario.plat (Some Scenario.program) (Some 0%nat)
      (Scenario.world0 3 Scenario.all_resolved) = Ok (Some v, w') /\
    96 <= mRecordSize v.
Proof.
  assert (HA : alignment_ok Scenario.plat) by (vm_compute; split; reflexivity).
  pose proof (create_succeeds Scenario.plat Scenario.program 0%nat
                (Scenario.prog 16 "rayGen")
                (Scenario.world0 3 Scenario.all_resolved) eq_refl HA eq_refl eq_refl)
    as (v & w' & Hc & _ & Hr).
  exists v, w'. split; [exact Hc | exact Hr].
Defined.

(* ================================================================= *)
(** ** The records tile the staging buffer *)

Lemma slotIndex_range H Mi G s :
  0 <= H -> 0 <= Mi -> 0 <= G -> slot_valid H Mi G s ->
  0 <= slotIndex H Mi s < Spec.totalRecords Mi H G.
Proof.
  intros HH HMi HG Hs. unfold Spec.totalRecords, kFirstMissSbtRecordIndex.
  destruct s as [|h i|m]; cbn [slotIndex slot_valid] in *;
    unfold kRayGenSbtRecordIndex, kFirstMissSbtRecordIndex.
  - assert (0 <= H * G) by nia. lia.
  - destruct Hs as (Hh & Hi).
    assert (H * i + h + 1 <= H * G) by nia.
    assert (0 <= H * i) by nia. lia.
  - assert (0 <= H * G) by nia. lia.
Qed.

Lemma slotIndex_inj H Mi G s1 s2 :
  0 <= Mi -> slot_valid H Mi G s1 -> slot_valid H Mi G s2 ->
  slotIndex H Mi s1 = slotIndex H Mi s2 -> s1 = s2.
Proof.
  destruct s1 as [|h1 i1|m1], s2 as [|h2 i2|m2]; cbn [slotIndex slot_valid];
    unfold kRayGenSbtRecordIndex, kFirstMissSbtRecordIndex; intros HMi V1 V2 E;
    try reflexivity.
  - destruct V2 as (Hh & Hi). assert (0 <= H * i2) by nia. lia.
  - lia.
  - destruct V1 as (Hh & Hi). assert (0 <= H * i1) by nia. lia.
  - destruct V1 as (Hh1 & Hi1), V2 as (Hh2 & Hi2).
    assert (i1 = i2) by nia. subst i2. f_equal. lia.
  - destruct V1 as (Hh & Hi). assert (0 <= H * i1) by nia. lia.
  - lia.
  - destruct V2 as (Hh & Hi). assert (0 <= H * i2) by nia. lia.
  - f_equal. lia.
Qed.

(** The accessor of a slot of the table returns the slot's index times the
    record size, and changes nothing. *)
Lemma slotRecordPtr_offset plat p a w st s :
  init plat (constructed p a w) = Ok (true, st) ->
  table_fits (getMissProgramCount p) (getHitProgramCount p)
    (geometryCountIn w a (getHitProgramCount p)) (mRecordSize (this st)) ->
  slot_valid (getHitProgramCount p) (getMissProgramCount p)
    (geometryCountIn w a (getHitProgramCount p)) s ->
  slotRecordPtr s st
  = Ok (slotIndex (getHitProgramCount p) (getMissProgramCount p) s * mRecordSize (this st), st).
Proof.
  intros E Hfit Hs.
  destruct (accessor_offsets plat p a w st E Hfit) as (Hr & Hm & Hh).
  destruct s as [|h i|m]; cbn [slotRecordPtr slotIndex slot_valid] in *.
  - rewrite Hr. reflexivity.
  - destruct Hs as (Hh1 & Hi1). rewrite (Hh h i Hh1 Hi1). reflexivity.
  - rewrite (Hm m Hs). reflexivity.
Qed.

Lemma built_table plat p a w st :
  init plat (constructed p a w) = Ok (true, st) ->
  table_fits (getMissProgramCount p) (getHitProgramCount p)
    (geometryCountIn w a (getHitProgramCount p)) (mRecordSize (this st)) ->
  0 <= getHitProgramCount p /\ 0 <= getMissProgramCount p /\
  0 <= geometryCountIn w a (getHitProgramCount p) /\
  0 < mRecordSize (this st) /\
  Z.of_nat (List.length (mSbtData (this st)))
  = Spec.totalRecords (getMissProgramCount p) (getHitProgramCount p)
      (geometryCountIn w a (getHitProgramCount p)) * mRecordSize (this st).
Proof.
  intros E Hfit.
  destruct (init_inv _ _ _ _ _ _ E) as (rayGen & Hrg & Hnz & _ & ->).
  destruct (built_members plat p a rayGen w) as (_ & _ & _ & _ & _ & _ & HR & _ & HL).
  pose proof (recordSizeOf_range plat rayGen p) as Hrs.
  pose proof (of_size_range (List.length (hitPrograms p))) as HHr.
  pose proof (of_size_range (List.length (missPrograms p))) as HMr.
  pose proof (geometryCountIn_range w a (getHitProgramCount p)) as HGr.
  fold (getHitProgramCount p) in HHr. fold (getMissProgramCount p) in HMr.
  rewrite HR in *.
  repeat (split; [lia|]).
  rewrite HL. apply numEntries_exact; try lia. exact Hfit.
Qed.

(** X3. On a table that fits 32-bit offsets, the accessors give every
    record of the table its own [mRecordSize] bytes of the staging buffer:
    the record of a slot lies inside the buffer, and the records of two
    different slots do not overlap. *)
Theorem records_disjoint plat p a w st s1 s2 :
  init plat (constructed p a w) = Ok (true, st) ->
  table_fits (getMissProgramCount p) (getHitProgramCount p)
    (geometryCountIn w a (getHitProgramCount p)) (mRecordSize (this st)) ->
  slot_valid (getHitProgramCount p) (getMissProgramCount p)
    (geometryCountIn w a (getHitProgramCount p)) s1 ->
  slot_valid (getHitProgramCount p) (getMissProgramCount p)
    (geometryCountIn w a (getHitProgramCount p)) s2 ->
  s1 <> s2 ->
  exists o1 o2,
    slotRecordPtr s1 st = Ok (o1, st) /\ slotRecordPtr s2 st = Ok (o2, st) /\
    0 <= o1 /\ o1 + mRecordSize (this st) <= Z.of_nat (List.length (mSbtData (this st))) /\
    0 <= o2 /\ o2 + mRecordSize (this st) <= Z.of_nat (List.length (mSbtData (this st))) /\
    (o1 + mRecordSize (this st) <= o2 \/ o2 + mRecordSize (this st) <= o1).
Proof.
  intros E Hfit V1 V2 Hne.
  destruct (built_table _ _ _ _ _ E Hfit) as (HH & HMi & HG & Hrs & HL).
  pose proof (slotIndex_range _ _ _ _ HH HMi HG V1) as R1.
  pose proof (slotIndex_range _ _ _ _ HH HMi HG V2) as R2.
  assert (Hd : slotIndex (getHitProgramCount p) (getMissProgramCount p) s1
               <> slotIndex (getHitProgramCount p) (getMissProgramCount p) s2)
    by (intros C; apply Hne; apply (slotIndex_inj _ _ _ _ _ HMi V1 V2 C)).
  eexists. eexists.
  split; [apply (slotRecordPtr_offset _ _ _ _ _ _ E Hfit V1)|].
  split; [apply (slotRecordPtr_offset _ _ _ _ _ _ E Hfit V2)|].
  rewrite HL. nia.
Qed.

(** Every record index of the table is the index of a slot. *)
Lemma slot_of_index H Mi G k :
  0 <= H -> 0 <= Mi -> 0 <= G -> 0 <= k < Spec.totalRecords Mi H G ->
  exists s, slot_valid H Mi G s /\ slotIndex H Mi s = k.
Proof.
  unfold Spec.totalRecords. intros HH HMi HG Hk.
  destruct (Z.eq_dec k 0) as [Hk0|Hk0].
  - exists RayGenSlot. split; [exact I | symmetry; exact Hk0].
  - destruct (Z_lt_le_dec k (1 + Mi)) as [Hlt|Hge].
    + exists (MissSlot (k - 1)). cbn [slot_valid slotIndex].
      unfold kFirstMissSbtRecordIndex. lia.
    + assert (HHpos : 0 < H) by nia.
      set (j := k - 1 - Mi) in *.
      pose proof (Z.div_mod j H ltac:(lia)) as Hj.
      pose proof (Z.mod_pos_bound j H HHpos) as Hjm.
      exists (HitSlot (j mod H) (j / H)). cbn [slot_valid slotIndex].
      unfold kFirstMissSbtRecordIndex.
      assert (0 <= j / H) by (apply Z.div_pos; lia).
      assert (j / H < G) by (apply Z.div_lt_upper_bound; lia).
      repeat split; lia.
Qed.

(** X4. On a table that fits 32-bit offsets, every byte of the staging
    buffer belongs to the record of some slot: the buffer is made of
    records only, with no gap between them and no tail after the last. *)
Theorem records_cover plat p a w st b :
  init plat (constructed p a w) = Ok (true, st) ->
  table_fits (getMissProgramCount p) (getHitProgramCount p)
    (geometryCountIn w a (getHitProgramCount p)) (mRecordSize (this st)) ->
  0 <= b < Z.of_nat (List.length (mSbtData (this st))) ->
  exists s o,
    slot_valid (getHitProgramCount p) (getMissProgramCount p)
      (geometryCountIn w a (getHitProgramCount p)) s /\
    slotRecordPtr s st = Ok (o, st) /\
    o <= b < o + mRecordSize (this st).
Proof.
  intros E Hfit Hb.
  destruct (built_table _ _ _ _ _ E Hfit) as (HH & HMi & HG & Hrs & HL).
  rewrite HL in Hb. unfold Spec.totalRecords in Hb.
  set (H := getHitProgramCount p) in *. set (Mi := getMissProgramCount p) in *.
  set (G := geometryCountIn w a H) in *. set (rs := mRecordSize (this st)) in *.
  pose proof (Z.div_mod b rs ltac:(lia)) as Hdm.
  pose proof (Z.mod_pos_bound b rs Hrs) as Hmod.
  set (k := b / rs) in *.
  assert (Hk : 0 <= k < 1 + Mi + H * G) by nia.
  assert (Hin : k * rs <= b < k * rs + rs) by nia.
  destruct (slot_of_index H Mi G k HH HMi HG Hk) as (s & Vs & Hidx).
  exists s, (k * rs). split; [exact Vs|]. split; [|exact Hin].
  rewrite (slotRecordPtr_offset _ _ _ _ _ _ E Hfit Vs).
  fold H Mi rs. rewrite Hidx. reflexivity.
Qed.

(** The hit record of the last geometry instance and the miss record of
    the scenario: 512 and 128, 128 bytes each, in a buffer of 640. *)
Lemma records_disjoint_witness :
  let st := built Scenario.plat Scenario.program 0 (Scenario.prog 16 "rayGen")
              (Scenario.world0 3 Scenario.all_resolved) in
  exists o1 o2,
    slotRecordPtr (HitSlot 0 2) st = Ok (o1, st) /\
    slotRecordPtr (MissSlot 0) st = Ok (o2, st) /\
    (o1 + 128 <= o2 \/ o2 + 128 <= o1).
Proof.
  intros st.
  assert (E : init Scenario.plat
                (constructed Scenario.program 0 (Scenario.world0 3 Scenario.all_resolved))
              = Ok (true, st)) by (vm_compute; reflexivity).
  assert (F : table_fits (getMissProgramCount Scenario.program)
                (getHitProgramCount Scenario.program)
                (geometryCountIn (Scenario.world0 3 Scenario.all_resolved) 0
                   (getHitProgramCount Scenario.program))
                (mRecordSize (this st))) by (vm_compute; reflexivity).
  assert (V1 : slot_valid (getHitProgramCount Scenario.program)
                 (getMissProgramCount Scenario.program)
                 (geometryCountIn (Scenario.world0 3 Scenario.all_resolved) 0
                    (getHitProgramCount Scenario.program)) (HitSlot 0 2))
    by (vm_compute; repeat split; congruence).
  assert (V2 : slot_valid (getHitProgramCount Scenario.program)
                 (getMissProgramCount Scenario.program)
                 (geometryCountIn (Scenario.world0 3 Scenario.all_resolved) 0
                    (getHitProgramCount Scenario.program)) (MissSlot 0))
    by (vm_compute; repeat split; congruence).
  destruct (records_disjoint _ _ _ _ _ _ _ E F V1 V2 ltac:(discriminate))
    as (o1 & o2 & H1 & H2 & _ & _ & _ & _ & Hd).
  exists o1, o2. split; [exact H1|]. split; [exact H2|]. exact Hd.
Defined.

(** Byte 300 of the scenario's staging buffer lies in a record. *)
Lemma records_cover_witness :
  let st := built Scenario.plat Scenario.program 0 (Scenario.prog 16 "rayGen")
              (Scenario.world0 3 Scenario.all_resolved) in
  exists s o, slotRecordPtr s st = Ok (o, st) /\ o <= 300 < o + 128.
Proof.
  intros st.
  assert (E : init Scenario.plat
                (constructed Scenario.program 0 (Scenario.world0 3 Scenario.all_resolved))
              = Ok (true, st)) by (vm_compute; reflexivity).
  assert (F : table_fits (getMissProgramCount Scenario.program)
                (getHitProgramCount Scenario.program)
                (geometryCountIn (Scenario.world0 3 Scenario.all_resolved) 0
                   (getHitProgramCount Scenario.program))
                (mRecordSize (this st))) by (vm_compute; reflexivity).
  assert (B : 0 <= 300 < Z.of_nat (List.length (mSbtData (this st))))
    by (vm_compute; split; congruence).
  destruct (records_cover _ _ _ _ _ 300 E F B) as (s & o & _ & Hp & Hin).
  exists s, o. split; [exact Hp | exact Hin].
Defined.

(* ================================================================= *)
(** ** The binding variables [init] creates *)

Lemma slotRank_range H Mi G s :
  0 <= H -> 0 <= Mi -> 0 <= G -> slot_valid H Mi G s ->
  0 <= slotRank H G s < Spec.totalRecords Mi H G.
Proof.
  intros HH HMi HG Hs. unfold Spec.totalRecords.
  destruct s as [|h i|m]; cbn [slotRank slot_valid] in *.
  - assert (0 <= H * G) by nia. lia.
  - destruct Hs as (Hh & Hi).
    assert (h * G + G <= H * G) by nia.
    assert (0 <= h * G) by nia. lia.
  - assert (0 <= H * G) by nia. lia.
Qed.

Lemma slotRank_inj H Mi G s1 s2 :
  0 <= H -> 0 <= G -> slot_valid H Mi G s1 -> slot_valid H Mi G s2 ->
  slotRank H G s1 = slotRank H G s2 -> s1 = s2.
Proof.
  destruct s1 as [|h1 i1|m1], s2 as [|h2 i2|m2]; cbn [slotRank slot_valid];
    intros HH HG V1 V2 E; try reflexivity.
  - destruct V2 as (Hh & Hi). assert (0 <= h2 * G) by nia. lia.
  - assert (0 <= H * G) by nia. lia.
  - destruct V1 as (Hh & Hi). assert (0 <= h1 * G) by nia. lia.
  - destruct V1 as (Hh1 & Hi1), V2 as (Hh2 & Hi2).
    assert (h1 = h2) by nia. subst h2. f_equal. lia.
  - destruct V1 as (Hh & Hi). assert (h1 * G + G <= H * G) by nia. lia.
  - assert (0 <= H * G) by nia. lia.
  - destruct V2 as (Hh & Hi). assert (h2 * G + G <= H * G) by nia. lia.
  - f_equal. lia.
Qed.

(** The binding variables of a slot of the object [init] built: those
    created at the slot's rank, for the root signature of its program. *)
Lemma built_slotVars plat p a rayGen w s :
  getRayGenProgram p = Some rayGen ->
  slot_valid (getHitProgramCount p) (getMissProgramCount p)
    (geometryCountIn w a (getHitProgramCount p)) s ->
  exists pr,
    slotProgram p s = Some pr /\
    slotVars (this (built plat p a rayGen w)) s
    = Some (mkGraphicsVars
              (wNextVars w + Z.to_nat (slotRank (getHitProgramCount p)
                                         (geometryCountIn w a (getHitProgramCount p)) s))
              (getRootSignature (getActiveVersion pr))).
Proof.
  intros Hrg Hs.
  destruct s as [|h i|m]; cbn [slotProgram slotVars slotRank slot_valid] in *.
  - exists rayGen. split; [exact Hrg|]. unfold built. norm.
    rewrite Nat.add_0_r. reflexivity.
  - destruct Hs as (Hh & Hi).
    destruct (getHitProgram_visited p h Hh) as (pr & Hp & Hn & _).
    exists pr. split; [exact Hp|].
    unfold getHitVarsAt, built. norm.
    rewrite (nth_error_make_hit_rows _ _ _ _ _ Hn), nth_error_make_vars by lia.
    do 2 f_equal.
    assert (0 <= h * geometryCountIn w a (getHitProgramCount p)) by nia.
    rewrite Z2Nat.inj_add, Z2Nat.inj_add, Z2Nat.inj_mul by lia.
    change (Z.to_nat 1) with 1%nat. lia.
  - destruct (getMissProgram_visited p m Hs) as (pr & Hp & Hn & _).
    exists pr. split; [exact Hp|].
    unfold getMissVarsAt, built. norm.
    rewrite (nth_error_make_miss_vars _ _ _ _ Hn), visitedHit_length.
    do 2 f_equal.
    pose proof (of_size_range (List.length (hitPrograms p))) as HHr.
    fold (getHitProgramCount p) in HHr.
    pose proof (geometryCountIn_range w a (getHitProgramCount p)) as HGr.
    assert (0 <= getHitProgramCount p * geometryCountIn w a (getHitProgramCount p)) by nia.
    rewrite Z2Nat.inj_add, Z2Nat.inj_add, Z2Nat.inj_mul by lia.
    change (Z.to_nat 1) with 1%nat. lia.
Qed.

Lemma built_wNextVars plat p a rayGen w :
  Z.of_nat (wNextVars (world (built plat p a rayGen w)))
  = Z.of_nat (wNextVars w)
    + Spec.totalRecords (getMissProgramCount p) (getHitProgramCount p)
        (geometryCountIn w a (getHitProgramCount p)).
Proof.
  pose proof (of_size_range (List.length (hitPrograms p))) as HHr.
  fold (getHitProgramCount p) in HHr.
  pose proof (of_size_range (List.length (missPrograms p))) as HMr.
  fold (getMissProgramCount p) in HMr.
  pose proof (geometryCountIn_range w a (getHitProgramCount p)) as HGr.
  unfold built, Spec.totalRecords. norm.
  rewrite visitedHit_length, visitedMiss_length.
  lia.
Qed.

(** X5. [init] gives every record of the table binding variables of its
    own program: the slot of a program holds a non-null variable set
    created for that program's root signature, created during this call
    (its identity is not one handed out before, and below the next one to
    hand out), and the call creates exactly one variable set per record,
    [1 + Mi + H * G] in all.  No size condition is needed. *)
Theorem init_creates_vars plat p a w st s :
  init plat (constructed p a w) = Ok (true, st) ->
  slot_valid (getHitProgramCount p) (getMissProgramCount p)
    (geometryCountIn w a (getHitProgramCount p)) s ->
  (exists pr gv,
     slotProgram p s = Some pr /\ slotVars (this st) s = Some gv /\
     gvRootSignature gv = getRootSignature (getActiveVersion pr) /\
     (wNextVars w <= gvId gv < wNextVars (world st))%nat) /\
  Z.of_nat (wNextVars (world st))
  = Z.of_nat (wNextVars w)
    + Spec.totalRecords (getMissProgramCount p) (getHitProgramCount p)
        (geometryCountIn w a (getHitProgramCount p)).
Proof.
  intros E Hs.
  destruct (init_inv _ _ _ _ _ _ E) as (rayGen & Hrg & _ & _ & ->).
  pose proof (built_wNextVars plat p a rayGen w) as Hn.
  split; [|exact Hn].
  destruct (built_slotVars plat p a rayGen w s Hrg Hs) as (pr & Hp & Hv).
  pose proof (of_size_range (List.length (hitPrograms p))) as HHr.
  fold (getHitProgramCount p) in HHr.
  pose proof (of_size_range (List.length (missPrograms p))) as HMr.
  fold (getMissProgramCount p) in HMr.
  pose proof (geometryCountIn_range w a (getHitProgramCount p)) as HGr.
  pose proof (slotRank_range _ _ _ _ (proj1 HHr) (proj1 HMr) (proj1 HGr) Hs) as Hr.
  eexists. eexists. split; [exact Hp|]. split; [exact Hv|].
  cbn [gvRootSignature gvId]. split; [reflexivity|]. lia.
Qed.

(** X6. No two records of the table share binding variables: the variable
    sets [init] stores for two different slots are different objects. *)
Theorem init_vars_distinct plat p a w st s1 s2 gv1 gv2 :
  init plat (constructed p a w) = Ok (true, st) ->
  slot_valid (getHitProgramCount p) (getMissProgramCount p)
    (geometryCountIn w a (getHitProgramCount p)) s1 ->
  slot_valid (getHitProgramCount p) (getMissProgramCount p)
    (geometryCountIn w a (getHitProgramCount p)) s2 ->
  s1 <> s2 ->
  slotVars (this st) s1 = Some gv1 ->
  slotVars (this st) s2 = Some gv2 ->
  gvId gv1 <> gvId gv2.
Proof.
  intros E V1 V2 Hne H1 H2.
  destruct (init_inv _ _ _ _ _ _ E) as (rayGen & Hrg & _ & _ & ->).
  destruct (built_slotVars plat p a rayGen w s1 Hrg V1) as (pr1 & _ & E1).
  destruct (built_slotVars plat p a rayGen w s2 Hrg V2) as (pr2 & _ & E2).
  rewrite E1 in H1. rewrite E2 in H2.
  injection H1 as <-. injection H2 as <-. cbn [gvId].
  pose proof (of_size_range (List.length (hitPrograms p))) as HHr.
  fold (getHitProgramCount p) in HHr.
  pose proof (of_size_range (List.length (missPrograms p))) as HMr.
  fold (getMissProgramCount p) in HMr.
  pose proof (geometryCountIn_range w a (getHitProgramCount p)) as HGr.
  pose proof (slotRank_range _ _ _ _ (proj1 HHr) (proj1 HMr) (proj1 HGr) V1) as R1.
  pose proof (slotRank_range _ _ _ _ (proj1 HHr) (proj1 HMr) (proj1 HGr) V2) as R2.
  intros C. apply Hne. apply (slotRank_inj _ _ _ _ _ (proj1 HHr) (proj1 HGr) V1 V2). lia.
Qed.

(** The hit record of the last geometry instance of the scenario. *)
Lemma init_creates_vars_witness :
  let w := Scenario.world0 3 Scenario.all_resolved in
  let st := built Scenario.plat Scenario.program 0 (Scenario.prog 16 "rayGen") w in
  (exists pr gv,
     slotProgram Scenario.program (HitSlot 0 2) = Some pr /\
     slotVars (this st) (HitSlot 0 2) = Some gv /\
     gvRootSignature gv = getRootSignature (getActiveVersion pr) /\
     (wNextVars w <= gvId gv < wNextVars (world st))%nat) /\
  Z.of_nat (wNextVars (world st)) = Z.of_nat (wNextVars w) + 5.
Proof.
  intros w st.
  assert (E : init Scenario.plat (constructed Scenario.program 0 w) = Ok (true, st))
    by (vm_compute; reflexivity).
  assert (V : slot_valid (getHitProgramCount Scenario.program)
                (getMissProgramCount Scenario.program)
                (geometryCountIn w 0 (getHitProgramCount Scenario.program)) (HitSlot 0 2))
    by (vm_compute; repeat split; congruence).
  exact (init_creates_vars Scenario.plat Scenario.program 0%nat w st (HitSlot 0 2) E V).
Defined.

(** The ray-gen record and the miss record of the scenario. *)
Lemma init_vars_distinct_witness :
  let w := Scenario.world0 3 Scenario.all_resolved in
  let st := built Scenario.plat Scenario.program 0 (Scenario.prog 16 "rayGen") w in
  let gv1 := mkGraphicsVars 0 (Scenario.rs 16) in
  let gv2 := mkGraphicsVars 4 (Scenario.rs 8) in
  slotVars (this st) RayGenSlot = Some gv1 /\
  slotVars (this st) (MissSlot 0) = Some gv2 /\
  gvId gv1 <> gvId gv2.
Proof.
  intros w st gv1 gv2.
  assert (E : init Scenario.plat (constructed Scenario.program 0 w) = Ok (true, st))
    by (vm_compute; reflexivity).
  assert (V : slot_valid (getHitProgramCount Scenario.program)
                (getMissProgramCount Scenario.program)
                (geometryCountIn w 0 (getHitProgramCount Scenario.program)) (MissSlot 0))
    by (vm_compute; repeat split; congruence).
  assert (H1 : slotVars (this st) RayGenSlot = Some gv1) by reflexivity.
  assert (H2 : slotVars (this st) (MissSlot 0) = Some gv2) by reflexivity.
  split; [exact H1|]. split; [exact H2|].
  exact (init_vars_distinct Scenario.plat Scenario.program 0%nat w st RayGenSlot (MissSlot 0)
           gv1 gv2 E I V ltac:(discriminate) H1 H2).
Defined.

(* ================================================================= *)
(** ** The contract of [getSigSizeAndCreateVars] *)

Lemma array_set_past {A} (a : list A) : forall i x,
  (List.length a <= i)%nat -> array_set a i x = None.
Proof.
  induction a as [|h t IH]; intros i x Hi; [reflexivity|].
  destruct i as [|i]; simpl in *; [lia|].
  rewrite IH by lia. reflexivity.
Qed.

(** The loop from any turn on, in an array longer than the cells to
    fill: the cells after them stay as they are. *)
Lemma fill_loop_tail pv tl : forall rest done id lg sc bd nb gpu rp rps calls,
  for_loop (List.length rest) (Z.of_nat (List.length done))
    (fun i pVars => v <- GraphicsVars_create pv ;; store pVars i (Some v))
    (done ++ rest ++ tl) (mkWorld lg sc id bd nb gpu rp rps calls)
  = Ok (done ++ make_vars (List.length rest) id (getRootSignature pv) ++ tl,
        mkWorld lg sc (id + List.length rest) bd nb gpu rp rps calls).
Proof.
  induction rest as [|x rest IH]; intros; simpl.
  - unfold ret. rewrite Nat.add_0_r. reflexivity.
  - unfold bind at 1. unfold bind at 1. unfold GraphicsVars_create at 1. simpl.
    unfold store, deref. rewrite Nat2Z.id, array_set_middle. unfold ret at 1.
    replace (done ++ Some (mkGraphicsVars id (getRootSignature pv)) :: rest ++ tl)
      with ((done ++ [Some (mkGraphicsVars id (getRootSignature pv))]) ++ rest ++ tl)
      by (rewrite <- app_assoc; reflexivity).
    replace (Z.of_nat (List.length done) + 1)
      with (Z.of_nat (List.length (done ++ [Some (mkGraphicsVars id (getRootSignature pv))])))
      by (rewrite length_app; simpl; lia).
    unfold set_wNextVars. simpl.
    rewrite IH. rewrite <- app_assoc. simpl.
    rewrite <- plus_n_Sm. reflexivity.
Qed.

(** The loop asked for more cells than the array has. *)
Lemma fill_loop_overrun pv k : forall rest done w,
  for_loop (List.length rest + S k) (Z.of_nat (List.length done))
    (fun i pVars => v <- GraphicsVars_create pv ;; store pVars i (Some v))
    (done ++ rest) w
  = Undefined "write outside an array".
Proof.
  induction rest as [|x rest IH]; intros done w.
  - cbn [List.length Nat.add for_loop].
    unfold bind at 1. unfold bind at 1. unfold GraphicsVars_create at 1.
    unfold store, deref. rewrite Nat2Z.id, app_nil_r.
    rewrite array_set_past by lia. reflexivity.
  - cbn [List.length Nat.add for_loop].
    unfold bind at 1. unfold bind at 1. unfold GraphicsVars_create at 1.
    unfold store, deref. rewrite Nat2Z.id, array_set_middle. unfold ret at 1.
    replace (done ++ Some (mkGraphicsVars (wNextVars w) (getRootSignature pv)) :: rest)
      with ((done ++ [Some (mkGraphicsVars (wNextVars w) (getRootSignature pv))]) ++ rest)
      by (rewrite <- app_assoc; reflexivity).
    replace (Z.of_nat (List.length done) + 1)
      with (Z.of_nat (List.length
                        (done ++ [Some (mkGraphicsVars (wNextVars w) (getRootSignature pv))])))
      by (rewrite length_app; simpl; lia).
    apply IH.
Qed.

(** X7. [getSigSizeAndCreateVars] on an array of at least [varCount]
    cells: the new maximum is the larger of the old one and the program's
    root-signature size; cells [0 .. varCount) hold new variable sets for
    the program's root signature, each created by its own call of
    [GraphicsVars::create]; the cells from [varCount] on and the length of
    the array are unchanged; the world changes by the [varCount] creations
    only. *)
Theorem getSigSizeAndCreateVars_fills pr m (arr : list (option GraphicsVars)) varCount w :
  (Z.to_nat varCount <= List.length arr)%nat ->
  exists arr',
    getSigSizeAndCreateVars (Some pr) m arr varCount w
    = Ok ((Z.max (sigSize pr) m, arr'),
          set_wNextVars (wNextVars w + Z.to_nat varCount) w) /\
    List.length arr' = List.length arr /\
    (forall i, (i < Z.to_nat varCount)%nat ->
       nth_error arr' i
       = Some (Some (mkGraphicsVars (wNextVars w + i)
                       (getRootSignature (getActiveVersion pr))))) /\
    (forall i, (Z.to_nat varCount <= i)%nat -> nth_error arr' i = nth_error arr i).
Proof.
  intros Hle.
  set (n := Z.to_nat varCount) in *.
  exists (make_vars n (wNextVars w) (getRootSignature (getActiveVersion pr)) ++ skipn n arr).
  assert (Hlen : List.length (firstn n arr) = n) by (apply firstn_length_le; exact Hle).
  split; [|split; [|split]].
  - unfold getSigSizeAndCreateVars. unfold deref. unfold bind at 1. unfold ret at 1.
    unfold bind at 1. fold n.
    destruct w as [lg sc id bd nb gpu rp rps calls].
    pose proof (fill_loop_tail (getActiveVersion pr) (skipn n arr) (firstn n arr) []
                  id lg sc bd nb gpu rp rps calls) as F.
    cbn [app List.length Z.of_nat] in F.
    rewrite firstn_skipn, Hlen in F. rewrite F. reflexivity.
  - rewrite length_app, make_vars_length, length_skipn. lia.
  - intros i Hi. rewrite nth_error_app1 by (rewrite make_vars_length; exact Hi).
    apply nth_error_make_vars. exact Hi.
  - intros i Hi. rewrite nth_error_app2 by (rewrite make_vars_length; exact Hi).
    rewrite make_vars_length, nth_error_skipn. f_equal. lia.
Qed.

(** X8. The array is not checked against [varCount]: on an array of fewer
    than [varCount] cells the loop writes one cell past its end. *)
Theorem getSigSizeAndCreateVars_overrun pr m (arr : list (option GraphicsVars)) varCount w :
  (List.length arr < Z.to_nat varCount)%nat ->
  getSigSizeAndCreateVars (Some pr) m arr varCount w = Undefined "write outside an array".
Proof.
  intros Hlt.
  unfold getSigSizeAndCreateVars. unfold deref. unfold bind at 1. unfold ret at 1.
  unfold bind at 1.
  replace (Z.to_nat varCount)
    with (List.length arr + S (Z.to_nat varCount - List.length arr - 1))%nat by lia.
  pose proof (fill_loop_overrun (getActiveVersion pr)
                (Z.to_nat varCount - List.length arr - 1) arr [] w) as F.
  cbn [app List.length Z.of_nat] in F. rewrite F. reflexivity.
Qed.

(** Two cells of an array of three. *)
Lemma getSigSizeAndCreateVars_fills_witness :
  exists arr',
    getSigSizeAndCreateVars (Some (Scenario.prog 64 "hit0")) 16 [None; None; None] 2
      (Scenario.world0 3 Scenario.all_resolved)
    = Ok ((64, arr'),
          set_wNextVars 2 (Scenario.world0 3 Scenario.all_resolved)) /\
    nth_error arr' 1 = Some (Some (mkGraphicsVars 1 (Scenario.rs 64))) /\
    nth_error arr' 2 = Some None.
Proof.
  destruct (getSigSizeAndCreateVars_fills (Scenario.prog 64 "hit0") 16 [None; None; None] 2
              (Scenario.world0 3 Scenario.all_resolved) ltac:(vm_compute; lia))
    as (arr' & Hrun & _ & Hnew & Hold).
  exists arr'. split; [exact Hrun|]. split.
  - exact (Hnew 1%nat ltac:(vm_compute; lia)).
  - exact (Hold 2%nat ltac:(vm_compute; lia)).
Defined.

(** Three cells asked of an array of two. *)
Lemma getSigSizeAndCreateVars_overrun_witness :
  getSigSizeAndCreateVars (Some (Scenario.prog 64 "hit0")) 16 [None; None] 3
    (Scenario.world0 3 Scenario.all_resolved)
  = Undefined "write outside an array".
Proof.
  apply getSigSizeAndCreateVars_overrun. vm_compute. lia.
Defined.

(* ================================================================= *)
(** ** The staging bytes after [apply] *)

Lemma nth_error_blit_in data off n src k :
  in_bounds data off n = true -> 0 <= k < n ->
  nth_error (blit data off n src) (Z.to_nat (off + k)) = Some (src (Z.to_nat k)).
Proof.
  unfold in_bounds, blit. intros Hb Hk.
  apply andb_true_iff in Hb. destruct Hb as [H0 H1].
  apply Z.leb_le in H0. apply Z.leb_le in H1.
  assert (Hf : List.length (firstn (Z.to_nat off) data) = Z.to_nat off)
    by (apply firstn_length_le; lia).
  rewrite nth_error_app2 by lia. rewrite Hf.
  replace (Z.to_nat (off + k) - Z.to_nat off)%nat with (Z.to_nat k) by lia.
  rewrite nth_error_app1 by (rewrite length_map, length_seq; lia).
  rewrite nth_error_map, nth_error_seq.
  destruct (Nat.ltb_spec (Z.to_nat k) (Z.to_nat n)); [reflexivity | lia].
Qed.

Lemma nth_error_blit_out data off n src x :
  in_bounds data off n = true -> 0 <= n ->
  0 <= x -> ~ (off <= x < off + n) ->
  nth_error (blit data off n src) (Z.to_nat x) = nth_error data (Z.to_nat x).
Proof.
  unfold in_bounds, blit. intros Hb Hn Hx Hout.
  apply andb_true_iff in Hb. destruct Hb as [H0 H1].
  apply Z.leb_le in H0. apply Z.leb_le in H1.
  assert (Hf : List.length (firstn (Z.to_nat off) data) = Z.to_nat off)
    by (apply firstn_length_le; lia).
  destruct (Z_lt_le_dec x off) as [Hlt|Hge].
  - rewrite nth_error_app1 by lia.
    rewrite nth_error_firstn.
    destruct (Nat.ltb_spec (Z.to_nat x) (Z.to_nat off)); [reflexivity | lia].
  - rewrite nth_error_app2 by lia. rewrite Hf.
    rewrite nth_error_app2 by (rewrite length_map, length_seq; lia).
    rewrite length_map, length_seq, nth_error_skipn. f_equal. lia.
Qed.

Lemma sizeInBytes_range rs : 0 <= getSizeInBytes rs < U32.modulus.
Proof. apply wrap_range. Qed.

Lemma record_image_length pRtso w d o progIdSize pv gv :
  0 <= o -> 0 <= progIdSize ->
  o + progIdSize + getSizeInBytes (getRootSignature pv) <= Z.of_nat (List.length d) ->
  List.length (record_image pRtso w d o progIdSize pv gv) = List.length d.
Proof.
  intros Ho Hid Hfit. pose proof (sizeInBytes_range (getRootSignature pv)) as Hsz.
  assert (L1 : List.length (blit d o progIdSize (GetShaderIdentifier pRtso (getExportName pv)))
               = List.length d)
    by (apply blit_length; [apply in_bounds_intro|]; lia).
  unfold record_image. destruct (resolved (wBindings w (gvId gv))); [|exact L1].
  rewrite blit_length; [exact L1 | apply in_bounds_intro; rewrite ?L1; lia | lia].
Qed.

Lemma record_image_ok pRtso w d o progIdSize pv gv :
  0 <= o -> 0 <= progIdSize ->
  o + progIdSize + getSizeInBytes (getRootSignature pv) <= Z.of_nat (List.length d) ->
  record_ok pRtso w (record_image pRtso w d o progIdSize pv gv) o progIdSize pv gv.
Proof.
  intros Ho Hid Hfit. pose proof (sizeInBytes_range (getRootSignature pv)) as Hsz.
  assert (B1 : in_bounds d o progIdSize = true) by (apply in_bounds_intro; lia).
  assert (L1 : List.length (blit d o progIdSize (GetShaderIdentifier pRtso (getExportName pv)))
               = List.length d) by (apply blit_length; [exact B1 | lia]).
  assert (B2 : in_bounds (blit d o progIdSize (GetShaderIdentifier pRtso (getExportName pv)))
                 (o + progIdSize) (getSizeInBytes (getRootSignature pv)) = true)
    by (apply in_bounds_intro; rewrite ?L1; lia).
  unfold record_ok, record_image.
  destruct (resolved (wBindings w (gvId gv))); split.
  - intros k Hk. rewrite nth_error_blit_out by (assumption || lia).
    apply nth_error_blit_in; assumption.
  - intros _ k Hk. apply nth_error_blit_in; assumption.
  - intros k Hk. apply nth_error_blit_in; assumption.
  - discriminate.
Qed.

Lemma record_image_frame pRtso w d o progIdSize pv gv x :
  0 <= o -> 0 <= progIdSize ->
  o + progIdSize + getSizeInBytes (getRootSignature pv) <= Z.of_nat (List.length d) ->
  0 <= x -> ~ written w o progIdSize pv gv x ->
  nth_error (record_image pRtso w d o progIdSize pv gv) (Z.to_nat x)
  = nth_error d (Z.to_nat x).
Proof.
  intros Ho Hid Hfit Hx Hout. pose proof (sizeInBytes_range (getRootSignature pv)) as Hsz.
  assert (B1 : in_bounds d o progIdSize = true) by (apply in_bounds_intro; lia).
  assert (L1 : List.length (blit d o progIdSize (GetShaderIdentifier pRtso (getExportName pv)))
               = List.length d) by (apply blit_length; [exact B1 | lia]).
  assert (B2 : in_bounds (blit d o progIdSize (GetShaderIdentifier pRtso (getExportName pv)))
                 (o + progIdSize) (getSizeInBytes (getRootSignature pv)) = true)
    by (apply in_bounds_intro; rewrite ?L1; lia).
  unfold written in Hout. unfold record_image.
  destruct (resolved (wBindings w (gvId gv))).
  - rewrite nth_error_blit_out by (assumption || lia || (intros C; apply Hout; right; split; [reflexivity | exact C])).
    apply nth_error_blit_out; try (assumption || lia).
  - apply nth_error_blit_out; try (assumption || lia).
Qed.

(** [applyRtProgramVars] on a record inside the staging bytes, with the
    bytes it leaves. *)
Lemma applyRtProgramVars_image pRecord pv rtso progIdSize gv ctx v w d b sz cs :
  0 <= pRecord -> 0 <= progIdSize ->
  pRecord + progIdSize + getSizeInBytes (getRootSignature pv) <= Z.of_nat (List.length d) ->
  applyRtProgramVars pRecord pv rtso progIdSize (Some gv) (Some ctx) (mid v w d b sz cs)
  = Ok (resolved (wBindings w (gvId gv)),
        mid v w (record_image rtso w d pRecord progIdSize pv gv)
          (pRecord + progIdSize) (getSizeInBytes (getRootSignature pv))
          (cs ++ [CallApplyRecord pRecord (getExportName pv) (gvId gv)
                    (resolved (wBindings w (gvId gv)))])).
Proof.
  intros H0 Hid Hfit.
  pose proof (sizeInBytes_range (getRootSignature pv)) as Hsz.
  unfold record_image.
  set (d1 := blit d pRecord progIdSize (GetShaderIdentifier rtso (getExportName pv))).
  assert (B1 : in_bounds d pRecord progIdSize = true) by (apply in_bounds_intro; lia).
  assert (L1 : List.length d1 = List.length d) by (apply blit_length; assumption).
  assert (B2 : in_bounds d1 (pRecord + progIdSize) (getSizeInBytes (getRootSignature pv)) = true)
    by (apply in_bounds_intro; rewrite ?L1; lia).
  unfold applyRtProgramVars, memcpy.
  unfold mid.
  eapply bind_Ok. { unfold write_sbt. norm. rewrite B1. reflexivity. }
  eapply bind_Ok. { reflexivity. }
  eapply bind_Ok. { reflexivity. }
  eapply bind_Ok. { reflexivity. }
  norm. fold d1.
  destruct (resolved (wBindings w (gvId gv))) eqn:Hres.
  + eapply bind_Ok.
    { unfold applyProgramVarsCommon.
      eapply bind_Ok. { reflexivity. }
      norm. rewrite Hres.
      eapply bind_Ok. { reflexivity. }
      eapply bind_Ok. { reflexivity. }
      eapply bind_Ok. { unfold write_sbt. norm. rewrite B2. reflexivity. }
      reflexivity. }
    norm. eapply bind_Ok. { reflexivity. }
    reflexivity.
  + eapply bind_Ok.
    { unfold applyProgramVarsCommon.
      eapply bind_Ok. { reflexivity. }
      norm. rewrite Hres. reflexivity. }
    norm. eapply bind_Ok. { reflexivity. }
    reflexivity.
Qed.

(** A loop with early return that keeps an invariant of the staging
    bytes on every turn that falls through. *)
Lemma for_return_inv (body : Z -> M State (option bool)) okf callf v w
    (I : Z -> list byte -> Prop) :
  forall n i0,
  (forall i d b sz cs, i0 <= i < i0 + Z.of_nat n -> I i d ->
     exists d' b' sz', (okf i = true -> I (i + 1) d') /\
       body i (mid v w d b sz cs) = Ok (flag (okf i), mid v w d' b' sz' (cs ++ callf i))) ->
  forall d b sz cs, I i0 d ->
    exists d' b' sz',
      (fst (scan n i0 okf callf) = true -> I (i0 + Z.of_nat n) d') /\
      for_return n i0 body (mid v w d b sz cs)
      = Ok (flag (fst (scan n i0 okf callf)),
            mid v w d' b' sz' (cs ++ snd (scan n i0 okf callf))).
Proof.
  induction n as [|n IH]; intros i0 Hbody d b sz cs HI.
  - exists d, b, sz. split.
    + intros _. replace (i0 + Z.of_nat 0) with i0 by lia. exact HI.
    + simpl. unfold ret. rewrite app_nil_r. reflexivity.
  - destruct (Hbody i0 d b sz cs ltac:(lia) HI) as (d1 & b1 & sz1 & I1 & E1).
    cbn [for_return scan]. unfold bind. rewrite E1.
    destruct (okf i0) eqn:Hok; cbn [flag fst snd].
    + destruct (IH (i0 + 1)
                  ltac:(intros i d2 b2 sz2 cs2 Hi HI2; apply Hbody; [lia | exact HI2])
                  d1 b1 sz1 (cs ++ callf i0) (I1 eq_refl))
        as (d' & b' & sz' & I' & E').
      exists d', b', sz'. split.
      * intros Hs. replace (i0 + Z.of_nat (S n)) with (i0 + 1 + Z.of_nat n) by lia.
        exact (I' Hs).
      * rewrite E', <- app_assoc. reflexivity.
    + exists d1, b1, sz1. split; [discriminate | reflexivity].
Qed.

Lemma written_inside w o progIdSize pv gv rs x :
  0 <= progIdSize -> progIdSize + getSizeInBytes (getRootSignature pv) <= rs ->
  written w o progIdSize pv gv x -> o <= x < o + rs.
Proof.
  intros Hid Hrec Hw. pose proof (sizeInBytes_range (getRootSignature pv)).
  destruct Hw as [Hw | (_ & Hw)]; lia.
Qed.

(** Two different records share no byte. *)
Lemma records_apart H Mi G rs s1 s2 x :
  0 <= H -> 0 <= Mi -> 0 <= G -> 0 < rs ->
  slot_valid H Mi G s1 -> slot_valid H Mi G s2 -> s1 <> s2 ->
  slotIndex H Mi s1 * rs <= x < slotIndex H Mi s1 * rs + rs ->
  ~ (slotIndex H Mi s2 * rs <= x < slotIndex H Mi s2 * rs + rs).
Proof.
  intros HH HMi HG Hrs V1 V2 Hne H1 H2.
  apply Hne. apply (slotIndex_inj H Mi G s1 s2 HMi V1 V2). nia.
Qed.

Lemma slot_valid_le H Mi G G' s : G' <= G -> slot_valid H Mi G' s -> slot_valid H Mi G s.
Proof. intros Hle. destruct s; cbn [slot_valid]; intros; lia || assumption. Qed.

Section ApplyImage.

Variables (plat : Platform) (p : RtProgram) (a : nat) (rayGen : Prog).
Variables (w0 w : World) (rtso : RtStateObject).

Let H := getHitProgramCount p.
Let Mi := getMissProgramCount p.
Let G := geometryCountIn w0 a H.
Let G' := geometryCountIn w a H.
Let rs := recordSizeOf plat rayGen p.
Let idSize := GetShaderIdentifierSize plat.
Let v := this (built plat p a rayGen w0).
Let L := List.length (mSbtData v).

Hypothesis Hrg : getRayGenProgram p = Some rayGen.
Hypothesis Hnz : rs <> 0.
Hypothesis Hfits : layout_fits plat rayGen p G.
Hypothesis Hle : G' <= G.

Variable d0 : list byte.
Hypothesis Hd0 : List.length d0 = L.

Let Inv (k : Z) (d : list byte) : Prop :=
  serialised_upto rtso w p v H Mi G' rs idSize k d0 d.

Lemma slot_holds s pr :
  slot_valid H Mi G s -> slotProgram p s = Some pr ->
  idSize + getSizeInBytes (getRootSignature (getActiveVersion pr)) <= rs.
Proof.
  intros Vs Hp.
  apply (record_holds plat p a rayGen w0 w Hfits pr).
  destruct s as [|h i|m]; cbn [slotProgram slot_valid] in *.
  - left. congruence.
  - destruct Vs as (Hh & _).
    destruct (getHitProgram_visited p h Hh) as (pr' & Hp' & _ & Hin).
    right. apply in_or_app. left. congruence.
  - destruct (getMissProgram_visited p m Vs) as (pr' & Hp' & _ & Hin).
    right. apply in_or_app. right. congruence.
Qed.

Lemma slot_inside s :
  slot_valid H Mi G s ->
  0 <= slotIndex H Mi s * rs /\ slotIndex H Mi s * rs + rs <= Z.of_nat L.
Proof.
  intros Vs.
  pose proof (H_range p) as HH. pose proof (Mi_range p) as HMi.
  pose proof (G_range p a w0) as HG.
  pose proof (rs_pos plat p a rayGen w0 w Hnz) as Hrs.
  pose proof (slotIndex_range H Mi G s (proj1 HH) (proj1 HMi) (proj1 HG) Vs) as Hr.
  unfold L, v. rewrite (staging_length plat p a rayGen w0 w Hnz Hfits).
  fold H Mi G rs. nia.
Qed.

Lemma serialised_start : Inv 0 d0.
Proof.
  pose proof (H_range p) as HH. pose proof (Mi_range p) as HMi.
  pose proof (G'_range p a w) as HG'.
  split; [reflexivity|]. split.
  - intros s pr gv Vs Hk.
    pose proof (slotRank_range H Mi G' s (proj1 HH) (proj1 HMi) (proj1 HG') Vs). lia.
  - intros x _ _. reflexivity.
Qed.

(** One more record done. *)
Lemma serialised_step k d s pr gv :
  Inv k d -> slot_valid H Mi G' s -> slotRank H G' s = k ->
  slotProgram p s = Some pr -> slotVars v s = Some gv ->
  Inv (k + 1)
    (record_image rtso w d (slotIndex H Mi s * rs) idSize (getActiveVersion pr) gv).
Proof.
  intros (HL & Hok & Hfr) Vs Hk Hp Hv.
  pose proof (H_range p) as HH. pose proof (Mi_range p) as HMi.
  pose proof (G_range p a w0) as HG. pose proof (G'_range p a w) as HG'.
  pose proof (rs_pos plat p a rayGen w0 w Hnz) as Hrs.
  pose proof (idSize_range plat) as Hid.
  pose proof (slot_valid_le H Mi G G' s Hle Vs) as VsG.
  pose proof (slot_holds s pr VsG Hp) as Hrec.
  pose proof (slot_inside s VsG) as Hin.
  pose proof (sizeInBytes_range (getRootSignature (getActiveVersion pr))) as Hsz.
  assert (Hfit : slotIndex H Mi s * rs + idSize
                 + getSizeInBytes (getRootSignature (getActiveVersion pr))
                 <= Z.of_nat (List.length d)) by (rewrite HL, Hd0; fold idSize in Hrec; lia).
  split; [|split].
  - rewrite record_image_length by (fold idSize in Hid; lia). exact HL.
  - intros s' pr' gv' Vs' Hk' Hp' Hv'.
    destruct (Z.eq_dec (slotRank H G' s') k) as [He|Hne].
    + assert (s' = s)
        by (apply (slotRank_inj H Mi G' s' s (proj1 HH) (proj1 HG') Vs' Vs); lia).
      subst s'. assert (pr' = pr) by congruence. assert (gv' = gv) by congruence.
      subst pr' gv'. apply record_image_ok; fold idSize in Hid; lia.
    + assert (Hlt : slotRank H G' s' < k) by lia.
      assert (Hne' : s' <> s) by (intros ->; lia).
      pose proof (slot_valid_le H Mi G G' s' Hle Vs') as VsG'.
      pose proof (slot_holds s' pr' VsG' Hp') as Hrec'.
      pose proof (slot_inside s' VsG') as Hin'.
      pose proof (sizeInBytes_range (getRootSignature (getActiveVersion pr'))) as Hsz'.
      destruct (Hok s' pr' gv' Vs' Hlt Hp' Hv') as (Hident & Hparams).
      assert (Hkeep : forall x, slotIndex H Mi s' * rs <= x < slotIndex H Mi s' * rs + rs ->
                nth_error (record_image rtso w d (slotIndex H Mi s * rs) idSize
                             (getActiveVersion pr) gv) (Z.to_nat x)
                = nth_error d (Z.to_nat x)).
      { intros x Hx. apply record_image_frame; try (fold idSize in Hid; lia).
        intros Hw.
        apply (written_inside w _ idSize _ gv rs x) in Hw; [|lia|exact Hrec].
        exact (records_apart H Mi G rs s' s x (proj1 HH) (proj1 HMi) (proj1 HG) Hrs
                 VsG' VsG Hne' Hx Hw). }
      split.
      * intros j Hj. rewrite Hkeep by lia. apply Hident. exact Hj.
      * intros Hres j Hj. rewrite Hkeep by lia. apply Hparams; assumption.
  - intros x Hx Hout.
    rewrite record_image_frame; try (fold idSize in Hid; lia).
    + apply Hfr; [exact Hx|].
      intros s' pr' gv' Vs' Hk'. apply Hout; [exact Vs' | lia].
    + apply (Hout s pr gv Vs); [lia | exact Hp | exact Hv].
Qed.

Lemma apply_hit_record_image h i d b sz cs :
  0 <= h < H -> 0 <= i < G' -> Inv (1 + h * G' + i) d ->
  exists d' b' sz', Inv (1 + h * G' + i + 1) d' /\
    apply_hit_record rtso p idSize h i (mid v w d b sz cs)
    = Ok (flag (varsResolved w (getHitVarsAt v h i)),
          mid v w d' b' sz' (cs ++ [hitCall v w h i])).
Proof.
  intros Hh Hi HI.
  pose proof (Mi_range p) as HMi. pose proof (rs_pos plat p a rayGen w0 w Hnz) as Hrs.
  pose proof (idSize_range plat) as Hid.
  pose proof (table_fits_G plat p a rayGen w0 Hfits) as Ht.
  pose proof (mid_members plat p a rayGen w0 w d b sz cs) as HM.
  cbv zeta in HM. fold v H Mi rs idSize in HM.
  destruct HM as (E1 & E2 & E3 & E4 & E5 & E6 & E7 & E8 & _ & _ & E9 & _).
  pose proof (v_members plat p a rayGen w0) as HV. fold v H Mi rs idSize in HV.
  destruct HV as (V1 & _ & V3 & V4 & _ & _ & V7).
  assert (Vs : slot_valid H Mi G' (HitSlot h i)) by (split; assumption).
  pose proof (slot_valid_le H Mi G G' _ Hle Vs) as VsG.
  destruct (getHitProgram_visited p h Hh) as (pr & Hpr & _ & _).
  destruct (built_hit_vars plat p a rayGen w0 h i Hh ltac:(fold H; fold G; lia)) as (gv & Hgv).
  fold v in Hgv.
  assert (Hoff : U32.mul (U32.add (U32.add (U32.add kFirstMissSbtRecordIndex Mi)
                                     (U32.mul H i)) h) rs
                 = Spec.hitOffset rs Mi H h i)
    by (apply (hitOffset_exact Mi H G); lia || assumption).
  assert (Hidx : slotIndex H Mi (HitSlot h i) * rs = Spec.hitOffset rs Mi H h i)
    by reflexivity.
  pose proof (slot_holds (HitSlot h i) pr VsG Hpr) as Hrec.
  pose proof (slot_inside (HitSlot h i) VsG) as Hin. rewrite Hidx in Hin.
  pose proof (serialised_step _ d (HitSlot h i) pr gv HI Vs eq_refl Hpr Hgv) as HI'.
  rewrite Hidx in HI'.
  destruct HI as (HL & _).
  eexists. exists (Spec.hitOffset rs Mi H h i + idSize),
    (getSizeInBytes (getRootSignature (getActiveVersion pr))).
  split; [exact HI'|].
  unfold apply_hit_record.
  eapply bind_Ok.
  { rewrite getHitRecordPtr_eq, E3, E5, E7.
    destruct (Z.ltb_spec h H); [|lia]. rewrite Hoff. reflexivity. }
  rewrite Hpr. eapply bind_Ok. { reflexivity. }
  eapply bind_Ok. { unfold member, gets. rewrite E9, Hgv. reflexivity. }
  eapply bind_Ok.
  { unfold member, gets.
    change (mpRtVarsHelper (this (mid v w d b sz cs))) with (Some RtVarsContext_create).
    reflexivity. }
  eapply bind_Ok.
  { fold idSize in Hid, Hrec.
    apply applyRtProgramVars_image; try lia; rewrite HL, Hd0; lia. }
  unfold hitCall, programOf. rewrite V1, V3, V4, V7. cbv beta iota. rewrite Hpr, Hgv.
  cbn [exportNameOf varsId varsResolved].
  destruct (resolved (wBindings w (gvId gv))); reflexivity.
Qed.

Lemma apply_miss_record_image m d b sz cs :
  0 <= m < Mi -> Inv (1 + H * G' + m) d ->
  exists d' b' sz', Inv (1 + H * G' + m + 1) d' /\
    apply_miss_record rtso p idSize m (mid v w d b sz cs)
    = Ok (flag (varsResolved w (getMissVarsAt v m)),
          mid v w d' b' sz' (cs ++ [missCall v w m])).
Proof.
  intros Hm HI.
  pose proof (H_range p) as HH. pose proof (G_range p a w0) as HG.
  fold H in HH, HG. fold G in HG.
  pose proof (rs_pos plat p a rayGen w0 w Hnz) as Hrs.
  pose proof (idSize_range plat) as Hid.
  pose proof (table_fits_G plat p a rayGen w0 Hfits) as Ht.
  pose proof (mid_members plat p a rayGen w0 w d b sz cs) as HM.
  cbv zeta in HM. fold v H Mi rs idSize in HM.
  destruct HM as (E1 & E2 & E3 & E4 & E5 & E6 & E7 & E8 & _ & _ & _ & E9).
  pose proof (v_members plat p a rayGen w0) as HV. fold v H Mi rs idSize in HV.
  destruct HV as (V1 & _ & V3 & V4 & _ & _ & V7).
  assert (Vs : slot_valid H Mi G' (MissSlot m)) by exact Hm.
  pose proof (slot_valid_le H Mi G G' _ Hle Vs) as VsG.
  destruct (getMissProgram_visited p m Hm) as (pr & Hpr & _ & _).
  destruct (built_miss_vars plat p a rayGen w0 m Hm) as (gv & Hgv). fold v in Hgv.
  assert (Hoff : U32.mul rs (U32.add kFirstMissSbtRecordIndex m) = Spec.missOffset rs m)
    by (apply (missOffset_exact Mi H G); lia || assumption).
  assert (Hidx : slotIndex H Mi (MissSlot m) * rs = Spec.missOffset rs m) by reflexivity.
  pose proof (slot_holds (MissSlot m) pr VsG Hpr) as Hrec.
  pose proof (slot_inside (MissSlot m) VsG) as Hin. rewrite Hidx in Hin.
  pose proof (serialised_step _ d (MissSlot m) pr gv HI Vs eq_refl Hpr Hgv) as HI'.
  rewrite Hidx in HI'.
  destruct HI as (HL & _).
  eexists. exists (Spec.missOffset rs m + idSize),
    (getSizeInBytes (getRootSignature (getActiveVersion pr))).
  split; [exact HI'|].
  unfold apply_miss_record.
  eapply bind_Ok.
  { rewrite getMissRecordPtr_eq, E4, E7.
    destruct (Z.ltb_spec m Mi); [|lia]. rewrite Hoff. reflexivity. }
  rewrite Hpr. eapply bind_Ok. { reflexivity. }
  eapply bind_Ok. { unfold member, gets. rewrite E9, Hgv. reflexivity. }
  eapply bind_Ok.
  { unfold member, gets.
    change (mpRtVarsHelper (this (mid v w d b sz cs))) with (Some RtVarsContext_create).
    reflexivity. }
  eapply bind_Ok.
  { fold idSize in Hid, Hrec.
    apply applyRtProgramVars_image; try lia; rewrite HL, Hd0; lia. }
  unfold missCall, programOf. rewrite V1, V7. cbv beta iota. rewrite Hpr, Hgv.
  cbn [exportNameOf varsId varsResolved].
  destruct (resolved (wBindings w (gvId gv))); reflexivity.
Qed.

Lemma apply_rayGen_image d b sz cs :
  Inv 0 d ->
  exists d' b' sz', Inv 1 d' /\
    applyRtProgramVars 0 (getActiveVersion rayGen) rtso idSize (mRayGenVars v)
      (mpRtVarsHelper v) (mid v w d b sz cs)
    = Ok (varsResolved w (mRayGenVars v), mid v w d' b' sz' (cs ++ [rayGenCall v w])).
Proof.
  intros HI.
  pose proof (idSize_range plat) as Hid.
  pose proof (v_members plat p a rayGen w0) as HV. fold v H Mi rs idSize in HV.
  destruct HV as (V1 & _).
  assert (Hgv : exists gv, mRayGenVars v = Some gv) by (eexists; reflexivity).
  destruct Hgv as (gv & Hgv).
  pose proof (slot_holds RayGenSlot rayGen I Hrg) as Hrec.
  pose proof (slot_inside RayGenSlot I) as Hin.
  pose proof (serialised_step _ d RayGenSlot rayGen gv HI I eq_refl Hrg Hgv) as HI'.
  change (slotIndex H Mi RayGenSlot * rs) with 0 in *.
  destruct HI as (HL & _).
  eexists. exists (0 + idSize), (getSizeInBytes (getRootSignature (getActiveVersion rayGen))).
  split; [exact HI'|].
  unfold rayGenCall, programOf. rewrite V1. cbv beta iota. rewrite Hrg, Hgv. change Spec.rayGenOffset with 0.
  cbn [exportNameOf varsId varsResolved].
  fold idSize in Hid, Hrec.
  apply applyRtProgramVars_image; try lia; rewrite HL, Hd0; lia.
Qed.

Lemma apply_hit_program_image h d b sz cs :
  0 <= h < H -> Inv (1 + h * G') d ->
  exists d' b' sz',
    (forallb call_ok (map (hitCall v w h) (zrange G')) = true -> Inv (1 + (h + 1) * G') d') /\
    apply_hit_program rtso p idSize H h (mid v w d b sz cs)
    = Ok (flag (forallb call_ok (map (hitCall v w h) (zrange G'))),
          mid v w d' b' sz' (cs ++ until_failure (map (hitCall v w h) (zrange G')))).
Proof.
  intros Hh HI. pose proof (G'_range p a w) as HG'. fold H in HG'. fold G' in HG'.
  pose proof (mid_members plat p a rayGen w0 w d b sz cs) as HM.
  cbv zeta in HM. fold v H Mi rs idSize in HM.
  destruct HM as (_ & E2 & _).
  destruct (for_return_inv (apply_hit_record rtso p idSize h)
              (fun i => varsResolved w (getHitVarsAt v h i))
              (fun i => [hitCall v w h i]) v w
              (fun i => Inv (1 + h * G' + i)) (Z.to_nat G') 0) with (d := d) (b := b)
              (sz := sz) (cs := cs) as (d' & b' & sz' & I' & E').
  { intros i d1 b1 sz1 cs1 Hi HI1.
    destruct (apply_hit_record_image h i d1 b1 sz1 cs1 Hh ltac:(lia) HI1)
      as (d2 & b2 & sz2 & I2 & E2').
    exists d2, b2, sz2. split; [|exact E2'].
    intros _. replace (1 + h * G' + (i + 1)) with (1 + h * G' + i + 1) by lia. exact I2. }
  { replace (1 + h * G' + 0) with (1 + h * G') by lia. exact HI. }
  rewrite scan_single in E', I' by reflexivity. cbn [fst snd] in E', I'.
  exists d', b', sz'. split.
  - intros Hs. specialize (I' Hs).
    replace (1 + (h + 1) * G') with (1 + h * G' + (0 + Z.of_nat (Z.to_nat G'))) by lia.
    exact I'.
  - unfold apply_hit_program. eapply bind_Ok; [|exact E'].
    unfold scene_getGeometryCount. rewrite E2. reflexivity.
Qed.

Lemma apply_hit_loop_image d b sz cs :
  Inv 1 d ->
  exists d' b' sz',
    (forallb call_ok (hitCalls v w G') = true -> Inv (1 + H * G') d') /\
    for_return (Z.to_nat H) 0 (apply_hit_program rtso p idSize H) (mid v w d b sz cs)
    = Ok (flag (forallb call_ok (hitCalls v w G')),
          mid v w d' b' sz' (cs ++ until_failure (hitCalls v w G'))).
Proof.
  intros HI. pose proof (H_range p) as HH. fold H in HH.
  pose proof (v_members plat p a rayGen w0) as HV. fold v H Mi rs idSize in HV.
  destruct HV as (_ & _ & V3 & _).
  destruct (for_return_inv (apply_hit_program rtso p idSize H)
              (fun h => forallb call_ok (map (hitCall v w h) (zrange G')))
              (fun h => until_failure (map (hitCall v w h) (zrange G'))) v w
              (fun h => Inv (1 + h * G')) (Z.to_nat H) 0) with (d := d) (b := b)
              (sz := sz) (cs := cs) as (d' & b' & sz' & I' & E').
  { intros h d1 b1 sz1 cs1 Hh HI1.
    apply apply_hit_program_image; [lia | exact HI1]. }
  { replace (1 + 0 * G') with 1 by lia. exact HI. }
  rewrite (scan_nested (fun h => map (hitCall v w h) (zrange G'))) in E', I'
    by reflexivity.
  cbn [fst snd] in E', I'.
  exists d', b', sz'. unfold hitCalls. rewrite V3. split; [|exact E'].
  intros Hs. specialize (I' Hs).
  replace (0 + Z.of_nat (Z.to_nat H)) with H in I' by lia.
  exact I'.
Qed.

Lemma apply_miss_loop_image d b sz cs :
  Inv (1 + H * G') d ->
  exists d' b' sz',
    (forallb call_ok (missCalls v w) = true -> Inv (Spec.totalRecords Mi H G') d') /\
    for_return (Z.to_nat Mi) 0 (apply_miss_record rtso p idSize) (mid v w d b sz cs)
    = Ok (flag (forallb call_ok (missCalls v w)),
          mid v w d' b' sz' (cs ++ until_failure (missCalls v w))).
Proof.
  intros HI. pose proof (Mi_range p) as HMi. fold Mi in HMi.
  pose proof (v_members plat p a rayGen w0) as HV. fold v H Mi rs idSize in HV.
  destruct HV as (_ & _ & _ & V4 & _).
  destruct (for_return_inv (apply_miss_record rtso p idSize)
              (fun m => varsResolved w (getMissVarsAt v m))
              (fun m => [missCall v w m]) v w
              (fun m => Inv (1 + H * G' + m)) (Z.to_nat Mi) 0) with (d := d) (b := b)
              (sz := sz) (cs := cs) as (d' & b' & sz' & I' & E').
  { intros m d1 b1 sz1 cs1 Hm HI1.
    destruct (apply_miss_record_image m d1 b1 sz1 cs1 ltac:(lia) HI1)
      as (d2 & b2 & sz2 & I2 & E2').
    exists d2, b2, sz2. split; [|exact E2'].
    intros _. replace (1 + H * G' + (m + 1)) with (1 + H * G' + m + 1) by lia. exact I2. }
  { replace (1 + H * G' + 0) with (1 + H * G') by lia. exact HI. }
  rewrite scan_single in E', I' by reflexivity. cbn [fst snd] in E', I'.
  exists d', b', sz'. unfold missCalls. rewrite V4. split; [|exact E'].
  intros Hs. specialize (I' Hs). unfold Spec.totalRecords.
  replace (1 + Mi + H * G') with (1 + H * G' + (0 + Z.of_nat (Z.to_nat Mi))) by lia.
  exact I'.
Qed.

(** A run of [apply] in which every hit and miss record resolves, started
    on the staging bytes [d0]. *)
Lemma apply_mid_image b sz cs :
  expected_result v w G' = true ->
  exists d' b' sz',
    Inv (Spec.totalRecords Mi H G') d' /\
    apply rtso (mid v w d0 b sz cs)
    = Ok (true,
          mkState (set_mSbtData d' v)
            (set_wCalls (cs ++ expected_calls v w G')
               (set_wGpu (fun id => if Nat.eqb id (bufferId (mpSBT v)) then d'
                                    else wGpu w id)
                  (set_wRootParams b' sz' w)))).
Proof.
  intros Hres. unfold expected_result in Hres. rewrite forallb_app in Hres.
  apply andb_true_iff in Hres. destruct Hres as (EH & EM).
  pose proof (mid_members plat p a rayGen w0 w d0 b sz cs) as HM.
  cbv zeta in HM. fold v H Mi rs idSize in HM.
  destruct HM as (E1 & _ & _ & _ & _ & E6 & E7 & _ & E9 & _).
  destruct (apply_rayGen_image d0 b sz cs serialised_start) as (d1 & b1 & sz1 & I1 & R1).
  destruct (apply_hit_loop_image d1 b1 sz1 (cs ++ [rayGenCall v w]) I1)
    as (d2 & b2 & sz2 & I2 & R2).
  rewrite EH in R2. specialize (I2 EH).
  destruct (apply_miss_loop_image d2 b2 sz2
              ((cs ++ [rayGenCall v w]) ++ until_failure (hitCalls v w G')) I2)
    as (d3 & b3 & sz3 & I3 & R3).
  rewrite EM in R3. specialize (I3 EM).
  pose proof (mid_members plat p a rayGen w0 w d3 b3 sz3
                (((cs ++ [rayGenCall v w]) ++ until_failure (hitCalls v w G'))
                   ++ until_failure (missCalls v w))) as HM3.
  cbv zeta in HM3. fold v H Mi rs idSize in HM3.
  destruct HM3 as (_ & _ & _ & _ & _ & _ & _ & _ & _ & E10 & _).
  destruct (built_members plat p a rayGen w0) as (_ & _ & _ & _ & _ & _ & _ & HB & HD).
  fold v in HB, HD. fold L in HD.
  assert (L3 : List.length d3 = L) by (destruct I3 as (HL3 & _); rewrite HL3; exact Hd0).
  exists d3, b3, sz3. split; [exact I3|].
  unfold apply.
  eapply bind_Ok. { rewrite getRayGenRecordPtr_eq, E7. reflexivity. }
  step. rewrite E1. step. step. rewrite E6.
  rewrite Hrg. eapply bind_Ok. { reflexivity. }
  step. rewrite E9. step.
  replace (U32.mul kRayGenSbtRecordIndex rs) with 0 by reflexivity.
  eapply bind_Ok. { exact R1. }
  eapply bind_Ok. { exact R2. }
  cbn [flag].
  eapply bind_Ok. { exact R3. }
  cbn [flag].
  step. rewrite E10, HB.
  eapply bind_Ok.
  { apply (updateBuffer_spec plat p a rayGen w0 w). cbn [getSize]. rewrite L3. exact HD. }
  unfold ret. do 2 f_equal.
  unfold expected_calls, expected_result.
  rewrite forallb_app, until_failure_app, EH, EM.
  rewrite (until_failure_all_ok _ EM), (until_failure_all_ok _ EH), HB.
  cbn [andb bufferId bufId getSize app].
  rewrite firstn_all2 by (rewrite <- HD, L3; lia).
  rewrite <- !app_assoc. reflexivity.
Qed.

End ApplyImage.

Lemma mid_start_data v w d :
  mkState (set_mSbtData d v) w
  = mid v w d (wRootParams w) (wRootParamsSize w) (wCalls w).
Proof. destruct v, w. reflexivity. Qed.

(** The result [apply] is expected to give: every hit record of the
    geometry the scene reports and every miss record resolves; the ray-gen
    record is not asked. *)
Lemma expected_result_true v w g :
  0 <= g -> 0 <= mHitProgCount v -> 0 <= mMissProgCount v ->
  (expected_result v w g = true <->
   forall s, slot_valid (mHitProgCount v) (mMissProgCount v) g s -> s <> RayGenSlot ->
     varsResolved w (slotVars v s) = true).
Proof.
  intros Hg HH HMi. unfold expected_result. rewrite forallb_forall. split.
  - intros Hall s Vs Hne. destruct s as [|h i|m]; cbn [slot_valid slotVars] in *.
    + congruence.
    + destruct Vs as (Hh & Hi).
      apply (Hall (hitCall v w h i)). apply in_or_app. left.
      apply hitCalls_In_intro; assumption.
    + apply (Hall (missCall v w m)). apply in_or_app. right.
      apply missCalls_In_intro; assumption.
  - intros Hall c Hin. apply in_app_or in Hin. destruct Hin as [Hin|Hin].
    + apply hitCalls_In in Hin; try assumption.
      destruct Hin as (h & i & Hh & Hi & ->).
      apply (Hall (HitSlot h i)); [split; assumption | discriminate].
    + apply missCalls_In in Hin; try assumption.
      destruct Hin as (m & Hm & ->).
      apply (Hall (MissSlot m)); [exact Hm | discriminate].
Qed.

(** X9. What a successful [apply] leaves in the table.  On the object
    [init] built, with sizes that fit 32 bits, a scene that reports no more
    geometry than at [init], and the bindings of every hit and miss record
    resolving, [apply] started on any staging bytes [d0] of the table's
    size returns true, and afterwards: the GPU buffer holds the staging
    bytes; the record of every slot (ray-gen, each hit program for each
    geometry instance the scene reports, each miss program) starts with
    the shader identifier of its own program and continues with the
    parameter block of its own binding variables (for the ray-gen record
    only if its bindings resolve); and every byte that is not one of
    these is the byte of [d0]. *)
Theorem apply_serialises_records plat p a rayGen w0 w rtso st d0 :
  let H := getHitProgramCount p in
  let Mi := getMissProgramCount p in
  let G' := geometryCountIn w a H in
  let v := this st in
  getRayGenProgram p = Some rayGen ->
  init plat (constructed p a w0) = Ok (true, st) ->
  layout_fits plat rayGen p (geometryCountIn w0 a H) ->
  G' <= geometryCountIn w0 a H ->
  List.length d0 = List.length (mSbtData v) ->
  (forall s, slot_valid H Mi G' s -> s <> RayGenSlot ->
     varsResolved w (slotVars v s) = true) ->
  exists st',
    apply rtso (mkState (set_mSbtData d0 v) w) = Ok (true, st') /\
    wGpu (world st') (bufferId (mpSBT v)) = mSbtData (this st') /\
    (forall s pr gv,
       slot_valid H Mi G' s -> slotProgram p s = Some pr -> slotVars v s = Some gv ->
       record_ok rtso w (mSbtData (this st')) (slotIndex H Mi s * mRecordSize v)
         (mProgramIdentifierSize v) (getActiveVersion pr) gv) /\
    (forall x, 0 <= x ->
       (forall s pr gv,
          slot_valid H Mi G' s -> slotProgram p s = Some pr -> slotVars v s = Some gv ->
          ~ written w (slotIndex H Mi s * mRecordSize v) (mProgramIdentifierSize v)
              (getActiveVersion pr) gv x) ->
       nth_error (mSbtData (this st')) (Z.to_nat x) = nth_error d0 (Z.to_nat x)).
Proof.
  intros H Mi G' v Hrg E Hfits Hle Hd0 Hall.
  destruct (init_built _ _ _ _ _ _ Hrg E) as (Hnz & Hst).
  pose proof (H_range p) as HH. pose proof (Mi_range p) as HMi.
  pose proof (G'_range p a w) as HG'.
  pose proof (v_members plat p a rayGen w0) as (_ & _ & V3 & V4 & _ & V6 & V7).
  rewrite <- Hst in V3, V4, V6, V7. fold v in V3, V4, V6, V7.
  assert (Hres : expected_result v w G' = true).
  { apply expected_result_true; rewrite ?V3, ?V4; try (apply HG' || apply HH || apply HMi).
    exact Hall. }
  unfold v in *. subst st.
  destruct (apply_mid_image plat p a rayGen w0 w rtso Hrg Hnz Hfits Hle d0 Hd0
              (wRootParams w) (wRootParamsSize w) (wCalls w) Hres)
    as (d' & b' & sz' & (HL & Hok & Hfr) & Hrun).
  rewrite mid_start_data. eexists. split; [exact Hrun|].
  rewrite V6, V7. norm.
  split; [rewrite Nat.eqb_refl; reflexivity|].
  split.
  - intros s pr gv Vs Hp Hv. apply (Hok s pr gv Vs); try assumption.
    pose proof (slotRank_range _ _ _ _ (proj1 HH) (proj1 HMi) (proj1 HG') Vs). lia.
  - intros x Hx Hout. apply Hfr; [exact Hx|].
    intros s pr gv Vs _ Hp Hv. exact (Hout s pr gv Vs Hp Hv).
Qed.

(** The scenario of the spec: the miss record at offset 128 starts with
    the identifier byte and holds the parameter bytes from offset 160. *)
Lemma apply_serialises_records_witness :
  let w := Scenario.world0 3 Scenario.all_resolved in
  let st := built Scenario.plat Scenario.program 0 (Scenario.prog 16 "rayGen") w in
  exists st',
    apply Scenario.rtso (mkState (set_mSbtData (mSbtData (this st)) (this st)) w)
    = Ok (true, st') /\
    wGpu (world st') (bufferId (mpSBT (this st))) = mSbtData (this st') /\
    nth_error (mSbtData (this st')) 128 = Some x01 /\
    nth_error (mSbtData (this st')) 160 = Some x00.
Proof.
  intros w st.
  assert (E : init Scenario.plat (constructed Scenario.program 0 w) = Ok (true, st))
    by (vm_compute; reflexivity).
  assert (F : layout_fits Scenario.plat (Scenario.prog 16 "rayGen") Scenario.program
                (geometryCountIn w 0 (getHitProgramCount Scenario.program)))
    by (vm_compute; repeat split; congruence).
  assert (R : forall s,
             slot_valid (getHitProgramCount Scenario.program)
               (getMissProgramCount Scenario.program)
               (geometryCountIn w 0 (getHitProgramCount Scenario.program)) s ->
             s <> RayGenSlot -> varsResolved w (slotVars (this st) s) = true).
  { intros s Vs _. destruct s as [|h i|m]; [reflexivity| |].
    - destruct Vs as (Hh & Hi). change (0 <= h < 1) in Hh. change (0 <= i < 3) in Hi.
      assert (h = 0) by lia. subst h.
      assert (Hc : i = 0 \/ i = 1 \/ i = 2) by lia.
      destruct Hc as [-> | [-> | ->]]; reflexivity.
    - change (0 <= m < 1) in Vs. assert (m = 0) by lia. subst m. reflexivity. }
  destruct (apply_serialises_records Scenario.plat Scenario.program 0%nat
              (Scenario.prog 16 "rayGen") w w Scenario.rtso st (mSbtData (this st))
              eq_refl E F ltac:(apply Z.le_refl) eq_refl R)
    as (st' & Hrun & Hgpu & Hok & _).
  exists st'. split; [exact Hrun|]. split; [exact Hgpu|].
  destruct (Hok (MissSlot 0) (Scenario.prog 8 "miss0") (mkGraphicsVars 4 (Scenario.rs 8))
              ltac:(vm_compute; split; congruence) eq_refl eq_refl) as (Hident & Hparams).
  split.
  - exact (Hident 0 ltac:(vm_compute; split; congruence)).
  - exact (Hparams eq_refl 0 ltac:(vm_compute; split; congruence)).
Defined.

(* ================================================================= *)
(** ** [apply] touches the table only *)

Lemma untouched_refl st : untouched st st.
Proof. repeat split. Qed.

Lemma untouched_mpSBT st st' : untouched st st' -> mpSBT (this st') = mpSBT (this st).
Proof.
  intros (Hv & _). apply (f_equal mpSBT) in Hv. exact Hv.
Qed.

Lemma untouched_trans st1 st2 st3 :
  untouched st1 st2 -> untouched st2 st3 -> untouched st1 st3.
Proof.
  intros U1 U2. pose proof (untouched_mpSBT _ _ U1) as Hb.
  destruct U1 as (A1 & B1 & C1 & D1 & E1 & F1 & G1).
  destruct U2 as (A2 & B2 & C2 & D2 & E2 & F2 & G2).
  repeat split; try congruence.
  intros id Hid. rewrite G2 by (rewrite Hb; exact Hid). apply G1. exact Hid.
Qed.

Lemma untouched_staging st d :
  untouched st (mkState (set_mSbtData d (this st)) (world st)).
Proof. repeat split. Qed.

Lemma write_sbt_untouched off n src st u st' :
  write_sbt off n src st = Ok (u, st') -> untouched st st'.
Proof.
  unfold write_sbt. destruct (in_bounds (mSbtData (this st)) off n); [|discriminate].
  intros E. injection E as _ <-. apply untouched_staging.
Qed.

Lemma applyProgramVarsCommon_untouched pVars st ok st' :
  applyProgramVarsCommon pVars st = Ok (ok, st') -> untouched st st'.
Proof.
  unfold applyProgramVarsCommon. intros E.
  binv E as vs s0 E0. unfold gets in E0. injection E0 as <- <-.
  destruct (resolved (wBindings (world st) (gvId pVars))).
  - binv E as base s1 E1. unfold gets in E1. injection E1 as <- <-.
    binv E as size s2 E2. unfold gets in E2. injection E2 as <- <-.
    binv E as u s3 E3. apply write_sbt_untouched in E3.
    unfold ret in E. injection E as _ <-. exact E3.
  - unfold ret in E. injection E as _ <-. apply untouched_refl.
Qed.

Lemma applyRtProgramVars_untouched pRecord pv rtso progIdSize pVars pContext st ok st' :
  applyRtProgramVars pRecord pv rtso progIdSize pVars pContext st = Ok (ok, st') ->
  untouched st st'.
Proof.
  unfold applyRtProgramVars, memcpy. intros E.
  binv E as u1 s1 E1. apply write_sbt_untouched in E1.
  binv E as ctx s0 E0. apply deref_inv in E0. destruct E0 as [_ ->].
  binv E as u2 s2 E2.
  assert (Q2 : untouched s1 s2).
  { unfold liftW, setRootParams, modify in E2. injection E2 as _ <-. repeat split. }
  binv E as vars s3 E3. apply deref_inv in E3. destruct E3 as [_ ->].
  binv E as ok' s4 E4. apply applyProgramVarsCommon_untouched in E4.
  binv E as u5 s5 E5. unfold record_call, modify in E5. injection E5 as _ <-.
  unfold ret in E. injection E as _ <-.
  eapply untouched_trans; [exact E1|]. eapply untouched_trans; [exact Q2|].
  eapply untouched_trans; [exact E4|]. repeat split.
Qed.

Lemma for_return_untouched (body : Z -> M State (option bool)) :
  (forall i st r st', body i st = Ok (r, st') -> untouched st st') ->
  forall n i st r st', for_return n i body st = Ok (r, st') -> untouched st st'.
Proof.
  intros Hbody. induction n as [|n IH]; intros i st r st' E.
  - unfold for_return, ret in E. injection E as _ <-. apply untouched_refl.
  - cbn [for_return] in E. binv E as r1 s1 E1. apply Hbody in E1.
    destruct r1 as [x|].
    + unfold ret in E. injection E as _ <-. exact E1.
    + eapply untouched_trans; [exact E1 | exact (IH _ _ _ _ E)].
Qed.

Lemma record_step_untouched (ptr : M State Z) (prog : option Prog) what
    (vars : RtProgramVars -> option GraphicsVars) rtso progIdSize st r st' :
  (forall st o st', ptr st = Ok (o, st') -> st' = st) ->
  (pRecord <- ptr ;;
   pr <- deref prog what ;;
   pVars <- member vars ;;
   pContext <- member mpRtVarsHelper ;;
   ok <- applyRtProgramVars pRecord (getActiveVersion pr) rtso progIdSize pVars pContext ;;
   if negb ok then ret (Some false) else ret None) st = Ok (r, st') ->
  untouched st st'.
Proof.
  intros Hptr E. binv E as o s1 E1. apply Hptr in E1. subst s1.
  binv E as pr s2 E2. apply deref_inv in E2. destruct E2 as [_ ->].
  binv E as pVars s3 E3. unfold member, gets in E3. injection E3 as _ <-.
  binv E as pContext s5 E5. unfold member, gets in E5. injection E5 as _ <-.
  binv E as ok s4 E4. apply applyRtProgramVars_untouched in E4.
  destruct (negb ok); unfold ret in E; injection E as _ <-; exact E4.
Qed.

Lemma updateBuffer_untouched st u st' :
  updateBuffer (mpSBT (this st)) st = Ok (u, st') -> untouched st st'.
Proof.
  unfold updateBuffer. intros E.
  binv E as bf s1 E1. apply deref_inv in E1. destruct E1 as [Hb ->].
  binv E as data s2 E2. unfold member, gets in E2. injection E2 as <- <-.
  destruct (Z.of_nat (List.length (mSbtData (this st))) <? getSize bf); [discriminate|].
  unfold modify in E. injection E as _ <-.
  repeat split. intros id Hid. norm. rewrite Hb in Hid. cbn [bufferId] in Hid.
  destruct (Nat.eqb_spec id (bufId bf)); [contradiction | reflexivity].
Qed.

(** X10. Whatever the object and the world, and whether it returns true
    or false: a run of [apply] changes of the object nothing but the
    staging bytes, creates no binding variables and no buffer, logs
    nothing, leaves scenes and bindings as they are, and writes to no GPU
    buffer other than the object's own table. *)
Theorem apply_touches_table_only rtso st b st' :
  apply rtso st = Ok (b, st') -> untouched st st'.
Proof.
  unfold apply. intros E.
  binv E as o s1 E1. rewrite getRayGenRecordPtr_eq in E1. injection E1 as _ <-.
  binv E as pProgramPtr s2 E2. unfold member, gets in E2. injection E2 as <- <-.
  binv E as pProgram s2' E2'. apply deref_inv in E2'. destruct E2' as [_ ->].
  binv E as progIdSize s3 E3. unfold member, gets in E3. injection E3 as <- <-.
  binv E as rayGen s4 E4. apply deref_inv in E4. destruct E4 as [_ ->].
  binv E as rayGenVars s5 E5. unfold member, gets in E5. injection E5 as <- <-.
  binv E as pContext s5' E5'. unfold member, gets in E5'. injection E5' as <- <-.
  binv E as ok s6 E6. apply applyRtProgramVars_untouched in E6.
  binv E as r1 s7 E7.
  assert (Q1 : untouched s6 s7).
  { eapply for_return_untouched; [|exact E7].
    intros h st1 r st1' Eh. unfold apply_hit_program in Eh.
    binv Eh as g s8 E8. apply scene_getGeometryCount_pure in E8. subst s8.
    eapply for_return_untouched; [|exact Eh].
    intros i st2 r2 st2' Ei. unfold apply_hit_record in Ei.
    eapply record_step_untouched; [|exact Ei]. intros ? ? ?. apply getHitRecordPtr_pure. }
  destruct r1 as [b1|].
  - unfold ret in E. injection E as _ <-.
    eapply untouched_trans; [exact E6 | exact Q1].
  - binv E as r2 s8 E8.
    assert (Q2 : untouched s7 s8).
    { eapply for_return_untouched; [|exact E8].
      intros m st1 r st1' Em. unfold apply_miss_record in Em.
      eapply record_step_untouched; [|exact Em]. intros ? ? ?. apply getMissRecordPtr_pure. }
    destruct r2 as [b2|].
    + unfold ret in E. injection E as _ <-.
      eapply untouched_trans; [exact E6|]. eapply untouched_trans; [exact Q1 | exact Q2].
    + binv E as pSBT s9 E9. unfold member, gets in E9. injection E9 as <- <-.
      binv E as u s10 E10. apply updateBuffer_untouched in E10.
      unfold ret in E. injection E as _ <-.
      eapply untouched_trans; [exact E6|]. eapply untouched_trans; [exact Q1|].
      eapply untouched_trans; [exact Q2 | exact E10].
Qed.

(** The scenario of the spec. *)
Lemma apply_touches_table_only_witness :
  exists st',
    apply Scenario.rtso
      (mkState (this Unresolved.built3) (Scenario.world0 3 Scenario.all_resolved))
    = Ok (true, st') /\
    untouched (mkState (this Unresolved.built3) (Scenario.world0 3 Scenario.all_resolved)) st'.
Proof.
  assert (E : exists st',
             apply Scenario.rtso
               (mkState (this Unresolved.built3) (Scenario.world0 3 Scenario.all_resolved))
             = Ok (true, st')) by (eexists; vm_compute; reflexivity).
  destruct E as (st' & E). exists st'. split; [exact E|].
  exact (apply_touches_table_only _ _ _ _ E).
Defined.

(* ================================================================= *)
(** ** [apply] a second time *)

Lemma slot_valid_dec H Mi G s : {slot_valid H Mi G s} + {~ slot_valid H Mi G s}.
Proof.
  destruct s as [|h i|m]; cbn [slot_valid].
  - left. exact I.
  - destruct (Z_le_dec 0 h), (Z_lt_dec h H), (Z_le_dec 0 i), (Z_lt_dec i G);
      (left; lia) || (right; lia).
  - destruct (Z_le_dec 0 m), (Z_lt_dec m Mi); (left; lia) || (right; lia).
Qed.

Lemma Slot_eq_dec (s1 s2 : Slot) : {s1 = s2} + {s1 <> s2}.
Proof. decide equality; apply Z.eq_dec. Qed.

Lemma written_dec w o progIdSize pv gv x :
  {written w o progIdSize pv gv x} + {~ written w o progIdSize pv gv x}.
Proof.
  unfold written.
  destruct (Z_le_dec o x), (Z_lt_dec x (o + progIdSize)); try (left; lia).
  - destruct (resolved (wBindings w (gvId gv))).
    + destruct (Z_le_dec (o + progIdSize) x),
        (Z_lt_dec x (o + progIdSize + getSizeInBytes (getRootSignature pv)));
        (left; right; split; [reflexivity | lia]) || (right; intros [?|[_ ?]]; lia).
    + right. intros [?|[? _]]; [lia | discriminate].
  - destruct (resolved (wBindings w (gvId gv))).
    + destruct (Z_le_dec (o + progIdSize) x),
        (Z_lt_dec x (o + progIdSize + getSizeInBytes (getRootSignature pv)));
        (left; right; split; [reflexivity | lia]) || (right; intros [?|[_ ?]]; lia).
    + right. intros [?|[? _]]; [lia | discriminate].
  - destruct (resolved (wBindings w (gvId gv))).
    + destruct (Z_le_dec (o + progIdSize) x),
        (Z_lt_dec x (o + progIdSize + getSizeInBytes (getRootSignature pv)));
        (left; right; split; [reflexivity | lia]) || (right; intros [?|[_ ?]]; lia).
    + right. intros [?|[? _]]; [lia | discriminate].
Qed.

Section ApplyAgain.

Variables (plat : Platform) (p : RtProgram) (a : nat) (rayGen : Prog).
Variables (w0 w : World) (rtso : RtStateObject).

Let H := getHitProgramCount p.
Let Mi := getMissProgramCount p.
Let G := geometryCountIn w0 a H.
Let G' := geometryCountIn w a H.
Let rs := recordSizeOf plat rayGen p.
Let idSize := GetShaderIdentifierSize plat.
Let v := this (built plat p a rayGen w0).
Let L := List.length (mSbtData v).

Hypothesis Hrg : getRayGenProgram p = Some rayGen.
Hypothesis Hnz : rs <> 0.
Hypothesis Hfits : layout_fits plat rayGen p G.
Hypothesis Hle : G' <= G.

(** Staging bytes in which every record is serialised stay as they are
    when the records are serialised again. *)
Lemma serialised_again d0 d1 d2 :
  List.length d0 = L ->
  serialised_upto rtso w p v H Mi G' rs idSize (Spec.totalRecords Mi H G') d0 d1 ->
  serialised_upto rtso w p v H Mi G' rs idSize (Spec.totalRecords Mi H G') d1 d2 ->
  d2 = d1.
Proof.
  intros Hd0 (L1 & Ok1 & _) (L2 & Ok2 & Fr2).
  pose proof (H_range p) as HH. pose proof (Mi_range p) as HMi.
  pose proof (G_range p a w0) as HG. pose proof (G'_range p a w) as HG'.
  fold H in HH, HG, HG'. fold Mi in HMi. fold G in HG. fold G' in HG'.
  pose proof (rs_pos plat p a rayGen w0 w Hnz) as Hrs. fold rs in Hrs.
  pose proof (idSize_range plat) as Hid. fold idSize in Hid.
  pose proof (staging_length plat p a rayGen w0 w Hnz Hfits) as HLen.
  fold v L H Mi G rs in HLen.
  apply nth_error_ext. intros n.
  destruct (Z_lt_le_dec (Z.of_nat n) (Z.of_nat L)) as [Hin|Hout].
  2:{ rewrite (proj2 (nth_error_None d2 n)) by lia.
      rewrite (proj2 (nth_error_None d1 n)) by lia. reflexivity. }
  set (x := Z.of_nat n) in *.
  assert (Hx : 0 <= x) by (unfold x; lia).
  rewrite <- (Nat2Z.id n). fold x.
  pose proof (Z.div_mod x rs ltac:(lia)) as Hdm.
  pose proof (Z.mod_pos_bound x rs Hrs) as Hmod.
  set (k := x / rs) in *.
  assert (Hk : 0 <= k < Spec.totalRecords Mi H G) by nia.
  assert (Hrec : k * rs <= x < k * rs + rs) by nia.
  destruct (slot_of_index H Mi G k (proj1 HH) (proj1 HMi) (proj1 HG) Hk) as (s & VsG & Hidx).
  (* no other slot has byte [x] *)
  assert (Hother : forall s' pr' gv',
            slot_valid H Mi G' s' -> s' <> s -> slotProgram p s' = Some pr' ->
            ~ written w (slotIndex H Mi s' * rs) idSize (getActiveVersion pr') gv' x).
  { intros s' pr' gv' Vs' Hne Hp' Hw.
    pose proof (slot_valid_le H Mi G G' s' Hle Vs') as VsG'.
    pose proof (slot_holds plat p a rayGen w0 w Hrg Hfits s' pr' VsG' Hp') as Hh.
    fold idSize rs in Hh.
    apply (written_inside w _ idSize _ gv' rs x) in Hw; [|lia|exact Hh].
    apply (records_apart H Mi G rs s' s x (proj1 HH) (proj1 HMi) (proj1 HG) Hrs
             VsG' VsG Hne Hw).
    rewrite Hidx. exact Hrec. }
  destruct (slot_valid_dec H Mi G' s) as [Vs|NVs].
  - destruct (built_slotVars plat p a rayGen w0 s Hrg VsG) as (pr & Hp & Hv).
    fold v in Hv.
    set (gv := mkGraphicsVars
                 (wNextVars w0 + Z.to_nat (slotRank (getHitProgramCount p)
                                             (geometryCountIn w0 a (getHitProgramCount p)) s))
                 (getRootSignature (getActiveVersion pr))) in *.
    pose proof (slotRank_range H Mi G' s (proj1 HH) (proj1 HMi) (proj1 HG') Vs) as Hr.
    destruct (Ok1 s pr gv Vs (proj2 Hr) Hp Hv) as (Id1 & Pa1).
    destruct (Ok2 s pr gv Vs (proj2 Hr) Hp Hv) as (Id2 & Pa2).
    destruct (written_dec w (slotIndex H Mi s * rs) idSize (getActiveVersion pr) gv x)
      as [[Hw | (Hres & Hw)] | Hnw].
    + replace x with (slotIndex H Mi s * rs + (x - slotIndex H Mi s * rs)) by lia.
      rewrite Id1, Id2 by lia. reflexivity.
    + replace x with (slotIndex H Mi s * rs + idSize + (x - slotIndex H Mi s * rs - idSize))
        by lia.
      rewrite (Pa1 Hres), (Pa2 Hres) by lia. reflexivity.
    + apply Fr2; [exact Hx|].
      intros s' pr' gv' Vs' _ Hp' Hv'.
      destruct (Slot_eq_dec s' s) as [->|Hne].
      * assert (pr' = pr) by congruence. assert (gv' = gv) by congruence.
        subst pr' gv'. exact Hnw.
      * exact (Hother s' pr' gv' Vs' Hne Hp').
  - apply Fr2; [exact Hx|].
    intros s' pr' gv' Vs' _ Hp' Hv'.
    apply (Hother s' pr' gv' Vs'); [|exact Hp'].
    intros ->. exact (NVs Vs').
Qed.

End ApplyAgain.

(** X11. [apply] twice.  After a successful [apply], a second [apply] with
    nothing changed in between (same scene, same bindings) succeeds as
    well and leaves the object, the staging bytes and every GPU buffer
    exactly as the first one left them: the table is a function of the
    programs and the bindings, not of the number of calls. *)
Theorem apply_again_same_table plat p a rayGen w0 w rtso st d0 :
  let H := getHitProgramCount p in
  let Mi := getMissProgramCount p in
  let G' := geometryCountIn w a H in
  let v := this st in
  getRayGenProgram p = Some rayGen ->
  init plat (constructed p a w0) = Ok (true, st) ->
  layout_fits plat rayGen p (geometryCountIn w0 a H) ->
  G' <= geometryCountIn w0 a H ->
  List.length d0 = List.length (mSbtData v) ->
  (forall s, slot_valid H Mi G' s -> s <> RayGenSlot ->
     varsResolved w (slotVars v s) = true) ->
  exists st1 st2,
    apply rtso (mkState (set_mSbtData d0 v) w) = Ok (true, st1) /\
    apply rtso st1 = Ok (true, st2) /\
    this st2 = this st1 /\
    (forall id, wGpu (world st2) id = wGpu (world st1) id).
Proof.
  intros H Mi G' v Hrg E Hfits Hle Hd0 Hall.
  destruct (init_built _ _ _ _ _ _ Hrg E) as (Hnz & Hst).
  pose proof (H_range p) as HH. pose proof (Mi_range p) as HMi.
  pose proof (G'_range p a w) as HG'.
  pose proof (v_members plat p a rayGen w0) as (_ & _ & V3 & V4 & _).
  rewrite <- Hst in V3, V4. fold v in V3, V4.
  assert (Hres : expected_result v w G' = true).
  { apply expected_result_true; rewrite ?V3, ?V4; try (apply HG' || apply HH || apply HMi).
    exact Hall. }
  unfold v in *. subst st.
  destruct (apply_mid_image plat p a rayGen w0 w rtso Hrg Hnz Hfits Hle d0 Hd0
              (wRootParams w) (wRootParamsSize w) (wCalls w) Hres)
    as (d1 & b1 & sz1 & I1 & Run1).
  rewrite <- mid_start_data in Run1.
  match type of Run1 with _ = Ok (_, mkState _ ?w1') => set (w1 := w1') in * end.
  assert (Hd1 : List.length d1
                = List.length (mSbtData (this (built plat p a rayGen w0))))
    by (destruct I1 as (HL1 & _); rewrite HL1; exact Hd0).
  destruct (apply_mid_image plat p a rayGen w0 w1 rtso Hrg Hnz Hfits Hle d1 Hd1
              (wRootParams w1) (wRootParamsSize w1) (wCalls w1) Hres)
    as (d2 & b2 & sz2 & I2 & Run2).
  rewrite <- mid_start_data in Run2.
  assert (Hsame : d2 = d1)
    by exact (serialised_again plat p a rayGen w0 w rtso Hrg Hnz Hfits Hle d0 d1 d2
                Hd0 I1 I2).
  subst d2.
  eexists. eexists. split; [exact Run1|]. split; [exact Run2|].
  split; [reflexivity|].
  intros id. unfold w1. norm.
  destruct (Nat.eqb id (bufferId (mpSBT (this (built plat p a rayGen w0))))); reflexivity.
Qed.

(** The scenario of the spec, started on the zeroed table of [init]. *)
Lemma apply_again_same_table_witness :
  let w := Scenario.world0 3 Scenario.all_resolved in
  let st := built Scenario.plat Scenario.program 0 (Scenario.prog 16 "rayGen") w in
  exists st1 st2,
    apply Scenario.rtso (mkState (set_mSbtData (mSbtData (this st)) (this st)) w)
    = Ok (true, st1) /\
    apply Scenario.rtso st1 = Ok (true, st2) /\
    this st2 = this st1 /\
    (forall id, wGpu (world st2) id = wGpu (world st1) id).
Proof.
  intros w st.
  assert (E : init Scenario.plat (constructed Scenario.program 0 w) = Ok (true, st))
    by (vm_compute; reflexivity).
  assert (F : layout_fits Scenario.plat (Scenario.prog 16 "rayGen") Scenario.program
                (geometryCountIn w 0 (getHitProgramCount Scenario.program)))
    by (vm_compute; repeat split; congruence).
  assert (R : forall s,
             slot_valid (getHitProgramCount Scenario.program)
               (getMissProgramCount Scenario.program)
               (geometryCountIn w 0 (getHitProgramCount Scenario.program)) s ->
             s <> RayGenSlot -> varsResolved w (slotVars (this st) s) = true).
  { intros s Vs _. destruct s as [|h i|m]; [reflexivity| |].
    - destruct Vs as (Hh & Hi). change (0 <= h < 1) in Hh. change (0 <= i < 3) in Hi.
      assert (h = 0) by lia. subst h.
      assert (Hc : i = 0 \/ i = 1 \/ i = 2) by lia.
      destruct Hc as [-> | [-> | ->]]; reflexivity.
    - change (0 <= m < 1) in Vs. assert (m = 0) by lia. subst m. reflexivity. }
  exact (apply_again_same_table Scenario.plat Scenario.program 0%nat
           (Scenario.prog 16 "rayGen") w w Scenario.rtso st (mSbtData (this st))
           eq_refl E F ltac:(apply Z.le_refl) eq_refl R).
Defined.

(* ================================================================= *)
(** ** What [create] leaves behind *)

(** X12. A [create] that returns an object has uploaded nothing and
    logged nothing: GPU contents, call history, log, scenes and bindings
    are those before the call.  The table's GPU buffer is a new one (its
    identity is the next one the allocator had to give, and exactly one
    buffer was allocated), the staging bytes are as many as the buffer's,
    and all of them are zero. *)
Theorem create_footprint plat (pProgram : RtProgramPtr) s w v w' :
  create plat pProgram s w = Ok (Some v, w') ->
  wGpu w' = wGpu w /\ wCalls w' = wCalls w /\ wLog w' = wLog w /\
  wBindings w' = wBindings w /\ wScene w' = wScene w /\
  wNextBuffer w' = S (wNextBuffer w) /\
  (exists b, mpSBT v = Some b /\ bufId b = wNextBuffer w /\
             Z.of_nat (List.length (mSbtData v)) = getSize b) /\
  (forall n c, nth_error (mSbtData v) n = Some c -> c = x00).
Proof.
  intros E. destruct s as [a|].
  2:{ rewrite create_no_scene in E. discriminate. }
  destruct pProgram as [p|].
  2:{ rewrite create_null_program in E. discriminate. }
  destruct (getRayGenProgram p) as [rayGen|] eqn:Hrg.
  2:{ rewrite (create_no_rayGen plat p a w Hrg) in E. discriminate. }
  rewrite (create_spec _ _ _ _ _ Hrg) in E.
  destruct (recordSizeOf plat rayGen p =? 0); [discriminate|].
  injection E as <- <-.
  destruct (built_members plat p a rayGen w) as (_ & _ & _ & _ & _ & _ & _ & HB & HL).
  split; [reflexivity|]. split; [reflexivity|]. split; [reflexivity|].
  split; [reflexivity|]. split; [reflexivity|]. split; [reflexivity|].
  split.
  - eexists. split; [exact HB|]. split; [reflexivity | exact HL].
  - intros n c Hn. unfold built in Hn. cbn [this mSbtData] in Hn.
    apply nth_error_In in Hn. apply repeat_spec in Hn. exact Hn.
Qed.

(** The scenario of the spec. *)
Lemma create_footprint_witness :
  exists v w',
    create Scenario.plat (Some Scenario.program) (Some 0%nat)
      (Scenario.world0 3 Scenario.all_resolved) = Ok (Some v, w') /\
    wGpu w' = wGpu (Scenario.world0 3 Scenario.all_resolved) /\
    wNextBuffer w' = 1%nat /\
    (forall n c, nth_error (mSbtData v) n = Some c -> c = x00).
Proof.
  assert (E : exists v w',
             create Scenario.plat (Some Scenario.program) (Some 0%nat)
               (Scenario.world0 3 Scenario.all_resolved) = Ok (Some v, w'))
    by (eexists; eexists; vm_compute; reflexivity).
  destruct E as (v & w' & E). exists v, w'. split; [exact E|].
  destruct (create_footprint _ _ _ _ _ _ E) as (Hg & _ & _ & _ & _ & Hn & _ & Hz).
  split; [exact Hg|]. split; [exact Hn | exact Hz].
Defined.

(* ================================================================= *)
(** ** The writes of [apply], in order *)

Lemma upto_failure_app {X} (ok : X -> bool) l1 l2 :
  upto_failure ok (l1 ++ l2)
  = if forallb ok l1 then l1 ++ upto_failure ok l2 else upto_failure ok l1.
Proof.
  induction l1 as [|x l1 IH]; simpl; [reflexivity|].
  destruct (ok x); simpl; [|reflexivity].
  rewrite IH. destruct (forallb ok l1); reflexivity.
Qed.

Lemma upto_failure_all {X} (ok : X -> bool) l :
  forallb ok l = true -> upto_failure ok l = l.
Proof.
  induction l as [|x l IH]; simpl; intros E; [reflexivity|].
  apply andb_true_iff in E. destruct E as [-> E]. rewrite IH by assumption. reflexivity.
Qed.

Lemma until_failure_map {X} (c : X -> Call) (ok : X -> bool) l :
  (forall x, call_ok (c x) = ok x) ->
  until_failure (map c l) = map c (upto_failure ok l).
Proof.
  intros Hok. induction l as [|x l IH]; simpl; [reflexivity|].
  rewrite Hok. destruct (ok x); simpl; [rewrite IH|]; reflexivity.
Qed.

Lemma forallb_calls {X} (c : X -> Call) (ok : X -> bool) l :
  (forall x, call_ok (c x) = ok x) ->
  forallb call_ok (map c l) = forallb ok l.
Proof.
  intros Hok. induction l as [|x l IH]; simpl; [reflexivity|].
  rewrite Hok, IH. reflexivity.
Qed.

Lemma call_ok_slotCall v w s : call_ok (slotCall v w s) = slotOk w v s.
Proof. destruct s; reflexivity. Qed.

Lemma hitCalls_slots v w g :
  hitCalls v w g = map (slotCall v w) (hitSlots (mHitProgCount v) g).
Proof.
  unfold hitCalls, hitSlots.
  induction (zrange (mHitProgCount v)) as [|h l IH]; simpl; [reflexivity|].
  rewrite map_app, map_map, IH. reflexivity.
Qed.

Lemma missCalls_slots v w :
  missCalls v w = map (slotCall v w) (missSlots (mMissProgCount v)).
Proof. unfold missCalls, missSlots. rewrite map_map. reflexivity. Qed.

(** The calls and the result of the spec, in terms of the slots. *)
Lemma expected_slots v w g :
  expected_result v w g
  = forallb (slotOk w v) (hitSlots (mHitProgCount v) g ++ missSlots (mMissProgCount v)) /\
  expected_calls v w g
  = map (slotCall v w) (handledSlots w v g)
      ++ (if expected_result v w g then [CallUpdateBuffer (bufferId (mpSBT v))] else []).
Proof.
  split.
  - unfold expected_result. rewrite hitCalls_slots, missCalls_slots, <- map_app.
    apply forallb_calls. apply call_ok_slotCall.
  - unfold expected_calls, handledSlots.
    rewrite hitCalls_slots, missCalls_slots, <- map_app.
    rewrite (until_failure_map _ (slotOk w v)) by apply call_ok_slotCall.
    reflexivity.
Qed.

(** A loop with early return whose turn [i] handles the slots [sl i]:
    the loop handles the slots of its turns, one turn after the other, up
    to the first slot that fails. *)
Lemma for_return_trace (body : Z -> M State (option bool)) (sl : Z -> list Slot)
    (ok : Slot -> bool) (C : Slot -> Call) (W : list byte -> Slot -> list byte)
    v w (L : nat) :
  forall n i0,
  (forall i d b sz cs, i0 <= i < i0 + Z.of_nat n -> List.length d = L ->
     List.length (fold_left W (upto_failure ok (sl i)) d) = L /\
     exists b' sz',
       body i (mid v w d b sz cs)
       = Ok (flag (forallb ok (sl i)),
             mid v w (fold_left W (upto_failure ok (sl i)) d) b' sz'
               (cs ++ map C (upto_failure ok (sl i))))) ->
  forall d b sz cs, List.length d = L ->
    List.length (fold_left W (upto_failure ok (flat_map sl (zseq i0 n))) d) = L /\
    exists b' sz',
      for_return n i0 body (mid v w d b sz cs)
      = Ok (flag (forallb ok (flat_map sl (zseq i0 n))),
            mid v w (fold_left W (upto_failure ok (flat_map sl (zseq i0 n))) d) b' sz'
              (cs ++ map C (upto_failure ok (flat_map sl (zseq i0 n))))).
Proof.
  induction n as [|n IH]; intros i0 Hbody d b sz cs HL.
  - cbn [zseq flat_map upto_failure fold_left forallb map for_return flag].
    split; [exact HL|]. exists b, sz. unfold ret. rewrite app_nil_r. reflexivity.
  - destruct (Hbody i0 d b sz cs ltac:(lia) HL) as (L1 & b1 & sz1 & E1).
    cbn [zseq flat_map for_return]. unfold bind. rewrite E1.
    rewrite forallb_app, upto_failure_app.
    destruct (forallb ok (sl i0)) eqn:Hok; cbn [flag andb].
    + rewrite (upto_failure_all ok (sl i0) Hok) in *.
      destruct (IH (i0 + 1)
                  ltac:(intros i d2 b2 sz2 cs2 Hi HL2; apply Hbody; [lia | exact HL2])
                  (fold_left W (sl i0) d) b1 sz1 (cs ++ map C (sl i0)) L1)
        as (L' & b' & sz' & E').
      rewrite fold_left_app, map_app, app_assoc.
      split; [exact L'|]. exists b', sz'. exact E'.
    + split; [exact L1|]. exists b1, sz1. reflexivity.
Qed.

Lemma flat_map_single {X Y} (f : X -> Y) l : flat_map (fun x => [f x]) l = map f l.
Proof. induction l as [|x l IH]; simpl; [reflexivity | rewrite IH; reflexivity]. Qed.

Lemma upto_failure_single {X} (ok : X -> bool) x : upto_failure ok [x] = [x].
Proof. simpl. destruct (ok x); reflexivity. Qed.

Section ApplyTrace.

Variables (plat : Platform) (p : RtProgram) (a : nat) (rayGen : Prog).
Variables (w0 w : World) (rtso : RtStateObject).

Let H := getHitProgramCount p.
Let Mi := getMissProgramCount p.
Let G := geometryCountIn w0 a H.
Let G' := geometryCountIn w a H.
Let rs := recordSizeOf plat rayGen p.
Let idSize := GetShaderIdentifierSize plat.
Let v := this (built plat p a rayGen w0).
Let L := List.length (mSbtData v).

Hypothesis Hrg : getRayGenProgram p = Some rayGen.
Hypothesis Hnz : rs <> 0.
Hypothesis Hfits : layout_fits plat rayGen p G.
Hypothesis Hle : G' <= G.

(** The write for a slot of the table: the record image at the slot's
    offset, as long as the staging bytes. *)
Lemma slotWrite_image d s pr gv :
  slot_valid H Mi G s -> slotProgram p s = Some pr -> slotVars v s = Some gv ->
  List.length d = L ->
  slotWrite rtso w p v d s
  = record_image rtso w d (slotIndex H Mi s * rs) idSize (getActiveVersion pr) gv /\
  List.length (slotWrite rtso w p v d s) = L /\
  0 <= slotIndex H Mi s * rs /\
  slotIndex H Mi s * rs + idSize + getSizeInBytes (getRootSignature (getActiveVersion pr))
    <= Z.of_nat (List.length d).
Proof.
  intros Vs Hp Hv HL.
  pose proof (v_members plat p a rayGen w0) as HV. fold v H Mi rs idSize in HV.
  destruct HV as (_ & _ & V3 & V4 & _ & V6 & V7).
  pose proof (idSize_range plat) as Hid. fold idSize in Hid.
  pose proof (slot_holds plat p a rayGen w0 w Hrg Hfits s pr Vs Hp) as Hrec.
  fold idSize rs in Hrec.
  pose proof (slot_inside plat p a rayGen w0 w Hnz Hfits (mSbtData v) eq_refl s Vs) as Hin.
  fold v L H Mi rs in Hin.
  assert (E : slotWrite rtso w p v d s
              = record_image rtso w d (slotIndex H Mi s * rs) idSize (getActiveVersion pr) gv).
  { unfold slotWrite. rewrite Hp, Hv, V3, V4, V6, V7. reflexivity. }
  split; [exact E|]. rewrite E.
  split; [|split; [lia | rewrite HL; lia]].
  rewrite record_image_length by (rewrite ?HL; lia). exact HL.
Qed.

Lemma apply_hit_record_trace h i d b sz cs :
  0 <= h < H -> 0 <= i < G' -> List.length d = L ->
  List.length (slotWrite rtso w p v d (HitSlot h i)) = L /\
  exists b' sz',
    apply_hit_record rtso p idSize h i (mid v w d b sz cs)
    = Ok (flag (slotOk w v (HitSlot h i)),
          mid v w (slotWrite rtso w p v d (HitSlot h i)) b' sz'
            (cs ++ [slotCall v w (HitSlot h i)])).
Proof.
  intros Hh Hi HL.
  pose proof (Mi_range p) as HMi. pose proof (rs_pos plat p a rayGen w0 w Hnz) as Hrs.
  pose proof (table_fits_G plat p a rayGen w0 Hfits) as Ht.
  pose proof (mid_members plat p a rayGen w0 w d b sz cs) as HM.
  cbv zeta in HM. fold v H Mi rs idSize in HM.
  destruct HM as (E1 & E2 & E3 & E4 & E5 & E6 & E7 & E8 & _ & _ & E9 & _).
  pose proof (v_members plat p a rayGen w0) as HV. fold v H Mi rs idSize in HV.
  destruct HV as (V1 & _ & V3 & V4 & _ & _ & V7).
  assert (VsG : slot_valid H Mi G (HitSlot h i)) by (split; lia).
  destruct (getHitProgram_visited p h Hh) as (pr & Hpr & _ & _).
  destruct (built_hit_vars plat p a rayGen w0 h i Hh ltac:(fold H; fold G; lia)) as (gv & Hgv).
  fold v in Hgv.
  assert (Hoff : U32.mul (U32.add (U32.add (U32.add kFirstMissSbtRecordIndex Mi)
                                     (U32.mul H i)) h) rs
                 = Spec.hitOffset rs Mi H h i)
    by (apply (hitOffset_exact Mi H G); lia || assumption).
  assert (Hidx : slotIndex H Mi (HitSlot h i) * rs = Spec.hitOffset rs Mi H h i)
    by reflexivity.
  destruct (slotWrite_image d (HitSlot h i) pr gv VsG Hpr Hgv HL) as (EW & LW & Ho & Hfit).
  rewrite Hidx in EW, Ho, Hfit.
  pose proof (idSize_range plat) as Hid. fold idSize in Hid.
  split; [exact LW|]. rewrite EW.
  exists (Spec.hitOffset rs Mi H h i + idSize),
    (getSizeInBytes (getRootSignature (getActiveVersion pr))).
  unfold apply_hit_record.
  eapply bind_Ok.
  { rewrite getHitRecordPtr_eq, E3, E5, E7.
    destruct (Z.ltb_spec h H); [|lia]. rewrite Hoff. reflexivity. }
  rewrite Hpr. eapply bind_Ok. { reflexivity. }
  eapply bind_Ok. { unfold member, gets. rewrite E9, Hgv. reflexivity. }
  eapply bind_Ok.
  { unfold member, gets.
    change (mpRtVarsHelper (this (mid v w d b sz cs))) with (Some RtVarsContext_create).
    reflexivity. }
  eapply bind_Ok. { apply applyRtProgramVars_image; lia. }
  unfold slotCall, slotOk, hitCall, programOf. cbn [slotVars].
  rewrite V1, V3, V4, V7. cbv beta iota. rewrite Hpr, Hgv.
  cbn [exportNameOf varsId varsResolved].
  destruct (resolved (wBindings w (gvId gv))); reflexivity.
Qed.

Lemma apply_miss_record_trace m d b sz cs :
  0 <= m < Mi -> List.length d = L ->
  List.length (slotWrite rtso w p v d (MissSlot m)) = L /\
  exists b' sz',
    apply_miss_record rtso p idSize m (mid v w d b sz cs)
    = Ok (flag (slotOk w v (MissSlot m)),
          mid v w (slotWrite rtso w p v d (MissSlot m)) b' sz'
            (cs ++ [slotCall v w (MissSlot m)])).
Proof.
  intros Hm HL.
  pose proof (H_range p) as HH. pose proof (G_range p a w0) as HG.
  fold H in HH, HG. fold G in HG.
  pose proof (rs_pos plat p a rayGen w0 w Hnz) as Hrs.
  pose proof (table_fits_G plat p a rayGen w0 Hfits) as Ht.
  pose proof (mid_members plat p a rayGen w0 w d b sz cs) as HM.
  cbv zeta in HM. fold v H Mi rs idSize in HM.
  destruct HM as (E1 & E2 & E3 & E4 & E5 & E6 & E7 & E8 & _ & _ & _ & E9).
  pose proof (v_members plat p a rayGen w0) as HV. fold v H Mi rs idSize in HV.
  destruct HV as (V1 & _ & V3 & V4 & _ & _ & V7).
  assert (VsG : slot_valid H Mi G (MissSlot m)) by exact Hm.
  destruct (getMissProgram_visited p m Hm) as (pr & Hpr & _ & _).
  destruct (built_miss_vars plat p a rayGen w0 m Hm) as (gv & Hgv). fold v in Hgv.
  assert (Hoff : U32.mul rs (U32.add kFirstMissSbtRecordIndex m) = Spec.missOffset rs m)
    by (apply (missOffset_exact Mi H G); lia || assumption).
  assert (Hidx : slotIndex H Mi (MissSlot m) * rs = Spec.missOffset rs m) by reflexivity.
  destruct (slotWrite_image d (MissSlot m) pr gv VsG Hpr Hgv HL) as (EW & LW & Ho & Hfit).
  rewrite Hidx in EW, Ho, Hfit.
  pose proof (idSize_range plat) as Hid. fold idSize in Hid.
  split; [exact LW|]. rewrite EW.
  exists (Spec.missOffset rs m + idSize),
    (getSizeInBytes (getRootSignature (getActiveVersion pr))).
  unfold apply_miss_record.
  eapply bind_Ok.
  { rewrite getMissRecordPtr_eq, E4, E7.
    destruct (Z.ltb_spec m Mi); [|lia]. rewrite Hoff. reflexivity. }
  rewrite Hpr. eapply bind_Ok. { reflexivity. }
  eapply bind_Ok. { unfold member, gets. rewrite E9, Hgv. reflexivity. }
  eapply bind_Ok.
  { unfold member, gets.
    change (mpRtVarsHelper (this (mid v w d b sz cs))) with (Some RtVarsContext_create).
    reflexivity. }
  eapply bind_Ok. { apply applyRtProgramVars_image; lia. }
  unfold slotCall, slotOk, missCall, programOf. cbn [slotVars].
  rewrite V1, V7. cbv beta iota. rewrite Hpr, Hgv.
  cbn [exportNameOf varsId varsResolved].
  destruct (resolved (wBindings w (gvId gv))); reflexivity.
Qed.

Lemma apply_rayGen_trace d b sz cs :
  List.length d = L ->
  List.length (slotWrite rtso w p v d RayGenSlot) = L /\
  exists b' sz',
    applyRtProgramVars 0 (getActiveVersion rayGen) rtso idSize (mRayGenVars v)
      (mpRtVarsHelper v) (mid v w d b sz cs)
    = Ok (slotOk w v RayGenSlot,
          mid v w (slotWrite rtso w p v d RayGenSlot) b' sz'
            (cs ++ [slotCall v w RayGenSlot])).
Proof.
  intros HL.
  pose proof (v_members plat p a rayGen w0) as HV. fold v H Mi rs idSize in HV.
  destruct HV as (V1 & _).
  assert (Hgv : exists gv, mRayGenVars v = Some gv) by (eexists; reflexivity).
  destruct Hgv as (gv & Hgv).
  destruct (slotWrite_image d RayGenSlot rayGen gv I Hrg Hgv HL) as (EW & LW & Ho & Hfit).
  change (slotIndex H Mi RayGenSlot * rs) with 0 in *.
  pose proof (idSize_range plat) as Hid. fold idSize in Hid.
  split; [exact LW|]. rewrite EW.
  exists (0 + idSize), (getSizeInBytes (getRootSignature (getActiveVersion rayGen))).
  unfold slotCall, slotOk, rayGenCall, programOf. cbn [slotVars].
  rewrite V1. cbv beta iota. rewrite Hrg, Hgv. change Spec.rayGenOffset with 0.
  cbn [exportNameOf varsId varsResolved].
  apply applyRtProgramVars_image; lia.
Qed.

Lemma apply_hit_program_trace h d b sz cs :
  0 <= h < H -> List.length d = L ->
  List.length
    (fold_left (slotWrite rtso w p v)
       (upto_failure (slotOk w v) (map (HitSlot h) (zrange G'))) d) = L /\
  exists b' sz',
    apply_hit_program rtso p idSize H h (mid v w d b sz cs)
    = Ok (flag (forallb (slotOk w v) (map (HitSlot h) (zrange G'))),
          mid v w
            (fold_left (slotWrite rtso w p v)
               (upto_failure (slotOk w v) (map (HitSlot h) (zrange G'))) d) b' sz'
            (cs ++ map (slotCall v w)
                     (upto_failure (slotOk w v) (map (HitSlot h) (zrange G'))))).
Proof.
  intros Hh HL. pose proof (G'_range p a w) as HG'. fold H in HG'. fold G' in HG'.
  pose proof (mid_members plat p a rayGen w0 w d b sz cs) as HM.
  cbv zeta in HM. fold v H Mi rs idSize in HM.
  destruct HM as (_ & E2 & _).
  destruct (for_return_trace (apply_hit_record rtso p idSize h)
              (fun i => [HitSlot h i]) (slotOk w v) (slotCall v w)
              (slotWrite rtso w p v) v w L (Z.to_nat G') 0) with (d := d) (b := b)
              (sz := sz) (cs := cs) as (L' & b' & sz' & E'); [|exact HL|].
  { intros i d1 b1 sz1 cs1 Hi HL1.
    rewrite upto_failure_single. cbn [fold_left forallb map]. rewrite andb_true_r.
    apply apply_hit_record_trace; [exact Hh | lia | exact HL1]. }
  rewrite flat_map_single in L', E'. fold (zrange G') in L', E'.
  split; [exact L'|]. exists b', sz'.
  unfold apply_hit_program. eapply bind_Ok; [|exact E'].
  unfold scene_getGeometryCount. rewrite E2. reflexivity.
Qed.

Lemma apply_hit_loop_trace d b sz cs :
  List.length d = L ->
  List.length
    (fold_left (slotWrite rtso w p v) (upto_failure (slotOk w v) (hitSlots H G')) d) = L /\
  exists b' sz',
    for_return (Z.to_nat H) 0 (apply_hit_program rtso p idSize H) (mid v w d b sz cs)
    = Ok (flag (forallb (slotOk w v) (hitSlots H G')),
          mid v w
            (fold_left (slotWrite rtso w p v) (upto_failure (slotOk w v) (hitSlots H G')) d)
            b' sz'
            (cs ++ map (slotCall v w) (upto_failure (slotOk w v) (hitSlots H G')))).
Proof.
  intros HL. pose proof (H_range p) as HH. fold H in HH.
  apply (for_return_trace (apply_hit_program rtso p idSize H)
           (fun h => map (HitSlot h) (zrange G')) (slotOk w v) (slotCall v w)
           (slotWrite rtso w p v) v w L (Z.to_nat H) 0); [|exact HL].
  intros h d1 b1 sz1 cs1 Hh HL1.
  apply apply_hit_program_trace; [lia | exact HL1].
Qed.

Lemma apply_miss_loop_trace d b sz cs :
  List.length d = L ->
  List.length
    (fold_left (slotWrite rtso w p v) (upto_failure (slotOk w v) (missSlots Mi)) d) = L /\
  exists b' sz',
    for_return (Z.to_nat Mi) 0 (apply_miss_record rtso p idSize) (mid v w d b sz cs)
    = Ok (flag (forallb (slotOk w v) (missSlots Mi)),
          mid v w
            (fold_left (slotWrite rtso w p v) (upto_failure (slotOk w v) (missSlots Mi)) d)
            b' sz'
            (cs ++ map (slotCall v w) (upto_failure (slotOk w v) (missSlots Mi)))).
Proof.
  intros HL. pose proof (Mi_range p) as HMi. fold Mi in HMi.
  destruct (for_return_trace (apply_miss_record rtso p idSize)
              (fun m => [MissSlot m]) (slotOk w v) (slotCall v w)
              (slotWrite rtso w p v) v w L (Z.to_nat Mi) 0) with (d := d) (b := b)
              (sz := sz) (cs := cs) as (L' & b' & sz' & E'); [|exact HL|].
  { intros m d1 b1 sz1 cs1 Hm HL1.
    rewrite upto_failure_single. cbn [fold_left forallb map]. rewrite andb_true_r.
    apply apply_miss_record_trace; [lia | exact HL1]. }
  rewrite flat_map_single in L', E'.
  split; [exact L'|]. exists b', sz'. exact E'.
Qed.

(** [apply] on the object [init] built: the result, and the staging
    bytes as the writes for the slots it handles, one after the other. *)
Lemma apply_trace d0 b sz cs :
  List.length d0 = L ->
  exists st',
    apply rtso (mid v w d0 b sz cs)
    = Ok (forallb (slotOk w v) (hitSlots H G' ++ missSlots Mi), st') /\
    mSbtData (this st')
    = fold_left (slotWrite rtso w p v)
        (RayGenSlot :: upto_failure (slotOk w v) (hitSlots H G' ++ missSlots Mi)) d0.
Proof.
  intros HL0.
  pose proof (mid_members plat p a rayGen w0 w d0 b sz cs) as HM.
  cbv zeta in HM. fold v H Mi rs idSize in HM.
  destruct HM as (E1 & _ & _ & _ & _ & E6 & E7 & _ & E9 & _).
  destruct (apply_rayGen_trace d0 b sz cs HL0) as (L1 & b1 & sz1 & R1).
  set (d1 := slotWrite rtso w p v d0 RayGenSlot) in *.
  destruct (apply_hit_loop_trace d1 b1 sz1 (cs ++ [slotCall v w RayGenSlot]) L1)
    as (L2 & b2 & sz2 & R2).
  set (d2 := fold_left (slotWrite rtso w p v)
               (upto_failure (slotOk w v) (hitSlots H G')) d1) in *.
  set (cs2 := (cs ++ [slotCall v w RayGenSlot])
                ++ map (slotCall v w) (upto_failure (slotOk w v) (hitSlots H G'))) in *.
  destruct (apply_miss_loop_trace d2 b2 sz2 cs2 L2) as (L3 & b3 & sz3 & R3).
  set (d3 := fold_left (slotWrite rtso w p v)
               (upto_failure (slotOk w v) (missSlots Mi)) d2) in *.
  set (cs3 := cs2 ++ map (slotCall v w) (upto_failure (slotOk w v) (missSlots Mi))) in *.
  pose proof (mid_members plat p a rayGen w0 w d3 b3 sz3 cs3) as HM3.
  cbv zeta in HM3. fold v H Mi rs idSize in HM3.
  destruct HM3 as (_ & _ & _ & _ & _ & _ & _ & _ & _ & E10 & _).
  destruct (built_members plat p a rayGen w0) as (_ & _ & _ & _ & _ & _ & _ & HB & HD).
  fold v in HB, HD. fold L in HD.
  assert (Run : apply rtso (mid v w d0 b sz cs)
                = match flag (forallb (slotOk w v) (hitSlots H G')) with
                  | Some r => Ok (r, mid v w d2 b2 sz2 cs2)
                  | None =>
                      match flag (forallb (slotOk w v) (missSlots Mi)) with
                      | Some r => Ok (r, mid v w d3 b3 sz3 cs3)
                      | None =>
                          (pSBT <- member mpSBT ;; updateBuffer pSBT ;;; ret true)
                            (mid v w d3 b3 sz3 cs3)
                      end
                  end).
  { unfold apply.
    eapply bind_Ok. { rewrite getRayGenRecordPtr_eq, E7. reflexivity. }
    step. rewrite E1. step. step. rewrite E6.
    rewrite Hrg. eapply bind_Ok. { reflexivity. }
    step. rewrite E9. step.
    replace (U32.mul kRayGenSbtRecordIndex rs) with 0 by reflexivity.
    eapply bind_Ok. { exact R1. }
    eapply bind_Ok. { exact R2. }
    destruct (flag (forallb (slotOk w v) (hitSlots H G'))); [reflexivity|].
    eapply bind_Ok. { exact R3. }
    destruct (flag (forallb (slotOk w v) (missSlots Mi))); reflexivity. }
  rewrite Run. clear Run.
  rewrite forallb_app, upto_failure_app. cbn [fold_left]. fold d1.
  destruct (forallb (slotOk w v) (hitSlots H G')) eqn:EH; cbn [flag andb].
  - rewrite fold_left_app.
    replace (fold_left (slotWrite rtso w p v) (hitSlots H G') d1) with d2
      by (unfold d2; rewrite (upto_failure_all _ _ EH); reflexivity).
    destruct (forallb (slotOk w v) (missSlots Mi)) eqn:EM; cbn [flag].
    + eexists. split.
      * step. rewrite E10, HB.
        eapply bind_Ok.
        { apply (updateBuffer_spec plat p a rayGen w0 w). cbn [getSize]. rewrite L3.
          exact HD. }
        reflexivity.
      * norm. reflexivity.
    + eexists. split; [reflexivity|]. unfold mid. norm. reflexivity.
  - eexists. split; [reflexivity|]. unfold mid. norm. reflexivity.
Qed.

End ApplyTrace.

(* ================================================================= *)
(** ** The order of [apply] *)

(** C9. On the object [init] built, in a later world whose scene reports
    no more geometry than at [init], [apply] handles the records in this
    order and no other: the ray-gen record; the hit records, hit-group
    index outer and geometry index inner, each at its [hitOffset]; the miss
    records in index order, each at its [missOffset]; the upload.  The
    first hit or miss record that fails ends the sequence, without upload:
    [apply] returns false and no GPU buffer has changed.  The records are
    written as they are called: the calls are those of the slots handled,
    and the staging bytes [apply] leaves are those of writing the record
    of each handled slot, one after the other in this order, into the
    staging bytes it found.  When no record fails, then, the record of
    every slot holds the shader identifier of its program and the
    parameter block of its binding variables (the ray-gen record's only if
    its bindings resolve), every other staging byte is as before, and the
    GPU buffer of the table holds the staging bytes. *)
Theorem apply_order plat p a rayGen w0 w rtso st :
  getRayGenProgram p = Some rayGen ->
  init plat (constructed p a w0) = Ok (true, st) ->
  layout_fits plat rayGen p (geometryCountIn w0 a (getHitProgramCount p)) ->
  geometryCountIn w a (getHitProgramCount p)
    <= geometryCountIn w0 a (getHitProgramCount p) ->
  let v := this st in
  let g := geometryCountIn w a (getHitProgramCount p) in
  let H := getHitProgramCount p in
  let Mi := getMissProgramCount p in
  exists st',
    apply rtso (mkState v w) = Ok (expected_result v w g, st') /\
    wCalls (world st') = wCalls w ++ expected_calls v w g /\
    (expected_result v w g = true ->
     expected_calls v w g
     = rayGenCall v w :: hitCalls v w g ++ missCalls v w
         ++ [CallUpdateBuffer (bufferId (mpSBT v))]) /\
    (expected_result v w g = false ->
     forall buf, ~ In (CallUpdateBuffer buf) (expected_calls v w g)) /\
    expected_calls v w g
    = map (slotCall v w) (handledSlots w v g)
        ++ (if expected_result v w g then [CallUpdateBuffer (bufferId (mpSBT v))] else []) /\
    mSbtData (this st')
    = fold_left (slotWrite rtso w p v) (handledSlots w v g) (mSbtData v) /\
    (expected_result v w g = true ->
     wGpu (world st') (bufferId (mpSBT v)) = mSbtData (this st') /\
     (forall s pr gv,
        slot_valid H Mi g s -> slotProgram p s = Some pr -> slotVars v s = Some gv ->
        record_ok rtso w (mSbtData (this st')) (slotIndex H Mi s * mRecordSize v)
          (mProgramIdentifierSize v) (getActiveVersion pr) gv) /\
     (forall x, 0 <= x ->
        (forall s pr gv,
           slot_valid H Mi g s -> slotProgram p s = Some pr -> slotVars v s = Some gv ->
           ~ written w (slotIndex H Mi s * mRecordSize v) (mProgramIdentifierSize v)
               (getActiveVersion pr) gv x) ->
        nth_error (mSbtData (this st')) (Z.to_nat x)
        = nth_error (mSbtData v) (Z.to_nat x))) /\
    (expected_result v w g = false -> wGpu (world st') = wGpu w).
Proof.
  intros Hrg E Hfits Hle v g H Mi.
  destruct (init_built _ _ _ _ _ _ Hrg E) as (Hnz & Hst). subst st.
  pose proof (H_range p) as HH. pose proof (Mi_range p) as HMi.
  pose proof (G'_range p a w) as HG.
  destruct (built_members plat p a rayGen w0) as (_ & _ & VH & VM & _ & V6 & V7 & _).
  fold v in VH, VM, V6, V7.
  assert (Hshape : expected_result v w g = true ->
            expected_calls v w g
            = rayGenCall v w :: hitCalls v w g ++ missCalls v w
                ++ [CallUpdateBuffer (bufferId (mpSBT v))]).
  { intros Hres. unfold expected_calls. rewrite Hres.
    unfold expected_result in Hres. rewrite (until_failure_all_ok _ Hres), <- app_assoc.
    reflexivity. }
  assert (Hnoup : expected_result v w g = false ->
            forall buf, ~ In (CallUpdateBuffer buf) (expected_calls v w g)).
  { intros Hres buf. apply failed_calls_no_upload; try assumption.
    - apply HG.
    - rewrite VH. apply HH.
    - rewrite VM. apply HMi. }
  destruct (apply_trace plat p a rayGen w0 w rtso Hrg Hnz Hfits Hle (mSbtData v)
              (wRootParams w) (wRootParamsSize w) (wCalls w) eq_refl)
    as (st2 & Htr & Hdata).
  rewrite <- mid_start in Htr.
  assert (Hdata' : mSbtData (this st2)
                   = fold_left (slotWrite rtso w p v) (handledSlots w v g) (mSbtData v))
    by (rewrite Hdata; unfold handledSlots; rewrite VH, VM; reflexivity).
  clear Hdata. rename Hdata' into Hdata.
  pose proof (proj2 (expected_slots v w g)) as Hslots.
  destruct (expected_result v w g) eqn:Hres.
  - destruct (apply_mid_image plat p a rayGen w0 w rtso Hrg Hnz Hfits Hle (mSbtData v)
                eq_refl (wRootParams w) (wRootParamsSize w) (wCalls w) Hres)
      as (d' & b' & sz' & (HL & Hok & Hfr) & Hrun).
    rewrite <- mid_start in Hrun.
    rewrite Hrun in Htr. injection Htr as _ Hst2. rewrite <- Hst2 in Hdata.
    eexists. split; [exact Hrun|].
    split; [reflexivity|]. split; [exact Hshape|]. split; [exact Hnoup|].
    split; [exact Hslots|]. split; [exact Hdata|].
    split; [|discriminate].
    intros _. rewrite V6, V7. norm.
    split; [rewrite Nat.eqb_refl; reflexivity|].
    split.
    + intros s pr gv Vs Hp Hv. apply (Hok s pr gv Vs); try assumption.
      pose proof (slotRank_range _ _ _ _ (proj1 HH) (proj1 HMi) (proj1 HG) Vs). lia.
    + intros x Hx Hout. apply Hfr; [exact Hx|].
      intros s pr gv Vs _ Hp Hv. exact (Hout s pr gv Vs Hp Hv).
  - destruct (apply_spec plat p a rayGen w0 w rtso Hrg Hnz Hfits Hle)
      as (st' & Hrun & Hcalls & _ & Hquiet & _).
    fold v g in Hrun, Hcalls, Hquiet. rewrite Hres in Hrun, Hquiet.
    rewrite Hrun in Htr. injection Htr as _ Hst2. rewrite <- Hst2 in Hdata.
    exists st'. split; [exact Hrun|]. split; [exact Hcalls|].
    split; [exact Hshape|]. split; [exact Hnoup|].
    split; [exact Hslots|]. split; [exact Hdata|].
    split; [discriminate|]. exact Hquiet.
Qed.

(** The scenario of the spec, every binding resolving: the calls in
    order, the miss record in the staging bytes (identifier at 128,
    parameter block from 160), and the upload. *)
Lemma apply_order_witness :
  exists st',
    apply Scenario.rtso
      (mkState (this Unresolved.built3) (Scenario.world0 3 Scenario.all_resolved))
    = Ok (true, st') /\
    wCalls (world st')
    = [CallApplyRecord 0 "rayGen" 0 true;
       CallApplyRecord 256 "hit0" 1 true;
       CallApplyRecord 384 "hit0" 2 true;
       CallApplyRecord 512 "hit0" 3 true;
       CallApplyRecord 128 "miss0" 4 true;
       CallUpdateBuffer 0] /\
    mSbtData (this st')
    = fold_left
        (slotWrite Scenario.rtso (Scenario.world0 3 Scenario.all_resolved) Scenario.program
           (this Unresolved.built3))
        [RayGenSlot; HitSlot 0 0; HitSlot 0 1; HitSlot 0 2; MissSlot 0]
        (mSbtData (this Unresolved.built3)) /\
    nth_error (mSbtData (this st')) 128 = Some x01 /\
    nth_error (mSbtData (this st')) 160 = Some x00 /\
    wGpu (world st') 0%nat = mSbtData (this st').
Proof.
  assert (E : init Scenario.plat
                (constructed Scenario.program 0 (Scenario.world0 3 Scenario.all_resolved))
              = Ok (true, Unresolved.built3)) by (vm_compute; reflexivity).
  assert (F : layout_fits Scenario.plat (Scenario.prog 16 "rayGen") Scenario.program
                (geometryCountIn (Scenario.world0 3 Scenario.all_resolved) 0
                   (getHitProgramCount Scenario.program)))
    by (vm_compute; repeat split; reflexivity).
  assert (G : geometryCountIn (Scenario.world0 3 Scenario.all_resolved) 0
                (getHitProgramCount Scenario.program)
              <= geometryCountIn (Scenario.world0 3 Scenario.all_resolved) 0
                   (getHitProgramCount Scenario.program)) by lia.
  destruct (apply_order Scenario.plat Scenario.program 0 (Scenario.prog 16 "rayGen")
              (Scenario.world0 3 Scenario.all_resolved)
              (Scenario.world0 3 Scenario.all_resolved) Scenario.rtso
              Unresolved.built3 eq_refl E F G)
    as (st' & Hrun & Hcalls & _ & _ & _ & Hdata & Hmem & _).
  replace (handledSlots (Scenario.world0 3 Scenario.all_resolved) (this Unresolved.built3)
             (geometryCountIn (Scenario.world0 3 Scenario.all_resolved) 0
                (getHitProgramCount Scenario.program)))
    with [RayGenSlot; HitSlot 0 0; HitSlot 0 1; HitSlot 0 2; MissSlot 0] in Hdata
    by (vm_compute; reflexivity).
  destruct (Hmem eq_refl) as (Hgpu & Hok & _).
  destruct (Hok (MissSlot 0) (Scenario.prog 8 "miss0") (mkGraphicsVars 4 (Scenario.rs 8))
              ltac:(vm_compute; split; congruence) eq_refl eq_refl) as (Hident & Hparams).
  exists st'. split; [exact Hrun|]. split; [exact Hcalls|]. split; [exact Hdata|].
  split; [exact (Hident 0 ltac:(vm_compute; split; congruence))|].
  split; [exact (Hparams eq_refl 0 ltac:(vm_compute; split; congruence))|].
  exact Hgpu.
Defined.
